(** * NEArithmeticSubtractionKernel: elementwise tensor subtraction

    A shallow embedding of
    [src/core/NEON/kernels/NEArithmeticSubtractionKernel.cpp]:
    the sixteen vectorised compute functions, the dispatch table, and the
    [configure] / [run] methods of the kernel class.

    Conventions.
    - A lane (one tensor element) is the mathematical value of the C++
      object as a [Z]: [uint8_t] in [0, 2^8), [int16_t] in [-2^15, 2^15),
      and a float its bit pattern.  Wrap-around and saturation are written
      out on [Z].
    - A NEON register is the list of its lanes, lowest lane first.
    - [const ITensor *] is an optional location into a store of tensors, so
      that null handles, aliasing and in-place mutation of tensor metadata
      are visible.
    - Code that raises an error returns [Err e] together with the state
      reached when the error was raised. *)

From Stdlib Require Import ZArith Lia.
From stdpp Require Import base option list strings gmap.

(** ** Error conditions *)

(** The C++ code reports every failure through [ARM_COMPUTE_ERROR*]; the
    conditions below name the distinct failure sites.  [AccessFault] stands
    for C++ undefined behaviour (null or dangling dereference, access outside
    a buffer) and [LoopDiverges] for a window loop that never ends. *)
Inductive Error :=
| InvalidArgument
| ShapeMismatch
| UnsupportedType
| InvalidTypeCombination
| FixedPointMismatch
| NotConfigured
| InvalidSubwindow
| AssertionFailed
| AccessFault
| LoopDiverges.

Inductive outcome (A : Type) :=
| Ok (a : A)
| Err (e : Error).
Arguments Ok {A} a.
Arguments Err {A} e.

(** State-and-error monad: the state is returned in both cases, an exception
    does not undo earlier writes. *)
Definition M (S A : Type) : Type := S → outcome A * S.

#[export] Instance M_ret {S} : MRet (M S) := λ A a s, (Ok a, s).
#[export] Instance M_bind {S} : MBind (M S) := λ A B f m s,
  match m s with
  | (Ok a, s') => f a s'
  | (Err e, s') => (Err e, s')
  end.

Definition throw {S A} (e : Error) : M S A := λ s, (Err e, s).
Definition get {S} : M S S := λ s, (Ok s, s).
Definition put {S} (s : S) : M S unit := λ _, (Ok tt, s).

(** [ARM_COMPUTE_ERROR_ON(cond)] with the condition named by [e]. *)
Definition error_on {S} (cond : bool) (e : Error) : M S unit :=
  if cond then throw e else mret tt.

(** ** Lane arithmetic *)

Module Lane.
Local Open Scope Z_scope.

(** Reduction of an exact result to [w] bits, read as unsigned. *)
Definition wrap_u (w : Z) (z : Z) : Z := z mod 2 ^ w.

(** Reduction of an exact result to [w] bits, read as two's complement. *)
Definition wrap_s (w : Z) (z : Z) : Z :=
  (z + 2 ^ (w - 1)) mod 2 ^ w - 2 ^ (w - 1).

(** Clamping to the unsigned and to the signed [w]-bit range. *)
Definition sat_u (w : Z) (z : Z) : Z := Z.max 0 (Z.min (2 ^ w - 1) z).
Definition sat_s (w : Z) (z : Z) : Z :=
  Z.max (- 2 ^ (w - 1)) (Z.min (2 ^ (w - 1) - 1) z).

Definition in_u (w : Z) (z : Z) : Prop := 0 ≤ z < 2 ^ w.
Definition in_s (w : Z) (z : Z) : Prop := - 2 ^ (w - 1) ≤ z < 2 ^ (w - 1).
End Lane.

(** ** NEON registers and intrinsics (arm_neon.h) *)

Definition uint8x8_t := list Z.
Definition uint8x16_t := list Z.
Definition uint16x8_t := list Z.
Definition int16x8_t := list Z.
Definition qint8x16_t := list Z.
Definition float16x8_t := list Z.
Definition float32x4_t := list Z.

Record int16x8x2_t := { s16_val0 : int16x8_t; s16_val1 : int16x8_t }.
Record float16x8x2_t := { f16_val0 : float16x8_t; f16_val1 : float16x8_t }.
Record float32x4x4_t := {
  f32_val0 : float32x4_t; f32_val1 : float32x4_t;
  f32_val2 : float32x4_t; f32_val3 : float32x4_t }.

(** Build-dependent parts: the [ARM_COMPUTE_ENABLE_FP16] macro and the
    lane-wise floating-point subtractions, which act on bit patterns and
    are left abstract. *)
Class Build := {
  ARM_COMPUTE_ENABLE_FP16 : bool;
  fsub_f16 : Z → Z → Z;
  fsub_f32 : Z → Z → Z }.

Definition vsubq_u8 (a b : uint8x16_t) : uint8x16_t :=
  zip_with (λ x y, Lane.wrap_u 8 (x - y)) a b.
Definition vqsubq_u8 (a b : uint8x16_t) : uint8x16_t :=
  zip_with (λ x y, Lane.sat_u 8 (x - y)) a b.
Definition vsubq_s8 (a b : qint8x16_t) : qint8x16_t :=
  zip_with (λ x y, Lane.wrap_s 8 (x - y)) a b.
Definition vqsubq_s8 (a b : qint8x16_t) : qint8x16_t :=
  zip_with (λ x y, Lane.sat_s 8 (x - y)) a b.
Definition vsubq_s16 (a b : int16x8_t) : int16x8_t :=
  zip_with (λ x y, Lane.wrap_s 16 (x - y)) a b.
Definition vqsubq_s16 (a b : int16x8_t) : int16x8_t :=
  zip_with (λ x y, Lane.sat_s 16 (x - y)) a b.
Definition vsubq_f16 `{Build} (a b : float16x8_t) : float16x8_t :=
  zip_with fsub_f16 a b.
Definition vsubq_f32 `{Build} (a b : float32x4_t) : float32x4_t :=
  zip_with fsub_f32 a b.

(** Modelled from the spec: [vsubq_qs8] and [vqsubq_qs8] of NEFixedPoint.h,
    which is not part of the sources at hand.  For fixed-point elements WRAP
    is the modulo arithmetic of the underlying 8-bit width and SATURATE
    clamps to [type-min, type-max]. *)
Definition vsubq_qs8 (a b : qint8x16_t) : qint8x16_t := vsubq_s8 a b.
Definition vqsubq_qs8 (a b : qint8x16_t) : qint8x16_t := vqsubq_s8 a b.

Definition vget_low_u8 (v : uint8x16_t) : uint8x8_t := take 8 v.
Definition vget_high_u8 (v : uint8x16_t) : uint8x8_t := drop 8 v.
(** Zero extension keeps the value of every lane. *)
Definition vmovl_u8 (v : uint8x8_t) : uint16x8_t := v.
(** Same sixteen bits, read as two's complement. *)
Definition vreinterpretq_s16_u16 (v : uint16x8_t) : int16x8_t :=
  Lane.wrap_s 16 <$> v.

(** De-interleaving loads and interleaving stores act on these lane
    permutations. *)
Fixpoint deinterleave2 (v : list Z) : list Z * list Z :=
  match v with
  | x :: y :: v' => let '(a, b) := deinterleave2 v' in (x :: a, y :: b)
  | _ => ([], [])
  end.

Fixpoint interleave2 (a b : list Z) : list Z :=
  match a, b with
  | x :: a', y :: b' => x :: y :: interleave2 a' b'
  | _, _ => []
  end.

Fixpoint deinterleave4 (v : list Z) : list Z * list Z * list Z * list Z :=
  match v with
  | x :: y :: z :: t :: v' =>
      let '(a, b, c, d) := deinterleave4 v' in (x :: a, y :: b, z :: c, t :: d)
  | _ => ([], [], [], [])
  end.

Fixpoint interleave4 (a b c d : list Z) : list Z :=
  match a, b, c, d with
  | x :: a', y :: b', z :: c', t :: d' => x :: y :: z :: t :: interleave4 a' b' c' d'
  | _, _, _, _ => []
  end.

(** ** Data model *)

(** Element types: the six the kernel accepts, and [UNKNOWN] for a tensor
    whose type has not been set. *)
Inductive DataType := UNKNOWN | U8 | QS8 | S16 | QS16 | F16 | F32.

#[export] Instance DataType_eq_dec : EqDecision DataType.
Proof. solve_decision. Defined.

Inductive Format := Format_S16 | Format_F16 | Format_F32.

Inductive ConvertPolicy := WRAP | SATURATE.

#[export] Instance ConvertPolicy_eq_dec : EqDecision ConvertPolicy.
Proof. solve_decision. Defined.

Definition TensorShape := list Z.
Definition Coordinates := list Z.

Record ValidRegion := { anchor : Coordinates; shape : TensorShape }.

(** Tensor metadata.  Strides and the offset of the first element are counted
    in elements of the tensor's own type; [padding_right] is the number of
    elements that may be accessed past the end of a row. *)
Record TensorInfo := {
  tensor_shape : TensorShape;
  data_type : DataType;
  num_channels : Z;
  fixed_point_position : Z;
  strides : list Z;
  offset_first_element : Z;
  padding_right : Z;
  valid_region : ValidRegion }.

Record ITensor := { info : TensorInfo; buffer : list Z }.

(** [const ITensor *]: [None] is [nullptr]. *)
Definition loc := nat.
Definition ITensorPtr := option loc.
Abbreviation Memory := (gmap loc ITensor).

Record Dimension := { d_start : Z; d_end : Z; d_step : Z }.

(** A window is the sequence of its dimensions, x first. *)
Definition Window := list Dimension.

#[export] Instance Dimension_eq_dec : EqDecision Dimension.
Proof. solve_decision. Defined.
#[export] Instance ValidRegion_eq_dec : EqDecision ValidRegion.
Proof. solve_decision. Defined.

Definition with_shape (ti : TensorInfo) (s : TensorShape) : TensorInfo :=
  {| tensor_shape := s; data_type := data_type ti;
     num_channels := num_channels ti;
     fixed_point_position := fixed_point_position ti;
     strides := strides ti; offset_first_element := offset_first_element ti;
     padding_right := padding_right ti; valid_region := valid_region ti |}.

Definition with_data_type (ti : TensorInfo) (dt : DataType) (ch : Z) : TensorInfo :=
  {| tensor_shape := tensor_shape ti; data_type := dt;
     num_channels := ch;
     fixed_point_position := fixed_point_position ti;
     strides := strides ti; offset_first_element := offset_first_element ti;
     padding_right := padding_right ti; valid_region := valid_region ti |}.

Definition with_padding_right (ti : TensorInfo) (p : Z) : TensorInfo :=
  {| tensor_shape := tensor_shape ti; data_type := data_type ti;
     num_channels := num_channels ti;
     fixed_point_position := fixed_point_position ti;
     strides := strides ti; offset_first_element := offset_first_element ti;
     padding_right := p; valid_region := valid_region ti |}.

Definition with_valid_region (ti : TensorInfo) (r : ValidRegion) : TensorInfo :=
  {| tensor_shape := tensor_shape ti; data_type := data_type ti;
     num_channels := num_channels ti;
     fixed_point_position := fixed_point_position ti;
     strides := strides ti; offset_first_element := offset_first_element ti;
     padding_right := padding_right ti; valid_region := r |}.

Definition with_info (t : ITensor) (ti : TensorInfo) : ITensor :=
  {| info := ti; buffer := buffer t |}.

Definition with_buffer (t : ITensor) (b : list Z) : ITensor :=
  {| info := info t; buffer := b |}.

(** ** Memory access *)

(** An address inside the buffer of a tensor, as returned by
    [Iterator::ptr()] and moved by pointer arithmetic. *)
Record Ptr := { p_tensor : ITensorPtr; p_off : Z }.

Definition ptr_add (p : Ptr) (n : Z) : Ptr :=
  {| p_tensor := p_tensor p; p_off := (p_off p + n)%Z |}.

Definition deref (p : ITensorPtr) : M Memory ITensor := λ mem,
  match p with
  | Some l => match mem !! l with
              | Some t => (Ok t, mem)
              | None => (Err AccessFault, mem)
              end
  | None => (Err AccessFault, mem)
  end.

Definition in_bounds (t : ITensor) (off : Z) (n : nat) : bool :=
  bool_decide (0 ≤ off)%Z && bool_decide (off + Z.of_nat n ≤ Z.of_nat (length (buffer t)))%Z.

(** Read [n] consecutive elements. *)
Definition load (n : nat) (p : Ptr) : M Memory (list Z) :=
  t ← deref (p_tensor p);
  if in_bounds t (p_off p) n
  then mret (take n (drop (Z.to_nat (p_off p)) (buffer t)))
  else throw AccessFault.

Definition splice (b : list Z) (off : nat) (v : list Z) : list Z :=
  take off b ++ v ++ drop (off + length v) b.

(** Overwrite [length v] consecutive elements. *)
Definition store (p : Ptr) (v : list Z) : M Memory unit := λ mem,
  match p_tensor p with
  | Some l =>
      match mem !! l with
      | Some t =>
          if in_bounds t (p_off p) (length v)
          then (Ok tt, <[l := with_buffer t (splice (buffer t) (Z.to_nat (p_off p)) v)]> mem)
          else (Err AccessFault, mem)
      | None => (Err AccessFault, mem)
      end
  | None => (Err AccessFault, mem)
  end.

Definition vld1q_u8 (p : Ptr) : M Memory uint8x16_t := load 16 p.
Definition vst1q_u8 (p : Ptr) (v : uint8x16_t) : M Memory unit := store p v.
Definition vld1q_qs8 (p : Ptr) : M Memory qint8x16_t := load 16 p.
Definition vst1q_qs8 (p : Ptr) (v : qint8x16_t) : M Memory unit := store p v.
Definition vld1q_s16 (p : Ptr) : M Memory int16x8_t := load 8 p.
Definition vst1q_s16 (p : Ptr) (v : int16x8_t) : M Memory unit := store p v.

Definition vld2q_s16 (p : Ptr) : M Memory int16x8x2_t :=
  v ← load 16 p;
  let '(a, b) := deinterleave2 v in mret {| s16_val0 := a; s16_val1 := b |}.
Definition vst2q_s16 (p : Ptr) (v : int16x8x2_t) : M Memory unit :=
  store p (interleave2 (s16_val0 v) (s16_val1 v)).

Definition vld2q_f16 (p : Ptr) : M Memory float16x8x2_t :=
  v ← load 16 p;
  let '(a, b) := deinterleave2 v in mret {| f16_val0 := a; f16_val1 := b |}.
Definition vst2q_f16 (p : Ptr) (v : float16x8x2_t) : M Memory unit :=
  store p (interleave2 (f16_val0 v) (f16_val1 v)).

Definition vld4q_f32 (p : Ptr) : M Memory float32x4x4_t :=
  v ← load 16 p;
  let '(a, b, c, d) := deinterleave4 v in
  mret {| f32_val0 := a; f32_val1 := b; f32_val2 := c; f32_val3 := d |}.
Definition vst4q_f32 (p : Ptr) (v : float32x4x4_t) : M Memory unit :=
  store p (interleave4 (f32_val0 v) (f32_val1 v) (f32_val2 v) (f32_val3 v)).

(** ** Windowed iteration *)

(** Modelled from the spec: [Window], [Iterator] and [execute_window_loop]
    (Window.h, Helpers.h) are not part of the sources at hand.  A window is
    an ordered sequence of per-dimension (start, end, step) triples; the loop
    visits [start, start + step, ...] below [end] in every dimension, x
    innermost, and moves one cursor per tensor in lock-step. *)
Definition dim_values (d : Dimension) : option (list Z) :=
  if bool_decide (d_end d ≤ d_start d)%Z then Some []
  else if bool_decide (0 < d_step d)%Z
  then Some ((λ k : nat, d_start d + Z.of_nat k * d_step d)%Z <$>
             seq 0 (Z.to_nat ((d_end d - d_start d + d_step d - 1) / d_step d)))
  else None.

(** [None]: some loop that is entered never ends (its step is not positive). *)
Fixpoint window_positions (w : Window) : option (list Coordinates) :=
  match w with
  | [] => Some [[]]
  | d :: w' =>
      outer ← window_positions w';
      match outer with
      | [] => Some []
      | _ => xs ← dim_values d; Some (o ← outer; (λ x, x :: o) <$> xs)
      end
  end.

Definition dot (a b : list Z) : Z := foldr Z.add 0%Z (zip_with Z.mul a b).

Record Iterator := {
  it_tensor : ITensorPtr;
  it_strides : list Z;
  it_first : Z;
  it_offset : Z }.

Definition Iterator_new (t : ITensorPtr) (w : Window) : M Memory Iterator :=
  T ← deref t;
  mret {| it_tensor := t;
          it_strides := strides (info T);
          it_first := offset_first_element (info T);
          it_offset := (offset_first_element (info T)
                        + dot (d_start <$> w) (strides (info T)))%Z |}.

Definition seek (it : Iterator) (id : Coordinates) : Iterator :=
  {| it_tensor := it_tensor it; it_strides := it_strides it;
     it_first := it_first it;
     it_offset := (it_first it + dot id (it_strides it))%Z |}.

Definition ptr (it : Iterator) : Ptr :=
  {| p_tensor := it_tensor it; p_off := it_offset it |}.

Fixpoint for_each {S A} (l : list A) (f : A → M S unit) : M S unit :=
  match l with
  | [] => mret tt
  | a :: l' => f a;; for_each l' f
  end.

Definition execute_window_loop (w : Window)
    (lambda_function : Coordinates → Iterator → Iterator → Iterator → M Memory unit)
    (i1 i2 i3 : Iterator) : M Memory unit :=
  match window_positions w with
  | None => throw LoopDiverges
  | Some ids => for_each ids (λ id, lambda_function id (seek i1 id) (seek i2 id) (seek i3 id))
  end.

(** ** The compute functions

    One definition per function of the anonymous namespace, in source order.
    The lambda of the source captures the three iterators by reference; here
    it receives them, positioned, from [execute_window_loop]. *)

Definition sub_wrap_QS8_QS8_QS8 (in1 in2 out : ITensorPtr) (window : Window) : M Memory unit :=
  input1 ← Iterator_new in1 window;
  input2 ← Iterator_new in2 window;
  output ← Iterator_new out window;
  execute_window_loop window (λ id input1 input2 output,
    a ← vld1q_qs8 (ptr input1);
    b ← vld1q_qs8 (ptr input2);
    vst1q_qs8 (ptr output) (vsubq_qs8 a b))
  input1 input2 output.

Definition sub_saturate_QS8_QS8_QS8 (in1 in2 out : ITensorPtr) (window : Window) : M Memory unit :=
  input1 ← Iterator_new in1 window;
  input2 ← Iterator_new in2 window;
  output ← Iterator_new out window;
  execute_window_loop window (λ id input1 input2 output,
    a ← vld1q_qs8 (ptr input1);
    b ← vld1q_qs8 (ptr input2);
    vst1q_qs8 (ptr output) (vqsubq_qs8 a b))
  input1 input2 output.

Definition sub_wrap_U8_U8_U8 (in1 in2 out : ITensorPtr) (window : Window) : M Memory unit :=
  input1 ← Iterator_new in1 window;
  input2 ← Iterator_new in2 window;
  output ← Iterator_new out window;
  execute_window_loop window (λ id input1 input2 output,
    a ← vld1q_u8 (ptr input1);
    b ← vld1q_u8 (ptr input2);
    vst1q_u8 (ptr output) (vsubq_u8 a b))
  input1 input2 output.

Definition sub_saturate_U8_U8_U8 (in1 in2 out : ITensorPtr) (window : Window) : M Memory unit :=
  input1 ← Iterator_new in1 window;
  input2 ← Iterator_new in2 window;
  output ← Iterator_new out window;
  execute_window_loop window (λ id input1 input2 output,
    a ← vld1q_u8 (ptr input1);
    b ← vld1q_u8 (ptr input2);
    vst1q_u8 (ptr output) (vqsubq_u8 a b))
  input1 input2 output.

Definition sub_wrap_S16_S16_S16 (in1 in2 out : ITensorPtr) (window : Window) : M Memory unit :=
  input1 ← Iterator_new in1 window;
  input2 ← Iterator_new in2 window;
  output ← Iterator_new out window;
  execute_window_loop window (λ id input1 input2 output,
    ta1 ← vld2q_s16 (ptr input1);
    ta2 ← vld2q_s16 (ptr input2);
    let ta3 := {| s16_val0 := vsubq_s16 (s16_val0 ta1) (s16_val0 ta2);
                  s16_val1 := vsubq_s16 (s16_val1 ta1) (s16_val1 ta2) |} in
    vst2q_s16 (ptr output) ta3)
  input1 input2 output.

Definition sub_saturate_S16_S16_S16 (in1 in2 out : ITensorPtr) (window : Window) : M Memory unit :=
  input1 ← Iterator_new in1 window;
  input2 ← Iterator_new in2 window;
  output ← Iterator_new out window;
  execute_window_loop window (λ id input1 input2 output,
    ta1 ← vld2q_s16 (ptr input1);
    ta2 ← vld2q_s16 (ptr input2);
    let ta3 := {| s16_val0 := vqsubq_s16 (s16_val0 ta1) (s16_val0 ta2);
                  s16_val1 := vqsubq_s16 (s16_val1 ta1) (s16_val1 ta2) |} in
    vst2q_s16 (ptr output) ta3)
  input1 input2 output.

Definition vsub2q_f16 `{Build} (a b : float16x8x2_t) : float16x8x2_t :=
  {| f16_val0 := vsubq_f16 (f16_val0 a) (f16_val0 b);
     f16_val1 := vsubq_f16 (f16_val1 a) (f16_val1 b) |}.

(** Without [ARM_COMPUTE_ENABLE_FP16] the body is the single
    [ARM_COMPUTE_ERROR("Not supported, ...")]. *)
Definition sub_F16_F16_F16 `{Build} (in1 in2 out : ITensorPtr) (window : Window) : M Memory unit :=
  if ARM_COMPUTE_ENABLE_FP16 then
    input1 ← Iterator_new in1 window;
    input2 ← Iterator_new in2 window;
    output ← Iterator_new out window;
    execute_window_loop window (λ id input1 input2 output,
      a ← vld2q_f16 (ptr input1);
      b ← vld2q_f16 (ptr input2);
      vst2q_f16 (ptr output) (vsub2q_f16 a b))
    input1 input2 output
  else throw UnsupportedType.

Definition sub_F32_F32_F32 `{Build} (in1 in2 out : ITensorPtr) (window : Window) : M Memory unit :=
  input1 ← Iterator_new in1 window;
  input2 ← Iterator_new in2 window;
  output ← Iterator_new out window;
  execute_window_loop window (λ id input1 input2 output,
    ta1 ← vld4q_f32 (ptr input1);
    ta2 ← vld4q_f32 (ptr input2);
    let ta3 := {| f32_val0 := vsubq_f32 (f32_val0 ta1) (f32_val0 ta2);
                  f32_val1 := vsubq_f32 (f32_val1 ta1) (f32_val1 ta2);
                  f32_val2 := vsubq_f32 (f32_val2 ta1) (f32_val2 ta2);
                  f32_val3 := vsubq_f32 (f32_val3 ta1) (f32_val3 ta2) |} in
    vst4q_f32 (ptr output) ta3)
  input1 input2 output.

Definition sub_wrap_S16_U8_S16 (in1 in2 out : ITensorPtr) (window : Window) : M Memory unit :=
  input1 ← Iterator_new in1 window;
  input2 ← Iterator_new in2 window;
  output ← Iterator_new out window;
  execute_window_loop window (λ id input1 input2 output,
    bv_0 ← vld1q_u8 (ptr input2);
    a1_0 ← vld1q_s16 (ptr input1);
    a2_0 ← vld1q_s16 (ptr_add (ptr input1) 8);
    let a1_0 := vsubq_s16 a1_0 (vreinterpretq_s16_u16 (vmovl_u8 (vget_low_u8 bv_0))) in
    let a2_0 := vsubq_s16 a2_0 (vreinterpretq_s16_u16 (vmovl_u8 (vget_high_u8 bv_0))) in
    vst1q_s16 (ptr output) a1_0;;
    vst1q_s16 (ptr_add (ptr output) 8) a2_0)
  input1 input2 output.

Definition sub_saturate_S16_U8_S16 (in1 in2 out : ITensorPtr) (window : Window) : M Memory unit :=
  input1 ← Iterator_new in1 window;
  input2 ← Iterator_new in2 window;
  output ← Iterator_new out window;
  execute_window_loop window (λ id input1 input2 output,
    bv_0 ← vld1q_u8 (ptr input2);
    a1_0 ← vld1q_s16 (ptr input1);
    a2_0 ← vld1q_s16 (ptr_add (ptr input1) 8);
    let a1_0 := vqsubq_s16 a1_0 (vreinterpretq_s16_u16 (vmovl_u8 (vget_low_u8 bv_0))) in
    let a2_0 := vqsubq_s16 a2_0 (vreinterpretq_s16_u16 (vmovl_u8 (vget_high_u8 bv_0))) in
    vst1q_s16 (ptr output) a1_0;;
    vst1q_s16 (ptr_add (ptr output) 8) a2_0)
  input1 input2 output.

Definition sub_wrap_U8_S16_S16 (in1 in2 out : ITensorPtr) (window : Window) : M Memory unit :=
  input1 ← Iterator_new in1 window;
  input2 ← Iterator_new in2 window;
  output ← Iterator_new out window;
  execute_window_loop window (λ id input1 input2 output,
    bv_0 ← vld1q_u8 (ptr input1);
    a1_0 ← vld1q_s16 (ptr input2);
    a2_0 ← vld1q_s16 (ptr_add (ptr input2) 8);
    let a1_0 := vsubq_s16 (vreinterpretq_s16_u16 (vmovl_u8 (vget_low_u8 bv_0))) a1_0 in
    let a2_0 := vsubq_s16 (vreinterpretq_s16_u16 (vmovl_u8 (vget_high_u8 bv_0))) a2_0 in
    vst1q_s16 (ptr output) a1_0;;
    vst1q_s16 (ptr_add (ptr output) 8) a2_0)
  input1 input2 output.

Definition sub_saturate_U8_S16_S16 (in1 in2 out : ITensorPtr) (window : Window) : M Memory unit :=
  input1 ← Iterator_new in1 window;
  input2 ← Iterator_new in2 window;
  output ← Iterator_new out window;
  execute_window_loop window (λ id input1 input2 output,
    bv_0 ← vld1q_u8 (ptr input1);
    a1_0 ← vld1q_s16 (ptr input2);
    a2_0 ← vld1q_s16 (ptr_add (ptr input2) 8);
    let a1_0 := vqsubq_s16 (vreinterpretq_s16_u16 (vmovl_u8 (vget_low_u8 bv_0))) a1_0 in
    let a2_0 := vqsubq_s16 (vreinterpretq_s16_u16 (vmovl_u8 (vget_high_u8 bv_0))) a2_0 in
    vst1q_s16 (ptr output) a1_0;;
    vst1q_s16 (ptr_add (ptr output) 8) a2_0)
  input1 input2 output.

Definition sub_wrap_U8_U8_S16 (in1 in2 out : ITensorPtr) (window : Window) : M Memory unit :=
  input1 ← Iterator_new in1 window;
  input2 ← Iterator_new in2 window;
  output ← Iterator_new out window;
  execute_window_loop window (λ id input1 input2 output,
    av_0 ← vld1q_u8 (ptr input1);
    bv_0 ← vld1q_u8 (ptr input2);
    let a1_0 := vsubq_s16 (vreinterpretq_s16_u16 (vmovl_u8 (vget_low_u8 av_0)))
                     (vreinterpretq_s16_u16 (vmovl_u8 (vget_low_u8 bv_0))) in
    let a2_0 := vsubq_s16 (vreinterpretq_s16_u16 (vmovl_u8 (vget_high_u8 av_0)))
                     (vreinterpretq_s16_u16 (vmovl_u8 (vget_high_u8 bv_0))) in
    vst1q_s16 (ptr output) a1_0;;
    vst1q_s16 (ptr_add (ptr output) 8) a2_0)
  input1 input2 output.

Definition sub_saturate_U8_U8_S16 (in1 in2 out : ITensorPtr) (window : Window) : M Memory unit :=
  input1 ← Iterator_new in1 window;
  input2 ← Iterator_new in2 window;
  output ← Iterator_new out window;
  execute_window_loop window (λ id input1 input2 output,
    av_0 ← vld1q_u8 (ptr input1);
    bv_0 ← vld1q_u8 (ptr input2);
    let a1_0 := vqsubq_s16 (vreinterpretq_s16_u16 (vmovl_u8 (vget_low_u8 av_0)))
                     (vreinterpretq_s16_u16 (vmovl_u8 (vget_low_u8 bv_0))) in
    let a2_0 := vqsubq_s16 (vreinterpretq_s16_u16 (vmovl_u8 (vget_high_u8 av_0)))
                     (vreinterpretq_s16_u16 (vmovl_u8 (vget_high_u8 bv_0))) in
    vst1q_s16 (ptr output) a1_0;;
    vst1q_s16 (ptr_add (ptr output) 8) a2_0)
  input1 input2 output.

(** ** The kernel class *)

(** [SubFunction *]: the address of one of the compute functions. *)
Inductive SubFunction :=
| fn_sub_wrap_QS8_QS8_QS8
| fn_sub_saturate_QS8_QS8_QS8
| fn_sub_wrap_U8_U8_U8
| fn_sub_saturate_U8_U8_U8
| fn_sub_wrap_S16_S16_S16
| fn_sub_saturate_S16_S16_S16
| fn_sub_F16_F16_F16
| fn_sub_F32_F32_F32
| fn_sub_wrap_S16_U8_S16
| fn_sub_saturate_S16_U8_S16
| fn_sub_wrap_U8_S16_S16
| fn_sub_saturate_U8_S16_S16
| fn_sub_wrap_U8_U8_S16
| fn_sub_saturate_U8_U8_S16.

#[export] Instance SubFunction_eq_dec : EqDecision SubFunction.
Proof. solve_decision. Defined.

(** The call through the pointer, as [run] makes it. *)
Definition call `{Build} (f : SubFunction) : ITensorPtr → ITensorPtr → ITensorPtr → Window → M Memory unit :=
  match f with
  | fn_sub_wrap_QS8_QS8_QS8 => sub_wrap_QS8_QS8_QS8
  | fn_sub_saturate_QS8_QS8_QS8 => sub_saturate_QS8_QS8_QS8
  | fn_sub_wrap_U8_U8_U8 => sub_wrap_U8_U8_U8
  | fn_sub_saturate_U8_U8_U8 => sub_saturate_U8_U8_U8
  | fn_sub_wrap_S16_S16_S16 => sub_wrap_S16_S16_S16
  | fn_sub_saturate_S16_S16_S16 => sub_saturate_S16_S16_S16
  | fn_sub_F16_F16_F16 => sub_F16_F16_F16
  | fn_sub_F32_F32_F32 => sub_F32_F32_F32
  | fn_sub_wrap_S16_U8_S16 => sub_wrap_S16_U8_S16
  | fn_sub_saturate_S16_U8_S16 => sub_saturate_S16_U8_S16
  | fn_sub_wrap_U8_S16_S16 => sub_wrap_U8_S16_S16
  | fn_sub_saturate_U8_S16_S16 => sub_saturate_U8_S16_S16
  | fn_sub_wrap_U8_U8_S16 => sub_wrap_U8_U8_S16
  | fn_sub_saturate_U8_U8_S16 => sub_saturate_U8_U8_S16
  end.

Record NEArithmeticSubtractionKernel := {
  _func : option SubFunction;
  _input1 : ITensorPtr;
  _input2 : ITensorPtr;
  _output : ITensorPtr;
  _window : Window;
  _is_window_configured : bool }.

(** The constructor: [_func(nullptr), _input1(nullptr), _input2(nullptr),
    _output(nullptr)], and the base class starts without a window. *)
Definition NEArithmeticSubtractionKernel_new : NEArithmeticSubtractionKernel :=
  {| _func := None; _input1 := None; _input2 := None; _output := None;
     _window := []; _is_window_configured := false |}.

Record State := { kernel : NEArithmeticSubtractionKernel; mem : Memory }.

Definition lift_mem {A} (m : M Memory A) : M State A := λ s,
  let '(r, mem') := m (mem s) in (r, {| kernel := kernel s; mem := mem' |}).

Definition modify_kernel (f : NEArithmeticSubtractionKernel → NEArithmeticSubtractionKernel) : M State unit :=
  λ s, (Ok tt, {| kernel := f (kernel s); mem := mem s |}).

Definition get_kernel : M State NEArithmeticSubtractionKernel := λ s, (Ok (kernel s), s).

(** [p->info()], read and written in place. *)
Definition get_info (p : ITensorPtr) : M State TensorInfo :=
  lift_mem (t ← deref p; mret (info t)).

Definition write (p : ITensorPtr) (t : ITensor) : M Memory unit := λ mem,
  match p with
  | Some l => (Ok tt, <[l := t]> mem)
  | None => (Err AccessFault, mem)
  end.

Definition set_info (p : ITensorPtr) (ti : TensorInfo) : M State unit :=
  lift_mem (t ← deref p; write p (with_info t ti)).

(** *** Helpers of the library used by [configure] *)

(** Modelled from the spec: the helpers and checking macros of Helpers.h,
    Validate.h, Utils.h and Window.h that [configure] and [run] call are not
    part of the sources at hand.  Each one follows the step of the spec that
    describes it; an unset shape is the empty sequence of extents and an
    unset element type is [UNKNOWN]. *)
Definition set_shape_if_empty (p : ITensorPtr) (s : TensorShape) : M State bool :=
  ti ← get_info p;
  if bool_decide (tensor_shape ti = [])
  then set_info p (with_shape ti s);; mret true
  else mret false.

Definition data_type_from_format (f : Format) : DataType :=
  match f with
  | Format_S16 => S16
  | Format_F16 => F16
  | Format_F32 => F32
  end.

Definition set_format_if_unknown (p : ITensorPtr) (f : Format) : M State bool :=
  ti ← get_info p;
  if bool_decide (data_type ti = UNKNOWN)
  then set_info p (with_data_type ti (data_type_from_format f) 1);; mret true
  else mret false.

Definition is_data_type_fixed_point (dt : DataType) : bool :=
  match dt with
  | QS8 | QS16 => true
  | _ => false
  end.

Definition string_from_data_type (dt : DataType) : string :=
  match dt with
  | UNKNOWN => "UNKNOWN"
  | U8 => "U8"
  | QS8 => "QS8"
  | S16 => "S16"
  | QS16 => "QS16"
  | F16 => "F16"
  | F32 => "F32"
  end.

Definition ARM_COMPUTE_ERROR_ON_NULLPTR (ps : list ITensorPtr) : M State unit :=
  error_on (bool_decide (Exists (λ p, p = None) ps)) InvalidArgument.

Definition ARM_COMPUTE_ERROR_ON_MISMATCHING_SHAPES (p1 p2 p3 : ITensorPtr) : M State unit :=
  i1 ← get_info p1; i2 ← get_info p2; i3 ← get_info p3;
  error_on (negb (bool_decide (tensor_shape i1 = tensor_shape i2)
                  && bool_decide (tensor_shape i1 = tensor_shape i3)))
           ShapeMismatch.

Definition ARM_COMPUTE_ERROR_ON_DATA_TYPE_CHANNEL_NOT_IN
    (p : ITensorPtr) (channels : Z) (dts : list DataType) : M State unit :=
  ti ← get_info p;
  error_on (negb (bool_decide (data_type ti ∈ dts)
                  && bool_decide (num_channels ti = channels)))
           UnsupportedType.

Definition ARM_COMPUTE_ERROR_ON_MISMATCHING_FIXED_POINT (p1 p2 p3 : ITensorPtr) : M State unit :=
  i1 ← get_info p1; i2 ← get_info p2; i3 ← get_info p3;
  error_on (negb (bool_decide (data_type i1 = data_type i2)
                  && bool_decide (data_type i1 = data_type i3)
                  && bool_decide (fixed_point_position i1 = fixed_point_position i2)
                  && bool_decide (fixed_point_position i1 = fixed_point_position i3)))
           FixedPointMismatch.

Definition ceil_to_multiple (v d : Z) : Z := ((v + d - 1) / d * d)%Z.

(** The maximal window over a tensor: the whole extent of every dimension,
    the x extent rounded up to the number of elements taken per step. *)
Definition calculate_max_window (ti : TensorInfo) (steps : Z) : Window :=
  match tensor_shape ti with
  | [] => []
  | x :: rest =>
      {| d_start := 0; d_end := ceil_to_multiple x steps; d_step := steps |}
      :: ((λ e, {| d_start := 0; d_end := e; d_step := 1 |}) <$> rest)
  end.

(** [AccessWindowHorizontal(info, 0, n)] applied by
    [update_window_and_padding]: the tensor needs as much right padding as
    the window runs past the end of a row; the window itself is kept. *)
Definition required_padding (win : Window) (ti : TensorInfo) : Z :=
  match win, tensor_shape ti with
  | d :: _, x :: _ => Z.max (padding_right ti) (d_end d - x)
  | _, _ => padding_right ti
  end.

Definition update_window_and_padding (win : Window) (ps : list ITensorPtr) : M State unit :=
  for_each ps (λ p, ti ← get_info p; set_info p (with_padding_right ti (required_padding win ti))).

Definition intersect_valid_regions (r1 r2 : ValidRegion) : ValidRegion :=
  let a := zip_with Z.max (anchor r1) (anchor r2) in
  let e := zip_with Z.min (zip_with Z.add (anchor r1) (shape r1))
                          (zip_with Z.add (anchor r2) (shape r2)) in
  {| anchor := a; shape := zip_with Z.sub e a |}.

(** [INEKernel::configure(win)]. *)
Definition INEKernel_configure (win : Window) : M State unit :=
  modify_kernel (λ k, {| _func := _func k; _input1 := _input1 k; _input2 := _input2 k;
                         _output := _output k; _window := win;
                         _is_window_configured := true |}).

Definition dimension_is_sub (full sub : Dimension) : bool :=
  bool_decide (d_start full ≤ d_start sub)%Z
  && bool_decide (d_end sub ≤ d_end full)%Z
  && bool_decide (d_step full = d_step sub)
  && bool_decide ((d_start sub - d_start full) mod d_step sub = 0)%Z.

(** A sub-window stays within the bounds of the full window and keeps its
    steps. *)
Definition is_valid_subwindow (full sub : Window) : bool :=
  bool_decide (length full = length sub)
  && forallb (λ '(f, s), dimension_is_sub f s) (zip full sub).

(** *** The dispatch table *)

Definition map_function : gmap string SubFunction :=
  list_to_map
    [ ("sub_wrap_QS8_QS8_QS8", fn_sub_wrap_QS8_QS8_QS8);
      ("sub_saturate_QS8_QS8_QS8", fn_sub_saturate_QS8_QS8_QS8);
      ("sub_wrap_U8_U8_U8", fn_sub_wrap_U8_U8_U8);
      ("sub_wrap_U8_U8_S16", fn_sub_wrap_U8_U8_S16);
      ("sub_saturate_U8_U8_U8", fn_sub_saturate_U8_U8_U8);
      ("sub_saturate_U8_U8_S16", fn_sub_saturate_U8_U8_S16);
      ("sub_wrap_U8_S16_S16", fn_sub_wrap_U8_S16_S16);
      ("sub_wrap_S16_U8_S16", fn_sub_wrap_S16_U8_S16);
      ("sub_saturate_U8_S16_S16", fn_sub_saturate_U8_S16_S16);
      ("sub_saturate_S16_U8_S16", fn_sub_saturate_S16_U8_S16);
      ("sub_wrap_QS16_QS16_QS16", fn_sub_wrap_S16_S16_S16);
      ("sub_saturate_QS16_QS16_QS16", fn_sub_saturate_S16_S16_S16);
      ("sub_wrap_S16_S16_S16", fn_sub_wrap_S16_S16_S16);
      ("sub_saturate_S16_S16_S16", fn_sub_saturate_S16_S16_S16);
      ("sub_wrap_F32_F32_F32", fn_sub_F32_F32_F32);
      ("sub_saturate_F32_F32_F32", fn_sub_F32_F32_F32);
      ("sub_wrap_F16_F16_F16", fn_sub_F16_F16_F16);
      ("sub_saturate_F16_F16_F16", fn_sub_F16_F16_F16) ].

(** The key built in [function_to_call]. *)
Definition function_to_call (policy : ConvertPolicy) (dt1 dt2 dt3 : DataType) : string :=
  "sub_"
  +:+ (if decide (policy = WRAP) then "wrap_" else "saturate_")
  +:+ (string_from_data_type dt1 +:+ "_")
  +:+ (string_from_data_type dt2 +:+ "_")
  +:+ string_from_data_type dt3.

Definition ignore {S A} (m : M S A) : M S unit := m;; mret tt.

Definition supported_types : list DataType := [QS8; U8; QS16; S16; F16; F32].

(** *** [NEArithmeticSubtractionKernel::configure]

    The body of [configure] is written as its four consecutive parts: the
    block that initialises the output (lines 362-378), the checks (lines
    380-390), the assignment of the handles and the table lookup (lines
    392-434) and the computation of the window (lines 436-452). *)

Definition auto_initialize_output (input1 input2 output : ITensorPtr) : M State unit :=
  i1 ← get_info input1;
  ignore (set_shape_if_empty output (tensor_shape i1));;
  i1 ← get_info input1;
  i2 ← get_info input2;
  if bool_decide (data_type i1 = S16) || bool_decide (data_type i2 = S16)
  then ignore (set_format_if_unknown output Format_S16)
  else if bool_decide (data_type i1 = F16) || bool_decide (data_type i2 = F16)
  then ignore (set_format_if_unknown output Format_F16)
  else if bool_decide (data_type i1 = F32) || bool_decide (data_type i2 = F32)
  then ignore (set_format_if_unknown output Format_F32)
  else mret tt.

Definition validate_arguments (input1 input2 output : ITensorPtr) : M State unit :=
  ARM_COMPUTE_ERROR_ON_MISMATCHING_SHAPES input1 input2 output;;
  ARM_COMPUTE_ERROR_ON_DATA_TYPE_CHANNEL_NOT_IN input1 1 supported_types;;
  ARM_COMPUTE_ERROR_ON_DATA_TYPE_CHANNEL_NOT_IN input2 1 supported_types;;
  ARM_COMPUTE_ERROR_ON_DATA_TYPE_CHANNEL_NOT_IN output 1 supported_types;;
  i1 ← get_info input1;
  i2 ← get_info input2;
  io ← get_info output;
  (* "Output can only be U8 if both inputs are U8" *)
  error_on (bool_decide (data_type io = U8)
            && (negb (bool_decide (data_type i1 = U8)) || negb (bool_decide (data_type i2 = U8))))
           InvalidTypeCombination;;
  if is_data_type_fixed_point (data_type i1)
     || is_data_type_fixed_point (data_type i2)
     || is_data_type_fixed_point (data_type io)
  then
    (* Check that all data types are the same and all fixed-point positions are the same *)
    ARM_COMPUTE_ERROR_ON_MISMATCHING_FIXED_POINT input1 input2 output
  else mret tt.

Definition set_handles (input1 input2 output : ITensorPtr)
    (k : NEArithmeticSubtractionKernel) : NEArithmeticSubtractionKernel :=
  {| _func := _func k; _input1 := input1; _input2 := input2; _output := output;
     _window := _window k; _is_window_configured := _is_window_configured k |}.

Definition set_func (f : SubFunction)
    (k : NEArithmeticSubtractionKernel) : NEArithmeticSubtractionKernel :=
  {| _func := Some f; _input1 := _input1 k; _input2 := _input2 k; _output := _output k;
     _window := _window k; _is_window_configured := _is_window_configured k |}.

Definition resolve_function (input1 input2 output : ITensorPtr) (policy : ConvertPolicy) : M State unit :=
  modify_kernel (set_handles input1 input2 output);;
  i1 ← get_info input1;
  i2 ← get_info input2;
  io ← get_info output;
  match map_function !! function_to_call policy (data_type i1) (data_type i2) (data_type io) with
  | Some f => modify_kernel (set_func f)
  | None => (* "You called subtract with the wrong image formats" *)
      throw InvalidTypeCombination
  end.

Definition num_elems_processed_per_iteration : Z := 16.

Definition configure_window (input1 input2 output : ITensorPtr) : M State unit :=
  i1 ← get_info input1;
  let win := calculate_max_window i1 num_elems_processed_per_iteration in
  update_window_and_padding win [input1; input2; output];;
  i1 ← get_info input1;
  i2 ← get_info input2;
  let valid_region := intersect_valid_regions (valid_region i1) (valid_region i2) in
  io ← get_info output;
  set_info output (with_valid_region io valid_region);;
  INEKernel_configure win.

Definition configure (input1 input2 output : ITensorPtr) (policy : ConvertPolicy) : M State unit :=
  ARM_COMPUTE_ERROR_ON_NULLPTR [input1; input2; output];;
  auto_initialize_output input1 input2 output;;
  validate_arguments input1 input2 output;;
  resolve_function input1 input2 output policy;;
  configure_window input1 input2 output.

(** *** [NEArithmeticSubtractionKernel::run] *)

Definition run `{Build} (window : Window) : M State unit :=
  k ← get_kernel;
  (* ARM_COMPUTE_ERROR_ON_UNCONFIGURED_KERNEL(this) *)
  error_on (negb (_is_window_configured k)) NotConfigured;;
  (* ARM_COMPUTE_ERROR_ON_INVALID_SUBWINDOW(INEKernel::window(), window) *)
  error_on (negb (is_valid_subwindow (_window k) window)) InvalidSubwindow;;
  error_on (bool_decide (_func k = None)) AssertionFailed;;
  match _func k with
  | Some f => lift_mem (call f (_input1 k) (_input2 k) (_output k) window)
  | None => throw AccessFault
  end.

(** ** Reference behaviour of the compute functions

    What one pass of the window loop and what a whole run over a row are
    expected to do to the output buffer, for a lane operation [f]. *)

(** One iteration: sixteen lanes of each input, combined lane by lane,
    replace sixteen lanes of the output. *)
Definition elementwise_step (f : Z → Z → Z) (T1 T2 T3 : ITensor) (o1 o2 o3 : Z) : ITensor :=
  with_buffer T3
    (splice (buffer T3) (Z.to_nat o3)
       (zip_with f (take 16 (drop (Z.to_nat o1) (buffer T1)))
                   (take 16 (drop (Z.to_nat o2) (buffer T2))))).

Definition body_spec (f : Z → Z → Z)
    (body : Coordinates → Iterator → Iterator → Iterator → M Memory unit) : Prop :=
  ∀ id i1 i2 i3 (mem : Memory) l1 l2 l3 T1 T2 T3,
    it_tensor i1 = Some l1 → it_tensor i2 = Some l2 → it_tensor i3 = Some l3 →
    mem !! l1 = Some T1 → mem !! l2 = Some T2 → mem !! l3 = Some T3 →
    in_bounds T1 (it_offset i1) 16 = true →
    in_bounds T2 (it_offset i2) 16 = true →
    in_bounds T3 (it_offset i3) 16 = true →
    body id i1 i2 i3 mem
    = (Ok tt, <[l3 := elementwise_step f T1 T2 T3 (it_offset i1) (it_offset i2) (it_offset i3)]> mem).

(** A run over [len] consecutive elements starting at element [s] of the
    row. *)
Definition elementwise_row (f : Z → Z → Z) (T1 T2 T3 : ITensor) (s : Z) (len : nat) : ITensor :=
  with_buffer T3
    (splice (buffer T3) (Z.to_nat (offset_first_element (info T3) + s))
       (zip_with f
          (take len (drop (Z.to_nat (offset_first_element (info T1) + s)) (buffer T1)))
          (take len (drop (Z.to_nat (offset_first_element (info T2) + s)) (buffer T2))))).

(** The lane operation each compute function applies, read off its body. *)
Definition lane_op `{Build} (fn : SubFunction) : Z → Z → Z :=
  match fn with
  | fn_sub_wrap_QS8_QS8_QS8 => λ x y, Lane.wrap_s 8 (x - y)
  | fn_sub_saturate_QS8_QS8_QS8 => λ x y, Lane.sat_s 8 (x - y)
  | fn_sub_wrap_U8_U8_U8 => λ x y, Lane.wrap_u 8 (x - y)
  | fn_sub_saturate_U8_U8_U8 => λ x y, Lane.sat_u 8 (x - y)
  | fn_sub_wrap_S16_S16_S16 => λ x y, Lane.wrap_s 16 (x - y)
  | fn_sub_saturate_S16_S16_S16 => λ x y, Lane.sat_s 16 (x - y)
  | fn_sub_F16_F16_F16 => fsub_f16
  | fn_sub_F32_F32_F32 => fsub_f32
  | fn_sub_wrap_S16_U8_S16 => λ x y, Lane.wrap_s 16 (x - Lane.wrap_s 16 y)
  | fn_sub_saturate_S16_U8_S16 => λ x y, Lane.sat_s 16 (x - Lane.wrap_s 16 y)
  | fn_sub_wrap_U8_S16_S16 => λ x y, Lane.wrap_s 16 (Lane.wrap_s 16 x - y)
  | fn_sub_saturate_U8_S16_S16 => λ x y, Lane.sat_s 16 (Lane.wrap_s 16 x - y)
  | fn_sub_wrap_U8_U8_S16 => λ x y, Lane.wrap_s 16 (Lane.wrap_s 16 x - Lane.wrap_s 16 y)
  | fn_sub_saturate_U8_U8_S16 => λ x y, Lane.sat_s 16 (Lane.wrap_s 16 x - Lane.wrap_s 16 y)
  end.

(** ** Observations and ranges used in the statements *)

(** Element [idx] of the buffer of tensor [l] after a call, if the call
    returned normally. *)
Definition output_lane (r : outcome unit * Memory) (l : loc) (idx : nat) : option Z :=
  match r with
  | (Ok _, mem) => T ← mem !! l; buffer T !! idx
  | (Err _, _) => None
  end.

(** The buffer of tensor [l] after a method of the kernel returned normally. *)
Definition output_buffer (r : outcome unit * State) (l : loc) : option (list Z) :=
  match r with
  | (Ok _, s) => buffer <$> mem s !! l
  | (Err _, _) => None
  end.

(** Representable range and width of the integer element types. *)
Definition type_min (dt : DataType) : Z :=
  match dt with
  | QS8 => -128
  | S16 | QS16 => -32768
  | _ => 0
  end.

Definition type_max (dt : DataType) : Z :=
  match dt with
  | U8 => 255
  | QS8 => 127
  | S16 | QS16 => 32767
  | _ => 0
  end.

Definition type_bits (dt : DataType) : Z :=
  match dt with
  | U8 | QS8 => 8
  | S16 | QS16 => 16
  | _ => 0
  end.

Definition representable (dt : DataType) (z : Z) : Prop :=
  (type_min dt ≤ z ≤ type_max dt)%Z.

Definition integer_types : list DataType := [U8; QS8; S16; QS16].

(** A dense one-dimensional tensor holding [b]. *)
Definition tensor_1d (dt : DataType) (b : list Z) : ITensor :=
  {| info := {| tensor_shape := [Z.of_nat (length b)];
                data_type := dt;
                num_channels := 1;
                fixed_point_position := 0;
                strides := [1%Z];
                offset_first_element := 0;
                padding_right := 0;
                valid_region := {| anchor := [0%Z]; shape := [Z.of_nat (length b)] |} |};
     buffer := b |}.

(** A build without half-float arithmetic; the float operations are never
    reached by the integer functions and are given a dummy value. *)
Definition build_without_fp16 : Build :=
  {| ARM_COMPUTE_ENABLE_FP16 := false;
     fsub_f16 := λ _ _, 0%Z;
     fsub_f32 := λ _ _, 0%Z |}.

(** The window of one row: [n] steps of sixteen elements from element [s]. *)
Definition row_window (s : Z) (n : nat) : Window :=
  [ {| d_start := s; d_end := s + 16 * Z.of_nat n; d_step := 16 |} ].

(** A tensor whose x stride is one element and whose buffer holds the
    elements [s .. s + len) of its row. *)
Definition covers_row (T : ITensor) (s : Z) (len : nat) : Prop :=
  head (strides (info T)) = Some 1%Z
  ∧ (0 ≤ offset_first_element (info T) + s)%Z
  ∧ (offset_first_element (info T) + s + Z.of_nat len ≤ Z.of_nat (length (buffer T)))%Z.

(** Three tensors at the locations 1, 2 and 3. *)
Definition memory_of (T1 T2 T3 : ITensor) : Memory :=
  <[1%nat := T1]> (<[2%nat := T2]> (<[3%nat := T3]> ∅)).

(** The negation of a 16-bit result, brought back to 16 bits by the policy. *)
Definition negate_under (policy : ConvertPolicy) (r : Z) : Z :=
  match policy with
  | WRAP => Lane.wrap_s 16 (- r)
  | SATURATE => Lane.sat_s 16 (- r)
  end.

(** The scenario of the example: a fresh kernel, two unsigned 8-bit inputs of
    sixteen elements, all 10 and all 250, and an output of type [odt] holding
    [o]. *)
Definition example_state (odt : DataType) (o : list Z) : State :=
  {| kernel := NEArithmeticSubtractionKernel_new;
     mem := memory_of (tensor_1d U8 (replicate 16 10%Z))
                      (tensor_1d U8 (replicate 16 250%Z))
                      (tensor_1d odt o) |}.

Definition window_16 : Window := [ {| d_start := 0; d_end := 16; d_step := 16 |} ].

(** ** Reference behaviour of [configure] *)

(** The element type inferred for an output whose type is unset, in the
    words of the spec: signed 16-bit, then half float, then single float,
    each chosen when either input declares it. *)
Definition inferred_type (dt1 dt2 : DataType) : option DataType :=
  if bool_decide (S16 ∈ [dt1; dt2]) then Some S16
  else if bool_decide (F16 ∈ [dt1; dt2]) then Some F16
  else if bool_decide (F32 ∈ [dt1; dt2]) then Some F32
  else None.

(** The metadata of the output after auto-initialisation: an unset shape
    becomes the shape of input1, an unset type becomes the inferred type, if
    there is one. *)
Definition auto_init (i1 i2 io : TensorInfo) : TensorInfo :=
  let io' := if bool_decide (tensor_shape io = []) then with_shape io (tensor_shape i1) else io in
  match inferred_type (data_type i1) (data_type i2) with
  | Some dt => if bool_decide (data_type io' = UNKNOWN) then with_data_type io' dt 1 else io'
  | None => io'
  end.

(** The combinations of element types listed for the dispatch table: same-type
    triples of the six types, unsigned 8-bit mixed with signed 16-bit in
    either order with a signed 16-bit output, and two unsigned 8-bit inputs
    with a signed 16-bit output. *)
Definition enumerated (dt1 dt2 dt3 : DataType) : bool :=
  (bool_decide (dt1 = dt2) && bool_decide (dt2 = dt3) && bool_decide (dt1 ∈ supported_types))
  || (bool_decide (dt3 = S16)
      && (bool_decide (dt1 = U8 ∧ dt2 = S16) || bool_decide (dt1 = S16 ∧ dt2 = U8)))
  || (bool_decide (dt1 = U8) && bool_decide (dt2 = U8) && bool_decide (dt3 = S16)).

(** The check that rejects a combination outside the table, when shapes and
    channel counts are in order. *)
Definition rejection (dt1 dt2 dt3 : DataType) : Error :=
  if bool_decide (UNKNOWN ∈ [dt1; dt2; dt3]) then UnsupportedType
  else if bool_decide (dt3 = U8) then InvalidTypeCombination
  else if is_data_type_fixed_point dt1 || is_data_type_fixed_point dt2
          || is_data_type_fixed_point dt3
  then FixedPointMismatch
  else InvalidTypeCombination.

(** The outcome of the checks of [configure] as a function of the metadata
    of the three tensors. *)
Definition validation_error (i1 i2 io : TensorInfo) : option Error :=
  let supported ti :=
    bool_decide (data_type ti ∈ supported_types) && bool_decide (num_channels ti = 1%Z) in
  if negb (bool_decide (tensor_shape i1 = tensor_shape i2)
           && bool_decide (tensor_shape i1 = tensor_shape io))
  then Some ShapeMismatch
  else if negb (supported i1) then Some UnsupportedType
  else if negb (supported i2) then Some UnsupportedType
  else if negb (supported io) then Some UnsupportedType
  else if bool_decide (data_type io = U8)
          && (negb (bool_decide (data_type i1 = U8)) || negb (bool_decide (data_type i2 = U8)))
  then Some InvalidTypeCombination
  else if (is_data_type_fixed_point (data_type i1)
           || is_data_type_fixed_point (data_type i2)
           || is_data_type_fixed_point (data_type io))
          && negb (bool_decide (data_type i1 = data_type i2)
                   && bool_decide (data_type i1 = data_type io)
                   && bool_decide (fixed_point_position i1 = fixed_point_position i2)
                   && bool_decide (fixed_point_position i1 = fixed_point_position io))
  then Some FixedPointMismatch
  else None.

(** The state with the metadata of tensor [l] replaced. *)
Definition set_tensor_info (s : State) (l : loc) (T : ITensor) (ti : TensorInfo) : State :=
  {| kernel := kernel s; mem := <[l := with_info T ti]> (mem s) |}.

(** ** Relations between the states before and after a step *)

Definition allocated (p : ITensorPtr) (s : State) : Prop :=
  ∃ l T, p = Some l ∧ mem s !! l = Some T.

(** What [configure] keeps of a tensor: its buffer, its layout, its
    fixed-point position, and its element type once that is set. *)
Definition tensor_steady (T T' : ITensor) : Prop :=
  buffer T' = buffer T
  ∧ strides (info T') = strides (info T)
  ∧ offset_first_element (info T') = offset_first_element (info T)
  ∧ fixed_point_position (info T') = fixed_point_position (info T)
  ∧ (data_type (info T) ≠ UNKNOWN → data_type (info T') = data_type (info T)).

Definition mem_steady (s s' : State) : Prop :=
  ∀ l T, mem s !! l = Some T → ∃ T', mem s' !! l = Some T' ∧ tensor_steady T T'.

(** The memory is kept as above and the kernel object is untouched. *)
Definition steady (s s' : State) : Prop :=
  kernel s' = kernel s ∧ mem_steady s s'.

(** Every run of [m] relates the state it starts from to the state it ends
    in, whether it returns or raises. *)
Definition preserves {A} (R : State → State → Prop) (m : M State A) : Prop :=
  ∀ s r s', m s = (r, s') → R s s'.

(** A rewriting [g] of the metadata [ti] that keeps what [tensor_steady]
    asks for. *)
Definition keeps (g : TensorInfo → TensorInfo) (ti : TensorInfo) : Prop :=
  strides (g ti) = strides ti
  ∧ offset_first_element (g ti) = offset_first_element ti
  ∧ fixed_point_position (g ti) = fixed_point_position ti
  ∧ (data_type ti ≠ UNKNOWN → data_type (g ti) = data_type ti).

Definition unchanged (s s' : State) : Prop := s' = s.

(** The value of the kernel object after [INEKernel::configure(win)]. *)
Definition with_window (win : Window)
    (k : NEArithmeticSubtractionKernel) : NEArithmeticSubtractionKernel :=
  {| _func := _func k; _input1 := _input1 k; _input2 := _input2 k; _output := _output k;
     _window := win; _is_window_configured := true |}.

(** Tensors of equal shapes with one channel each, so that the element
    types alone decide. *)
Definition well_shaped (i1 i2 io : TensorInfo) : Prop :=
  tensor_shape i1 = tensor_shape i2 ∧ tensor_shape i1 = tensor_shape io
  ∧ num_channels i1 = 1%Z ∧ num_channels i2 = 1%Z ∧ num_channels io = 1%Z.

(** A new kernel and three tensors at the locations 1, 2 and 3. *)
Definition fresh_state (T1 T2 T3 : ITensor) : State :=
  {| kernel := NEArithmeticSubtractionKernel_new; mem := memory_of T1 T2 T3 |}.

(** A tensor whose shape and element type have not been set yet. *)
Definition tensor_unset (b : list Z) : ITensor :=
  {| info := {| tensor_shape := [];
                data_type := UNKNOWN;
                num_channels := 0;
                fixed_point_position := 0;
                strides := [1%Z];
                offset_first_element := 0;
                padding_right := 0;
                valid_region := {| anchor := []; shape := [] |} |};
     buffer := b |}.

(** ** Further reference definitions *)

(** Reduction of an exact difference to the range of an integer element
    type, by wrap-around and by clamping. *)
Definition wrap_to (dt : DataType) (z : Z) : Z :=
  match dt with
  | U8 => Lane.wrap_u 8 z
  | QS8 => Lane.wrap_s 8 z
  | S16 | QS16 => Lane.wrap_s 16 z
  | _ => z
  end.

Definition clamp_to (dt : DataType) (z : Z) : Z :=
  Z.max (type_min dt) (Z.min (type_max dt) z).

(** What a compute function whose output is tensor [l3] may change: nothing
    at another location, and at [l3] neither the metadata nor the length of
    the buffer. *)
Definition writes_only_buffer (l3 : loc) (mem mem' : Memory) : Prop :=
  (∀ l, l ≠ l3 → mem' !! l = mem !! l)
  ∧ match mem !! l3 with
    | Some T => ∃ T', mem' !! l3 = Some T' ∧ info T' = info T
                      ∧ length (buffer T') = length (buffer T)
    | None => mem' !! l3 = None
    end.

(** The effect allowed to a call with output handle [output]. *)
Definition output_frame (output : ITensorPtr) (mem mem' : Memory) : Prop :=
  match output with
  | Some l3 => writes_only_buffer l3 mem mem'
  | None => mem' = mem
  end.

(** The conditions a compute function can end with: the error of the
    half-float function, an access outside a buffer or through a bad handle,
    a loop that does not end. *)
Definition compute_error (e : Error) : Prop :=
  e = UnsupportedType ∨ e = AccessFault ∨ e = LoopDiverges.

(** Every run of [m] on a memory relates it to the memory it ends in, and
    raises conditions of [E] only. *)
Definition mem_preserves {A} (R : Memory → Memory → Prop) (E : Error → Prop)
    (m : M Memory A) : Prop :=
  ∀ mem r mem', m mem = (r, mem') → R mem mem' ∧ ∀ e, r = Err e → E e.

(** The conditions raised by the checks of [configure] on the metadata and
    by its table lookup. *)
Definition check_error (e : Error) : Prop :=
  e = ShapeMismatch ∨ e = UnsupportedType ∨ e = InvalidTypeCombination
  ∨ e = FixedPointMismatch.

(** The metadata of a tensor once [update_window_and_padding] has seen it
    with the window [win]. *)
Definition padded (win : Window) (ti : TensorInfo) : TensorInfo :=
  with_padding_right ti (required_padding win ti).

(** The memory a successful [configure] leaves, on three distinct tensors
    [T1], [T2] and [T3] at [l1], [l2] and [l3]: the inputs padded for the
    window, the output initialised, padded and given the intersection of the
    valid regions of the inputs. *)
Definition configured_memory (mem : Memory) (l1 l2 l3 : loc) (T1 T2 T3 : ITensor) : Memory :=
  let win := calculate_max_window (info T1) num_elems_processed_per_iteration in
  let io := auto_init (info T1) (info T2) (info T3) in
  <[l3 := with_info T3
            (with_valid_region (padded win io)
               (intersect_valid_regions (valid_region (info T1)) (valid_region (info T2))))]>
    (<[l2 := with_info T2 (padded win (info T2))]>
       (<[l1 := with_info T1 (padded win (info T1))]> mem)).

(** The window of a block of [h] rows: [n] steps of sixteen elements from
    column [sx] on, in each of the rows [sy], ..., [sy + h - 1]. *)
Definition block_window (sx sy : Z) (n h : nat) : Window :=
  [ {| d_start := sx; d_end := sx + 16 * Z.of_nat n; d_step := 16 |};
    {| d_start := sy; d_end := sy + Z.of_nat h; d_step := 1 |} ].

(** A tensor of at least two dimensions whose x stride is one element and
    whose rows are [w] elements apart; element ([sx], [sy]) is element [q]
    of its buffer, and the buffer holds [len] elements of each of the [h]
    rows from there. *)
Definition covers_block (T : ITensor) (sx sy : Z) (len h q w : nat) : Prop :=
  take 2 (strides (info T)) = [1%Z; Z.of_nat w]
  ∧ (offset_first_element (info T) + sx + sy * Z.of_nat w)%Z = Z.of_nat q
  ∧ ∀ j, j < h → q + j * w + len ≤ length (buffer T).

(** The buffer [b3] after the rows [js] of a block were written, row [j]
    starting at element [q + j * w] of each buffer. *)
Fixpoint write_rows (f : Z → Z → Z) (b1 b2 : list Z) (q1 w1 q2 w2 q3 w3 len : nat)
    (js : list nat) (b3 : list Z) : list Z :=
  match js with
  | [] => b3
  | j :: js' =>
      write_rows f b1 b2 q1 w1 q2 w2 q3 w3 len js'
        (splice b3 (q3 + j * w3)
           (zip_with f (take len (drop (q1 + j * w1) b1)) (take len (drop (q2 + j * w2) b2))))
  end.

(** A dense tensor of [h] rows of [w] elements holding [b], row after row. *)
Definition tensor_2d (dt : DataType) (w h : nat) (b : list Z) : ITensor :=
  {| info := {| tensor_shape := [Z.of_nat w; Z.of_nat h];
                data_type := dt;
                num_channels := 1;
                fixed_point_position := 0;
                strides := [1%Z; Z.of_nat w];
                offset_first_element := 0;
                padding_right := 0;
                valid_region := {| anchor := [0%Z; 0%Z];
                                   shape := [Z.of_nat w; Z.of_nat h] |} |};
     buffer := b |}.

(** The element types a compute function reads and writes, as its name and
    its loads and stores give them; the signed 16-bit functions serve 16-bit
    fixed point as well. *)
Definition input1_type (fn : SubFunction) : DataType :=
  match fn with
  | fn_sub_wrap_QS8_QS8_QS8 | fn_sub_saturate_QS8_QS8_QS8 => QS8
  | fn_sub_wrap_U8_U8_U8 | fn_sub_saturate_U8_U8_U8 => U8
  | fn_sub_wrap_S16_S16_S16 | fn_sub_saturate_S16_S16_S16 => S16
  | fn_sub_F16_F16_F16 => F16
  | fn_sub_F32_F32_F32 => F32
  | fn_sub_wrap_S16_U8_S16 | fn_sub_saturate_S16_U8_S16 => S16
  | fn_sub_wrap_U8_S16_S16 | fn_sub_saturate_U8_S16_S16 => U8
  | fn_sub_wrap_U8_U8_S16 | fn_sub_saturate_U8_U8_S16 => U8
  end.

Definition input2_type (fn : SubFunction) : DataType :=
  match fn with
  | fn_sub_wrap_QS8_QS8_QS8 | fn_sub_saturate_QS8_QS8_QS8 => QS8
  | fn_sub_wrap_U8_U8_U8 | fn_sub_saturate_U8_U8_U8 => U8
  | fn_sub_wrap_S16_S16_S16 | fn_sub_saturate_S16_S16_S16 => S16
  | fn_sub_F16_F16_F16 => F16
  | fn_sub_F32_F32_F32 => F32
  | fn_sub_wrap_S16_U8_S16 | fn_sub_saturate_S16_U8_S16 => U8
  | fn_sub_wrap_U8_S16_S16 | fn_sub_saturate_U8_S16_S16 => S16
  | fn_sub_wrap_U8_U8_S16 | fn_sub_saturate_U8_U8_S16 => U8
  end.

Definition output_type (fn : SubFunction) : DataType :=
  match fn with
  | fn_sub_wrap_QS8_QS8_QS8 | fn_sub_saturate_QS8_QS8_QS8 => QS8
  | fn_sub_wrap_U8_U8_U8 | fn_sub_saturate_U8_U8_U8 => U8
  | fn_sub_F16_F16_F16 => F16
  | fn_sub_F32_F32_F32 => F32
  | _ => S16
  end.

(** A handle the source can use without undefined behaviour: null, or
    pointing to a tensor. *)
Definition null_or_allocated (p : ITensorPtr) (s : State) : Prop :=
  p = None ∨ allocated p s.

(** The situation in which [configure] fails at the table lookup: the three
    handles point to tensors that pass every check, and the table holds no
    entry for their element types under [policy]. *)
Definition lookup_fails (input1 input2 output : ITensorPtr) (policy : ConvertPolicy)
    (s : State) : Prop :=
  ∃ l1 l2 l3 T1 T2 T3,
    input1 = Some l1 ∧ input2 = Some l2 ∧ output = Some l3
    ∧ mem s !! l1 = Some T1 ∧ mem s !! l2 = Some T2 ∧ mem s !! l3 = Some T3
    ∧ validation_error (info T1) (info T2) (info T3) = None
    ∧ map_function !! function_to_call policy (data_type (info T1)) (data_type (info T2))
                        (data_type (info T3)) = None.

(** ** Facts on lane arithmetic *)

Module LaneFacts.
Import Lane.
Local Open Scope Z_scope.

Lemma pow2_pos w : 0 ≤ w → 0 < 2 ^ w.
Proof. intros. apply Z.pow_pos_nonneg; lia. Qed.

Lemma pow2_double w : 0 < w → 2 ^ w = 2 * 2 ^ (w - 1).
Proof.
  intros. replace w with (1 + (w - 1)) at 1 by lia.
  rewrite Z.pow_add_r by lia. reflexivity.
Qed.

Lemma wrap_u_range w z : 0 ≤ w → in_u w (wrap_u w z).
Proof. intros. unfold in_u, wrap_u. apply Z.mod_pos_bound, pow2_pos. lia. Qed.

Lemma wrap_u_congruent w z : 0 ≤ w → ∃ k, wrap_u w z = z + k * 2 ^ w.
Proof.
  intros Hw. exists (- (z / 2 ^ w)). unfold wrap_u.
  pose proof (pow2_pos w Hw).
  rewrite Z.mod_eq by lia. lia.
Qed.

Lemma wrap_u_exact w z : in_u w z → wrap_u w z = z.
Proof. unfold in_u, wrap_u. intros. apply Z.mod_small. lia. Qed.

Lemma wrap_u_below w z : - 2 ^ w ≤ z < 0 → wrap_u w z = z + 2 ^ w.
Proof.
  unfold wrap_u. intros.
  rewrite <- (Z.mod_small (z + 2 ^ w) (2 ^ w)) by lia.
  rewrite <- (Z.mod_add z 1 (2 ^ w)) by lia. f_equal. lia.
Qed.

Lemma wrap_s_range w z : 0 < w → in_s w (wrap_s w z).
Proof.
  intros Hw. unfold in_s, wrap_s.
  pose proof (pow2_pos (w - 1) ltac:(lia)).
  pose proof (pow2_double w Hw).
  pose proof (Z.mod_pos_bound (z + 2 ^ (w - 1)) (2 ^ w) ltac:(lia)). lia.
Qed.

Lemma wrap_s_congruent w z : 0 < w → ∃ k, wrap_s w z = z + k * 2 ^ w.
Proof.
  intros Hw. exists (- ((z + 2 ^ (w - 1)) / 2 ^ w)). unfold wrap_s.
  pose proof (pow2_pos w ltac:(lia)).
  rewrite Z.mod_eq by lia. lia.
Qed.

Lemma wrap_s_exact w z : 0 < w → in_s w z → wrap_s w z = z.
Proof.
  unfold in_s, wrap_s. intros Hw Hz.
  pose proof (pow2_double w Hw).
  rewrite Z.mod_small by lia. lia.
Qed.

Lemma wrap_s_above w z :
  0 < w → 2 ^ (w - 1) ≤ z < 2 ^ (w - 1) + 2 ^ w → wrap_s w z = z - 2 ^ w.
Proof.
  unfold wrap_s. intros Hw Hz.
  pose proof (pow2_double w Hw).
  replace (z + 2 ^ (w - 1)) with (z - 2 ^ (w - 1) + 1 * 2 ^ w) by lia.
  rewrite Z.mod_add by lia. rewrite Z.mod_small by lia. lia.
Qed.

Lemma wrap_s_below w z :
  0 < w → - 2 ^ (w - 1) - 2 ^ w ≤ z < - 2 ^ (w - 1) → wrap_s w z = z + 2 ^ w.
Proof.
  unfold wrap_s. intros Hw Hz.
  pose proof (pow2_double w Hw).
  rewrite <- (Z.mod_add (z + 2 ^ (w - 1)) 1 (2 ^ w)) by lia.
  rewrite Z.mod_small by lia. lia.
Qed.

Lemma sat_u_exact w z : in_u w z → sat_u w z = z.
Proof. unfold in_u, sat_u. lia. Qed.

Lemma sat_u_below w z : 0 ≤ w → z < 0 → sat_u w z = 0.
Proof. unfold sat_u. intros Hw ?. pose proof (pow2_pos w Hw). lia. Qed.

Lemma sat_u_above w z : 0 ≤ w → 2 ^ w ≤ z → sat_u w z = 2 ^ w - 1.
Proof. unfold sat_u. intros Hw ?. pose proof (pow2_pos w Hw). lia. Qed.

Lemma sat_s_exact w z : in_s w z → sat_s w z = z.
Proof. unfold in_s, sat_s. lia. Qed.

Lemma sat_s_below w z : 0 < w → z < - 2 ^ (w - 1) → sat_s w z = - 2 ^ (w - 1).
Proof.
  unfold sat_s. intros Hw ?. pose proof (pow2_pos (w - 1) ltac:(lia)). lia.
Qed.

Lemma sat_s_above w z : 0 < w → 2 ^ (w - 1) ≤ z → sat_s w z = 2 ^ (w - 1) - 1.
Proof.
  unfold sat_s. intros Hw ?. pose proof (pow2_pos (w - 1) ltac:(lia)). lia.
Qed.
End LaneFacts.

(** ** Facts on lane permutations and on buffers *)

Section ListFacts.
Implicit Types (a b u v : list Z) (f : Z → Z → Z).

(** De-interleaving both operands, subtracting the halves and
    interleaving the results is the lane-wise operation. *)
Lemma interleave2_zip_with f n : ∀ a b,
  length a = (2 * n)%nat → length b = (2 * n)%nat →
  interleave2 (zip_with f (deinterleave2 a).1 (deinterleave2 b).1)
              (zip_with f (deinterleave2 a).2 (deinterleave2 b).2)
  = zip_with f a b.
Proof.
  induction n as [|n IH]; intros a b Ha Hb.
  - destruct a, b; done.
  - destruct a as [|x [|y a]]; simplify_eq/=; try lia.
    destruct b as [|x' [|y' b]]; simplify_eq/=; try lia.
    specialize (IH a b ltac:(lia) ltac:(lia)).
    destruct (deinterleave2 a) as [a0 a1], (deinterleave2 b) as [b0 b1].
    simpl in *. by rewrite IH.
Qed.

Lemma interleave4_zip_with f n : ∀ a b,
  length a = (4 * n)%nat → length b = (4 * n)%nat →
  interleave4 (zip_with f (deinterleave4 a).1.1.1 (deinterleave4 b).1.1.1)
              (zip_with f (deinterleave4 a).1.1.2 (deinterleave4 b).1.1.2)
              (zip_with f (deinterleave4 a).1.2 (deinterleave4 b).1.2)
              (zip_with f (deinterleave4 a).2 (deinterleave4 b).2)
  = zip_with f a b.
Proof.
  induction n as [|n IH]; intros a b Ha Hb.
  - destruct a, b; done.
  - destruct a as [|x [|y [|z [|t a]]]]; simplify_eq/=; try lia.
    destruct b as [|x' [|y' [|z' [|t' b]]]]; simplify_eq/=; try lia.
    specialize (IH a b ltac:(lia) ltac:(lia)).
    destruct (deinterleave4 a) as [[[a0 a1] a2] a3],
             (deinterleave4 b) as [[[b0 b1] b2] b3].
    simpl in *. by rewrite IH.
Qed.

Lemma length_splice b off v :
  off + length v ≤ length b → length (splice b off v) = length b.
Proof.
  intros. unfold splice.
  rewrite !length_app, length_take, length_drop. lia.
Qed.

Lemma splice_nil b off : splice b off [] = b.
Proof. unfold splice. simpl. rewrite Nat.add_0_r. apply take_drop. Qed.

Lemma splice_app b off u v :
  off + length u + length v ≤ length b →
  splice (splice b off u) (off + length u) v = splice b off (u ++ v).
Proof.
  intros Hlen. unfold splice.
  assert (Htake : length (take off b) = off) by (rewrite length_take; lia).
  rewrite (app_assoc (take off b) u).
  rewrite take_app_length' by (rewrite length_app; lia).
  rewrite drop_app_add' by (rewrite length_app; lia).
  rewrite drop_drop, length_app.
  rewrite <- !app_assoc. do 3 f_equal. by rewrite Nat.add_assoc.
Qed.

Lemma lookup_splice_in b off v i :
  off + length v ≤ length b → i < length v →
  splice b off v !! (off + i) = v !! i.
Proof.
  intros Hlen Hi. unfold splice.
  rewrite lookup_app_r by (rewrite length_take; lia).
  rewrite length_take, Nat.min_l by lia.
  replace (off + i - off) with i by lia.
  by rewrite lookup_app_l.
Qed.

Lemma lookup_splice_out b off v j :
  off + length v ≤ length b → j < off ∨ off + length v ≤ j →
  splice b off v !! j = b !! j.
Proof.
  intros Hlen [Hj|Hj]; unfold splice.
  - rewrite lookup_app_l by (rewrite length_take; lia).
    by apply lookup_take_lt.
  - rewrite lookup_app_r by (rewrite length_take; lia).
    rewrite length_take, Nat.min_l by lia.
    rewrite lookup_app_r by lia.
    rewrite lookup_drop. f_equal. lia.
Qed.

(** Two adjacent chunks of both operands, subtracted separately. *)
Lemma zip_with_take_chunks f a b n m :
  n ≤ length a → n ≤ length b →
  zip_with f (take n a) (take n b)
  ++ zip_with f (take m (drop n a)) (take m (drop n b))
  = zip_with f (take (n + m) a) (take (n + m) b).
Proof.
  intros Ha Hb.
  rewrite <- (take_take_drop a n m), <- (take_take_drop b n m).
  rewrite zip_with_app; [done|].
  rewrite !length_take. lia.
Qed.
End ListFacts.

(** ** Facts on the monad and on memory access *)

Section MonadFacts.
Context {S A B : Type}.
Implicit Types (m : M S A) (f : A → M S B).

Lemma bind_ok m f s a s' : m s = (Ok a, s') → (m ≫= f) s = f a s'.
Proof. unfold mbind, M_bind. by intros ->. Qed.

Lemma bind_err m f s e s' : m s = (Err e, s') → (m ≫= f) s = (Err e, s').
Proof. unfold mbind, M_bind. by intros ->. Qed.

Lemma bind_inv_ok m f s b s' :
  (m ≫= f) s = (Ok b, s') → ∃ a s1, m s = (Ok a, s1) ∧ f a s1 = (Ok b, s').
Proof.
  unfold mbind, M_bind. destruct (m s) as [[a|e] s1]; [eauto|done].
Qed.

Lemma bind_inv_err m f s e s' :
  (m ≫= f) s = (Err e, s') →
  m s = (Err e, s') ∨ ∃ a s1, m s = (Ok a, s1) ∧ f a s1 = (Err e, s').
Proof.
  unfold mbind, M_bind. destruct (m s) as [[a|e1] s1]; [eauto|].
  intros [= -> ->]. by left.
Qed.
End MonadFacts.

Section AccessFacts.
Implicit Types (mem : Memory) (T : ITensor).

Lemma deref_ok mem l T : mem !! l = Some T → deref (Some l) mem = (Ok T, mem).
Proof. unfold deref. by intros ->. Qed.

Lemma in_bounds_spec T off n :
  in_bounds T off n = true ↔ (0 ≤ off ∧ off + Z.of_nat n ≤ Z.of_nat (length (buffer T)))%Z.
Proof.
  unfold in_bounds. rewrite andb_true_iff, !bool_decide_eq_true. done.
Qed.

Lemma length_chunk T off n :
  in_bounds T off n = true → length (take n (drop (Z.to_nat off) (buffer T))) = n.
Proof.
  rewrite in_bounds_spec. intros [? ?].
  rewrite length_take, length_drop. lia.
Qed.

Lemma load_ok mem l T off n :
  mem !! l = Some T → in_bounds T off n = true →
  load n {| p_tensor := Some l; p_off := off |} mem
  = (Ok (take n (drop (Z.to_nat off) (buffer T))), mem).
Proof.
  intros Hl Hb. unfold load. simpl.
  rewrite (bind_ok _ _ _ _ _ (deref_ok _ _ _ Hl)). by rewrite Hb.
Qed.

Lemma store_ok mem l T off v :
  mem !! l = Some T → in_bounds T off (length v) = true →
  store {| p_tensor := Some l; p_off := off |} v mem
  = (Ok tt, <[l := with_buffer T (splice (buffer T) (Z.to_nat off) v)]> mem).
Proof. intros Hl Hb. unfold store. simpl. by rewrite Hl, Hb. Qed.

Lemma in_bounds_halves T off :
  in_bounds T off 16 = true →
  in_bounds T off 8 = true ∧ in_bounds T (off + 8) 8 = true.
Proof. rewrite !in_bounds_spec. lia. Qed.
End AccessFacts.

(** ** One iteration of each loop body *)

Section BodyFacts.
Implicit Types (mem : Memory) (f : Z → Z → Z).

Lemma vld2q_s16_ok mem l T off :
  mem !! l = Some T → in_bounds T off 16 = true →
  vld2q_s16 {| p_tensor := Some l; p_off := off |} mem
  = (Ok {| s16_val0 := (deinterleave2 (take 16 (drop (Z.to_nat off) (buffer T)))).1;
           s16_val1 := (deinterleave2 (take 16 (drop (Z.to_nat off) (buffer T)))).2 |},
     mem).
Proof.
  intros Hl Hb. unfold vld2q_s16.
  rewrite (bind_ok _ _ _ _ _ (load_ok _ _ _ _ _ Hl Hb)).
  by destruct (deinterleave2 _).
Qed.

Lemma vld2q_f16_ok mem l T off :
  mem !! l = Some T → in_bounds T off 16 = true →
  vld2q_f16 {| p_tensor := Some l; p_off := off |} mem
  = (Ok {| f16_val0 := (deinterleave2 (take 16 (drop (Z.to_nat off) (buffer T)))).1;
           f16_val1 := (deinterleave2 (take 16 (drop (Z.to_nat off) (buffer T)))).2 |},
     mem).
Proof.
  intros Hl Hb. unfold vld2q_f16.
  rewrite (bind_ok _ _ _ _ _ (load_ok _ _ _ _ _ Hl Hb)).
  by destruct (deinterleave2 _).
Qed.

Lemma vld4q_f32_ok mem l T off :
  mem !! l = Some T → in_bounds T off 16 = true →
  vld4q_f32 {| p_tensor := Some l; p_off := off |} mem
  = (Ok {| f32_val0 := (deinterleave4 (take 16 (drop (Z.to_nat off) (buffer T)))).1.1.1;
           f32_val1 := (deinterleave4 (take 16 (drop (Z.to_nat off) (buffer T)))).1.1.2;
           f32_val2 := (deinterleave4 (take 16 (drop (Z.to_nat off) (buffer T)))).1.2;
           f32_val3 := (deinterleave4 (take 16 (drop (Z.to_nat off) (buffer T)))).2 |},
     mem).
Proof.
  intros Hl Hb. unfold vld4q_f32.
  rewrite (bind_ok _ _ _ _ _ (load_ok _ _ _ _ _ Hl Hb)).
  by destruct (deinterleave4 _) as [[[? ?] ?] ?].
Qed.

Lemma length_zip_chunks f T1 T2 o1 o2 n :
  in_bounds T1 o1 n = true → in_bounds T2 o2 n = true →
  length (zip_with f (take n (drop (Z.to_nat o1) (buffer T1)))
                     (take n (drop (Z.to_nat o2) (buffer T2)))) = n.
Proof.
  intros B1 B2. rewrite length_zip_with_l_eq; rewrite !length_chunk; done.
Qed.

(** Contiguous load, lane operation, contiguous store. *)
Lemma body_spec_contiguous f :
  body_spec f (λ id input1 input2 output,
    a ← load 16 (ptr input1);
    b ← load 16 (ptr input2);
    store (ptr output) (zip_with f a b)).
Proof.
  intros id i1 i2 i3 mem l1 l2 l3 T1 T2 T3 H1 H2 H3 M1 M2 M3 B1 B2 B3.
  unfold ptr. rewrite H1, H2, H3.
  rewrite (bind_ok _ _ _ _ _ (load_ok _ _ _ _ _ M1 B1)).
  rewrite (bind_ok _ _ _ _ _ (load_ok _ _ _ _ _ M2 B2)).
  apply store_ok; [done|]. by rewrite length_zip_chunks.
Qed.

(** De-interleaving load, the operation on each half, interleaving store. *)
Lemma body_spec_interleaved2 f :
  body_spec f (λ id input1 input2 output,
    ta1 ← vld2q_s16 (ptr input1);
    ta2 ← vld2q_s16 (ptr input2);
    let ta3 := {| s16_val0 := zip_with f (s16_val0 ta1) (s16_val0 ta2);
                  s16_val1 := zip_with f (s16_val1 ta1) (s16_val1 ta2) |} in
    vst2q_s16 (ptr output) ta3).
Proof.
  intros id i1 i2 i3 mem l1 l2 l3 T1 T2 T3 H1 H2 H3 M1 M2 M3 B1 B2 B3.
  unfold ptr. rewrite H1, H2, H3.
  rewrite (bind_ok _ _ _ _ _ (vld2q_s16_ok _ _ _ _ M1 B1)).
  rewrite (bind_ok _ _ _ _ _ (vld2q_s16_ok _ _ _ _ M2 B2)).
  unfold vst2q_s16. simpl.
  rewrite (interleave2_zip_with f 8) by (by rewrite length_chunk).
  apply store_ok; [done|]. by rewrite length_zip_chunks.
Qed.

Lemma body_spec_interleaved2_f16 f :
  body_spec f (λ id input1 input2 output,
    a ← vld2q_f16 (ptr input1);
    b ← vld2q_f16 (ptr input2);
    vst2q_f16 (ptr output)
      {| f16_val0 := zip_with f (f16_val0 a) (f16_val0 b);
         f16_val1 := zip_with f (f16_val1 a) (f16_val1 b) |}).
Proof.
  intros id i1 i2 i3 mem l1 l2 l3 T1 T2 T3 H1 H2 H3 M1 M2 M3 B1 B2 B3.
  unfold ptr. rewrite H1, H2, H3.
  rewrite (bind_ok _ _ _ _ _ (vld2q_f16_ok _ _ _ _ M1 B1)).
  rewrite (bind_ok _ _ _ _ _ (vld2q_f16_ok _ _ _ _ M2 B2)).
  unfold vst2q_f16. simpl.
  rewrite (interleave2_zip_with f 8) by (by rewrite length_chunk).
  apply store_ok; [done|]. by rewrite length_zip_chunks.
Qed.

Lemma body_spec_interleaved4 f :
  body_spec f (λ id input1 input2 output,
    ta1 ← vld4q_f32 (ptr input1);
    ta2 ← vld4q_f32 (ptr input2);
    let ta3 := {| f32_val0 := zip_with f (f32_val0 ta1) (f32_val0 ta2);
                  f32_val1 := zip_with f (f32_val1 ta1) (f32_val1 ta2);
                  f32_val2 := zip_with f (f32_val2 ta1) (f32_val2 ta2);
                  f32_val3 := zip_with f (f32_val3 ta1) (f32_val3 ta2) |} in
    vst4q_f32 (ptr output) ta3).
Proof.
  intros id i1 i2 i3 mem l1 l2 l3 T1 T2 T3 H1 H2 H3 M1 M2 M3 B1 B2 B3.
  unfold ptr. rewrite H1, H2, H3.
  rewrite (bind_ok _ _ _ _ _ (vld4q_f32_ok _ _ _ _ M1 B1)).
  rewrite (bind_ok _ _ _ _ _ (vld4q_f32_ok _ _ _ _ M2 B2)).
  unfold vst4q_f32. simpl.
  rewrite (interleave4_zip_with f 4) by (by rewrite length_chunk).
  apply store_ok; [done|]. by rewrite length_zip_chunks.
Qed.
End BodyFacts.

Ltac solve_length :=
  repeat (rewrite ?length_fmap, ?length_take, ?length_drop in * );
  lia.

Section WideningBodyFacts.
Implicit Types (mem : Memory) (g : Z → Z → Z).

Lemma chunk_halves T off :
  in_bounds T off 16 = true →
  take 8 (drop (Z.to_nat off) (buffer T)) ++ take 8 (drop (Z.to_nat (off + 8)) (buffer T))
  = take 16 (drop (Z.to_nat off) (buffer T)).
Proof.
  rewrite in_bounds_spec. intros [? ?].
  replace (Z.to_nat (off + 8)) with (Z.to_nat off + 8) by lia.
  rewrite <- drop_drop. apply (take_take_drop _ 8 8).
Qed.

Lemma store_halves mem l T off u v :
  mem !! l = Some T → in_bounds T off 16 = true →
  length u = 8 → length v = 8 →
  (store {| p_tensor := Some l; p_off := off |} u;;
   store {| p_tensor := Some l; p_off := off + 8 |} v) mem
  = (Ok tt, <[l := with_buffer T (splice (buffer T) (Z.to_nat off) (u ++ v))]> mem).
Proof.
  intros Hl Hb Hu Hv.
  destruct (in_bounds_halves _ _ Hb) as [Hb1 Hb2].
  pose proof (proj1 (in_bounds_spec _ _ _) Hb) as [? ?].
  erewrite bind_ok; last by (apply store_ok; [done|by rewrite Hu]).
  erewrite store_ok; [|apply lookup_insert_eq|].
  - rewrite insert_insert_eq. do 2 f_equal. unfold with_buffer. simpl. f_equal.
    replace (Z.to_nat (off + 8)) with (Z.to_nat off + length u) by lia.
    apply splice_app. lia.
  - apply in_bounds_spec. simpl. rewrite length_splice by lia. lia.
Qed.

Lemma widen_halves g (a1 a2 bv : list Z) :
  length a1 = 8 → 8 ≤ length bv →
  zip_with g a1 (vreinterpretq_s16_u16 (vmovl_u8 (vget_low_u8 bv)))
  ++ zip_with g a2 (vreinterpretq_s16_u16 (vmovl_u8 (vget_high_u8 bv)))
  = zip_with (λ x y, g x (Lane.wrap_s 16 y)) (a1 ++ a2) bv.
Proof.
  intros Ha Hb. unfold vreinterpretq_s16_u16, vmovl_u8, vget_low_u8, vget_high_u8.
  rewrite !zip_with_fmap_r.
  rewrite <- (take_drop 8 bv) at 3.
  rewrite zip_with_app; [done|]. rewrite length_take. lia.
Qed.

Lemma widen_halves_l g (a1 a2 bv : list Z) :
  length a1 = 8 → 8 ≤ length bv →
  zip_with g (vreinterpretq_s16_u16 (vmovl_u8 (vget_low_u8 bv))) a1
  ++ zip_with g (vreinterpretq_s16_u16 (vmovl_u8 (vget_high_u8 bv))) a2
  = zip_with (λ x y, g (Lane.wrap_s 16 x) y) bv (a1 ++ a2).
Proof.
  intros Ha Hb. unfold vreinterpretq_s16_u16, vmovl_u8, vget_low_u8, vget_high_u8.
  rewrite !zip_with_fmap_l.
  rewrite <- (take_drop 8 bv) at 3.
  rewrite zip_with_app; [done|]. rewrite length_take. lia.
Qed.

Lemma widen_halves_both g (av bv : list Z) :
  length av = 16 → length bv = 16 →
  zip_with g (vreinterpretq_s16_u16 (vmovl_u8 (vget_low_u8 av)))
             (vreinterpretq_s16_u16 (vmovl_u8 (vget_low_u8 bv)))
  ++ zip_with g (vreinterpretq_s16_u16 (vmovl_u8 (vget_high_u8 av)))
                (vreinterpretq_s16_u16 (vmovl_u8 (vget_high_u8 bv)))
  = zip_with (λ x y, g (Lane.wrap_s 16 x) (Lane.wrap_s 16 y)) av bv.
Proof.
  intros Ha Hb. unfold vreinterpretq_s16_u16, vmovl_u8, vget_low_u8, vget_high_u8.
  rewrite !zip_with_fmap_l, !zip_with_fmap_r.
  rewrite <- (take_drop 8 av) at 3. rewrite <- (take_drop 8 bv) at 3.
  rewrite zip_with_app; [done|]. rewrite !length_take. lia.
Qed.

(** [S16 - U8]: the second operand is widened. *)
Lemma body_spec_widen_second g :
  body_spec (λ x y, g x (Lane.wrap_s 16 y)) (λ id input1 input2 output,
    bv_0 ← vld1q_u8 (ptr input2);
    a1_0 ← vld1q_s16 (ptr input1);
    a2_0 ← vld1q_s16 (ptr_add (ptr input1) 8);
    let a1_0 := zip_with g a1_0 (vreinterpretq_s16_u16 (vmovl_u8 (vget_low_u8 bv_0))) in
    let a2_0 := zip_with g a2_0 (vreinterpretq_s16_u16 (vmovl_u8 (vget_high_u8 bv_0))) in
    vst1q_s16 (ptr output) a1_0;;
    vst1q_s16 (ptr_add (ptr output) 8) a2_0).
Proof.
  intros id i1 i2 i3 mem l1 l2 l3 T1 T2 T3 H1 H2 H3 M1 M2 M3 B1 B2 B3.
  unfold ptr, vld1q_u8, vld1q_s16, vst1q_s16, ptr_add. simpl. rewrite H1, H2, H3.
  destruct (in_bounds_halves _ _ B1) as [B1a B1b].
  rewrite (bind_ok _ _ _ _ _ (load_ok _ _ _ _ _ M2 B2)).
  rewrite (bind_ok _ _ _ _ _ (load_ok _ _ _ _ _ M1 B1a)).
  rewrite (bind_ok _ _ _ _ _ (load_ok _ _ _ _ _ M1 B1b)).
  pose proof (length_chunk _ _ _ B1a). pose proof (length_chunk _ _ _ B1b).
  pose proof (length_chunk _ _ _ B2).
  erewrite (store_halves mem l3 T3); [|done|done|..].
  - rewrite widen_halves by lia. by rewrite chunk_halves.
  - rewrite length_zip_with_l_eq; [done|].
    unfold vreinterpretq_s16_u16, vmovl_u8, vget_low_u8.
    solve_length.
  - rewrite length_zip_with_l_eq; [done|].
    unfold vreinterpretq_s16_u16, vmovl_u8, vget_high_u8.
    solve_length.
Qed.

(** [U8 - S16]: the first operand is widened. *)
Lemma body_spec_widen_first g :
  body_spec (λ x y, g (Lane.wrap_s 16 x) y) (λ id input1 input2 output,
    bv_0 ← vld1q_u8 (ptr input1);
    a1_0 ← vld1q_s16 (ptr input2);
    a2_0 ← vld1q_s16 (ptr_add (ptr input2) 8);
    let a1_0 := zip_with g (vreinterpretq_s16_u16 (vmovl_u8 (vget_low_u8 bv_0))) a1_0 in
    let a2_0 := zip_with g (vreinterpretq_s16_u16 (vmovl_u8 (vget_high_u8 bv_0))) a2_0 in
    vst1q_s16 (ptr output) a1_0;;
    vst1q_s16 (ptr_add (ptr output) 8) a2_0).
Proof.
  intros id i1 i2 i3 mem l1 l2 l3 T1 T2 T3 H1 H2 H3 M1 M2 M3 B1 B2 B3.
  unfold ptr, vld1q_u8, vld1q_s16, vst1q_s16, ptr_add. simpl. rewrite H1, H2, H3.
  destruct (in_bounds_halves _ _ B2) as [B2a B2b].
  rewrite (bind_ok _ _ _ _ _ (load_ok _ _ _ _ _ M1 B1)).
  rewrite (bind_ok _ _ _ _ _ (load_ok _ _ _ _ _ M2 B2a)).
  rewrite (bind_ok _ _ _ _ _ (load_ok _ _ _ _ _ M2 B2b)).
  pose proof (length_chunk _ _ _ B2a). pose proof (length_chunk _ _ _ B2b).
  pose proof (length_chunk _ _ _ B1).
  erewrite (store_halves mem l3 T3); [|done|done|..].
  - rewrite widen_halves_l by lia. by rewrite chunk_halves.
  - rewrite length_zip_with_r_eq; [done|].
    unfold vreinterpretq_s16_u16, vmovl_u8, vget_low_u8.
    solve_length.
  - rewrite length_zip_with_r_eq; [done|].
    unfold vreinterpretq_s16_u16, vmovl_u8, vget_high_u8.
    solve_length.
Qed.

(** [U8 - U8] with a 16-bit result: both operands are widened. *)
Lemma body_spec_widen_both g :
  body_spec (λ x y, g (Lane.wrap_s 16 x) (Lane.wrap_s 16 y)) (λ id input1 input2 output,
    av_0 ← vld1q_u8 (ptr input1);
    bv_0 ← vld1q_u8 (ptr input2);
    let a1_0 := zip_with g (vreinterpretq_s16_u16 (vmovl_u8 (vget_low_u8 av_0)))
                           (vreinterpretq_s16_u16 (vmovl_u8 (vget_low_u8 bv_0))) in
    let a2_0 := zip_with g (vreinterpretq_s16_u16 (vmovl_u8 (vget_high_u8 av_0)))
                           (vreinterpretq_s16_u16 (vmovl_u8 (vget_high_u8 bv_0))) in
    vst1q_s16 (ptr output) a1_0;;
    vst1q_s16 (ptr_add (ptr output) 8) a2_0).
Proof.
  intros id i1 i2 i3 mem l1 l2 l3 T1 T2 T3 H1 H2 H3 M1 M2 M3 B1 B2 B3.
  unfold ptr, vld1q_u8, vst1q_s16, ptr_add. simpl. rewrite H1, H2, H3.
  rewrite (bind_ok _ _ _ _ _ (load_ok _ _ _ _ _ M1 B1)).
  rewrite (bind_ok _ _ _ _ _ (load_ok _ _ _ _ _ M2 B2)).
  pose proof (length_chunk _ _ _ B1). pose proof (length_chunk _ _ _ B2).
  erewrite (store_halves mem l3 T3); [|done|done|..].
  - by rewrite widen_halves_both.
  - rewrite length_zip_with_l_eq;
      unfold vreinterpretq_s16_u16, vmovl_u8, vget_low_u8;
      solve_length.
  - rewrite length_zip_with_l_eq;
      unfold vreinterpretq_s16_u16, vmovl_u8, vget_high_u8;
      solve_length.
Qed.
End WideningBodyFacts.

(** ** The window loop over a row *)

Section RowLoop.
Local Open Scope Z_scope.

Lemma dim_values_row s n :
  dim_values {| d_start := s; d_end := s + 16 * Z.of_nat n; d_step := 16 |}
  = Some ((λ k : nat, s + Z.of_nat k * 16) <$> seq 0 n).
Proof.
  unfold dim_values. simpl. case_bool_decide as Hn.
  - by replace n with 0%nat by lia.
  - do 3 f_equal.
    replace (s + 16 * Z.of_nat n - s + 16 - 1) with (15 + Z.of_nat n * 16) by lia.
    rewrite Z.div_add by lia. change (15 / 16) with 0. lia.
Qed.

Lemma window_positions_row s n :
  window_positions (row_window s n)
  = Some ((λ k : nat, [s + Z.of_nat k * 16]) <$> seq 0 n).
Proof.
  unfold row_window. simpl. rewrite dim_values_row. simpl.
  rewrite app_nil_r. by rewrite <- list_fmap_compose.
Qed.

Lemma seek_row it x r :
  it_strides it = 1 :: r → it_offset (seek it [x]) = it_first it + x.
Proof. intros Hs. unfold seek, dot. simpl. rewrite Hs. simpl. lia. Qed.

Lemma with_buffer_id T : with_buffer T (buffer T) = T.
Proof. by destruct T. Qed.

Local Arguments Nat.mul : simpl never.
Local Arguments Z.mul : simpl never.
Local Arguments Z.of_nat : simpl never.

Context (f : Z → Z → Z)
        (body : Coordinates → Iterator → Iterator → Iterator → M Memory unit)
        (Hbody : body_spec f body).
Context (l1 l2 l3 : loc) (Hl1 : l3 ≠ l1) (Hl2 : l3 ≠ l2).
Context (i1 i2 i3 : Iterator) (r1 r2 r3 : list Z)
        (Ht1 : it_tensor i1 = Some l1) (Ht2 : it_tensor i2 = Some l2)
        (Ht3 : it_tensor i3 = Some l3)
        (Hs1 : it_strides i1 = 1 :: r1) (Hs2 : it_strides i2 = 1 :: r2)
        (Hs3 : it_strides i3 = 1 :: r3).

(** [n] iterations from step [k] on, started on a memory whose output
    tensor is [T3]. *)
Lemma for_each_row (s : Z) (T1 T2 : ITensor) : ∀ (n k : nat) (mem : Memory) (T3 : ITensor),
  mem !! l1 = Some T1 → mem !! l2 = Some T2 → mem !! l3 = Some T3 →
  0 ≤ it_first i1 + s → 0 ≤ it_first i2 + s → 0 ≤ it_first i3 + s →
  it_first i1 + s + 16 * Z.of_nat (k + n) ≤ Z.of_nat (length (buffer T1)) →
  it_first i2 + s + 16 * Z.of_nat (k + n) ≤ Z.of_nat (length (buffer T2)) →
  it_first i3 + s + 16 * Z.of_nat (k + n) ≤ Z.of_nat (length (buffer T3)) →
  for_each ((λ j : nat, [s + Z.of_nat j * 16]) <$> seq k n)
           (λ id, body id (seek i1 id) (seek i2 id) (seek i3 id)) mem
  = (Ok tt,
     <[l3 := with_buffer T3
        (splice (buffer T3) (Z.to_nat (it_first i3 + s) + 16 * k)
           (zip_with f
              (take (16 * n) (drop (Z.to_nat (it_first i1 + s) + 16 * k) (buffer T1)))
              (take (16 * n) (drop (Z.to_nat (it_first i2 + s) + 16 * k) (buffer T2)))))]> mem).
Proof.
  induction n as [|n IH]; intros k mem T3 M1 M2 M3 P1 P2 P3 B1 B2 B3.
  - simpl. rewrite splice_nil, with_buffer_id. by rewrite insert_id.
  - change (seq k (S n)) with (k :: seq (S k) n).
    rewrite fmap_cons. cbn [for_each].
    set (x := s + Z.of_nat k * 16).
    assert (O1 : it_offset (seek i1 [x]) = it_first i1 + x) by by eapply seek_row.
    assert (O2 : it_offset (seek i2 [x]) = it_first i2 + x) by by eapply seek_row.
    assert (O3 : it_offset (seek i3 [x]) = it_first i3 + x) by by eapply seek_row.
    erewrite bind_ok; last first.
    { eapply (Hbody [x] (seek i1 [x]) (seek i2 [x]) (seek i3 [x]) mem l1 l2 l3 T1 T2 T3);
        try done; rewrite ?O1, ?O2, ?O3; apply in_bounds_spec; subst x; lia. }
    rewrite O1, O2, O3.
    set (T3' := elementwise_step f T1 T2 T3 _ _ _).
    assert (Hlen : length (buffer T3') = length (buffer T3)).
    { subst T3'. unfold elementwise_step. simpl.
      rewrite length_splice; [done|].
      rewrite length_zip_with_l_eq; rewrite !length_take, !length_drop; subst x; lia. }
    rewrite (IH (S k) _ T3'); rewrite ?lookup_insert_ne by done;
      rewrite ?lookup_insert_eq; try done; try lia.
    rewrite insert_insert_eq. do 2 f_equal.
    subst T3'. unfold elementwise_step, with_buffer. simpl. f_equal.
    replace (Z.to_nat (it_first i3 + x)) with (Z.to_nat (it_first i3 + s) + 16 * k)%nat
      by (subst x; lia).
    replace (Z.to_nat (it_first i1 + x)) with (Z.to_nat (it_first i1 + s) + 16 * k)%nat
      by (subst x; lia).
    replace (Z.to_nat (it_first i2 + x)) with (Z.to_nat (it_first i2 + s) + 16 * k)%nat
      by (subst x; lia).
    set (p3 := (Z.to_nat (it_first i3 + s) + 16 * k)%nat).
    set (p1 := (Z.to_nat (it_first i1 + s) + 16 * k)%nat).
    set (p2 := (Z.to_nat (it_first i2 + s) + 16 * k)%nat).
    replace (Z.to_nat (it_first i3 + s) + 16 * S k)%nat with (p3 + 16)%nat by lia.
    replace (Z.to_nat (it_first i1 + s) + 16 * S k)%nat with (p1 + 16)%nat by lia.
    replace (Z.to_nat (it_first i2 + s) + 16 * S k)%nat with (p2 + 16)%nat by lia.
    rewrite <- !drop_drop.
    replace (16 * S n)%nat with (16 + 16 * n)%nat by lia.
    rewrite <- (zip_with_take_chunks f _ _ 16 (16 * n))
      by (rewrite length_drop; lia).
    set (u := zip_with f (take 16 _) (take 16 _)).
    assert (Hu : length u = 16%nat).
    { subst u. rewrite length_zip_with_l_eq; rewrite !length_take, !length_drop; lia. }
    rewrite <- Hu at 1. apply splice_app.
    rewrite Hu, length_zip_with_l_eq; rewrite !length_take, !length_drop; lia.
Qed.
End RowLoop.

Section KernelRow.
Local Arguments Nat.mul : simpl never.
Local Arguments Z.mul : simpl never.
Local Arguments Z.of_nat : simpl never.

Lemma Iterator_new_ok (mem : Memory) l T w :
  mem !! l = Some T →
  Iterator_new (Some l) w mem
  = (Ok {| it_tensor := Some l;
           it_strides := strides (info T);
           it_first := offset_first_element (info T);
           it_offset := (offset_first_element (info T)
                         + dot (d_start <$> w) (strides (info T)))%Z |}, mem).
Proof.
  intros Hl. unfold Iterator_new.
  by rewrite (bind_ok _ _ _ _ _ (deref_ok _ _ _ Hl)).
Qed.

(** A compute function of the common form (three iterators, one loop)
    whose body applies [f] lane by lane subtracts the whole row. *)
Lemma kernel_row f body (mem : Memory) l1 l2 l3 T1 T2 T3 s n :
  body_spec f body →
  mem !! l1 = Some T1 → mem !! l2 = Some T2 → mem !! l3 = Some T3 →
  l3 ≠ l1 → l3 ≠ l2 →
  covers_row T1 s (16 * n) → covers_row T2 s (16 * n) → covers_row T3 s (16 * n) →
  (input1 ← Iterator_new (Some l1) (row_window s n);
   input2 ← Iterator_new (Some l2) (row_window s n);
   output ← Iterator_new (Some l3) (row_window s n);
   execute_window_loop (row_window s n) body input1 input2 output) mem
  = (Ok tt, <[l3 := elementwise_row f T1 T2 T3 s (16 * n)]> mem).
Proof.
  intros Hbody M1 M2 M3 Hl1 Hl2 (S1 & P1 & B1) (S2 & P2 & B2) (S3 & P3 & B3).
  rewrite (bind_ok _ _ _ _ _ (Iterator_new_ok _ _ _ _ M1)).
  rewrite (bind_ok _ _ _ _ _ (Iterator_new_ok _ _ _ _ M2)).
  rewrite (bind_ok _ _ _ _ _ (Iterator_new_ok _ _ _ _ M3)).
  unfold execute_window_loop. rewrite window_positions_row.
  destruct (strides (info T1)) as [|? r1] eqn:E1; simplify_eq/=.
  destruct (strides (info T2)) as [|? r2] eqn:E2; simplify_eq/=.
  destruct (strides (info T3)) as [|? r3] eqn:E3; simplify_eq/=.
  erewrite (for_each_row f body Hbody l1 l2 l3 Hl1 Hl2)
    with (n := n) (k := 0%nat) (T1 := T1) (T2 := T2) (T3 := T3)
         (r1 := r1) (r2 := r2) (r3 := r3);
    [|simpl; try done; try lia..].
  simpl. unfold elementwise_row. by rewrite !Nat.add_0_r.
Qed.

Context `{Build}.

(** Every compute function, called on one row of three tensors that do
    not share the output, leaves the lane-wise result of its operation in
    the output.  The half-float function needs the build to support it. *)
Lemma call_row (fn : SubFunction) (mem : Memory) l1 l2 l3 T1 T2 T3 s n :
  (fn = fn_sub_F16_F16_F16 → ARM_COMPUTE_ENABLE_FP16 = true) →
  mem !! l1 = Some T1 → mem !! l2 = Some T2 → mem !! l3 = Some T3 →
  l3 ≠ l1 → l3 ≠ l2 →
  covers_row T1 s (16 * n) → covers_row T2 s (16 * n) → covers_row T3 s (16 * n) →
  call fn (Some l1) (Some l2) (Some l3) (row_window s n) mem
  = (Ok tt, <[l3 := elementwise_row (lane_op fn) T1 T2 T3 s (16 * n)]> mem).
Proof.
  intros Hfp M1 M2 M3 Hl1 Hl2 C1 C2 C3.
  destruct fn; cbn [call lane_op].
  - by apply kernel_row; [apply body_spec_contiguous|..].
  - by apply kernel_row; [apply body_spec_contiguous|..].
  - by apply kernel_row; [apply body_spec_contiguous|..].
  - by apply kernel_row; [apply body_spec_contiguous|..].
  - by apply kernel_row; [apply body_spec_interleaved2|..].
  - by apply kernel_row; [apply body_spec_interleaved2|..].
  - unfold sub_F16_F16_F16. rewrite Hfp by done.
    by apply kernel_row; [apply body_spec_interleaved2_f16|..].
  - by apply kernel_row; [apply body_spec_interleaved4|..].
  - by apply kernel_row; [apply (body_spec_widen_second (λ x y, Lane.wrap_s 16 (x - y)))|..].
  - by apply kernel_row; [apply (body_spec_widen_second (λ x y, Lane.sat_s 16 (x - y)))|..].
  - by apply kernel_row; [apply (body_spec_widen_first (λ x y, Lane.wrap_s 16 (x - y)))|..].
  - by apply kernel_row; [apply (body_spec_widen_first (λ x y, Lane.sat_s 16 (x - y)))|..].
  - by apply kernel_row; [apply (body_spec_widen_both (λ x y, Lane.wrap_s 16 (x - y)))|..].
  - by apply kernel_row; [apply (body_spec_widen_both (λ x y, Lane.sat_s 16 (x - y)))|..].
Qed.
End KernelRow.

(** ** Results lane by lane *)

Section Lanes.
Context `{Build}.
Local Arguments Nat.mul : simpl never.
Local Arguments Z.of_nat : simpl never.

(** The element written at position [i] of the row is the lane operation
    of the function applied to the elements at position [i] of the
    inputs. *)
Lemma output_lane_row (fn : SubFunction) (mem : Memory) l1 l2 l3 T1 T2 T3 s n i a b :
  (fn = fn_sub_F16_F16_F16 → ARM_COMPUTE_ENABLE_FP16 = true) →
  mem !! l1 = Some T1 → mem !! l2 = Some T2 → mem !! l3 = Some T3 →
  l3 ≠ l1 → l3 ≠ l2 →
  covers_row T1 s (16 * n) → covers_row T2 s (16 * n) → covers_row T3 s (16 * n) →
  i < 16 * n →
  buffer T1 !! (Z.to_nat (offset_first_element (info T1) + s) + i) = Some a →
  buffer T2 !! (Z.to_nat (offset_first_element (info T2) + s) + i) = Some b →
  output_lane (call fn (Some l1) (Some l2) (Some l3) (row_window s n) mem) l3
              (Z.to_nat (offset_first_element (info T3) + s) + i)
  = Some (lane_op fn a b).
Proof.
  intros Hfp M1 M2 M3 Hl1 Hl2 C1 C2 C3 Hi Ha Hb.
  rewrite (call_row fn mem l1 l2 l3 T1 T2 T3) by done.
  unfold output_lane. rewrite lookup_insert_eq. simpl.
  destruct C1 as (_ & ? & ?), C2 as (_ & ? & ?), C3 as (_ & ? & ?).
  assert (Hlen : length (zip_with (lane_op fn)
            (take (16 * n) (drop (Z.to_nat (offset_first_element (info T1) + s)) (buffer T1)))
            (take (16 * n) (drop (Z.to_nat (offset_first_element (info T2) + s)) (buffer T2))))
          = 16 * n).
  { rewrite length_zip_with_l_eq; rewrite !length_take, !length_drop; lia. }
  rewrite lookup_splice_in by (rewrite ?Hlen; lia).
  rewrite lookup_zip_with, !lookup_take_lt, !lookup_drop by done.
  by rewrite Ha, Hb.
Qed.
End Lanes.

(** ** Wrap and saturate on the integer types *)

Section WrapSaturate.
Context `{Build}.
Import Lane LaneFacts.
Local Open Scope Z_scope.

(** The three regimes of a difference [d] against the range of a signed
    or unsigned type, for the two lane operations. *)
Lemma wrap_sat_regimes (dt : DataType) (fw fs : SubFunction) (a b : Z) :
  dt ∈ integer_types →
  map_function !! function_to_call WRAP dt dt dt = Some fw →
  map_function !! function_to_call SATURATE dt dt dt = Some fs →
  representable dt a → representable dt b →
  (representable dt (a - b) → lane_op fw a b = a - b ∧ lane_op fs a b = a - b)
  ∧ (a - b < type_min dt →
       lane_op fw a b = a - b + 2 ^ type_bits dt ∧ lane_op fs a b = type_min dt)
  ∧ (type_max dt < a - b →
       lane_op fw a b = a - b - 2 ^ type_bits dt ∧ lane_op fs a b = type_max dt).
Proof.
  intros Hdt Hw Hs Ha Hb. unfold integer_types in Hdt.
  repeat (apply elem_of_cons in Hdt as [->|Hdt]); [..|by apply elem_of_nil in Hdt];
    vm_compute in Hw; vm_compute in Hs; simplify_eq;
    unfold representable in *; cbn [type_min type_max type_bits lane_op] in *.
  - (* U8 *)
    split; [|split]; intros Hd.
    + rewrite wrap_u_exact, sat_u_exact by (unfold in_u; lia). done.
    + rewrite wrap_u_below, sat_u_below by lia. done.
    + lia.
  - (* QS8 *)
    split; [|split]; intros Hd.
    + rewrite wrap_s_exact, sat_s_exact by (unfold in_s; simpl; lia). done.
    + rewrite wrap_s_below, sat_s_below by (simpl; lia). done.
    + rewrite wrap_s_above, sat_s_above by (simpl; lia). done.
  - (* S16 *)
    split; [|split]; intros Hd.
    + rewrite wrap_s_exact, sat_s_exact by (unfold in_s; simpl; lia). done.
    + rewrite wrap_s_below, sat_s_below by (simpl; lia). done.
    + rewrite wrap_s_above, sat_s_above by (simpl; lia). done.
  - (* QS16 *)
    split; [|split]; intros Hd.
    + rewrite wrap_s_exact, sat_s_exact by (unfold in_s; simpl; lia). done.
    + rewrite wrap_s_below, sat_s_below by (simpl; lia). done.
    + rewrite wrap_s_above, sat_s_above by (simpl; lia). done.
Qed.
End WrapSaturate.

Section WrapSaturateBoundary.
Context `{Build}.
Local Open Scope Z_scope.

(** C1.  For the integer element types U8, QS8, S16 and QS16, take the two
    functions the dispatch table holds for the WRAP and the SATURATE policy
    and run each over a row.  At every position of the row, with [a] and
    [b] the representable operands found there: if [a - b] is representable
    both functions store [a - b]; if it is below the range WRAP stores
    [a - b + 2^bits] and SATURATE the minimum of the type; if it is above
    the range WRAP stores [a - b - 2^bits] and SATURATE the maximum. *)
Theorem wrap_saturate_boundary
    (dt : DataType) (fw fs : SubFunction) (mem : Memory)
    (l1 l2 l3 : loc) (T1 T2 T3 : ITensor) (s : Z) (n i : nat) (a b : Z) :
  dt ∈ integer_types →
  map_function !! function_to_call WRAP dt dt dt = Some fw →
  map_function !! function_to_call SATURATE dt dt dt = Some fs →
  mem !! l1 = Some T1 → mem !! l2 = Some T2 → mem !! l3 = Some T3 →
  l3 ≠ l1 → l3 ≠ l2 →
  covers_row T1 s (16 * n) → covers_row T2 s (16 * n) → covers_row T3 s (16 * n) →
  (i < 16 * n)%nat →
  buffer T1 !! (Z.to_nat (offset_first_element (info T1) + s) + i)%nat = Some a →
  buffer T2 !! (Z.to_nat (offset_first_element (info T2) + s) + i)%nat = Some b →
  representable dt a → representable dt b →
  let at_i := (Z.to_nat (offset_first_element (info T3) + s) + i)%nat in
  let wrapped :=
    output_lane (call fw (Some l1) (Some l2) (Some l3) (row_window s n) mem) l3 at_i in
  let saturated :=
    output_lane (call fs (Some l1) (Some l2) (Some l3) (row_window s n) mem) l3 at_i in
  (representable dt (a - b) → wrapped = Some (a - b) ∧ saturated = Some (a - b))
  ∧ (a - b < type_min dt →
       wrapped = Some (a - b + 2 ^ type_bits dt) ∧ saturated = Some (type_min dt))
  ∧ (type_max dt < a - b →
       wrapped = Some (a - b - 2 ^ type_bits dt) ∧ saturated = Some (type_max dt)).
Proof.
  intros Hdt Hw Hs M1 M2 M3 Hl1 Hl2 C1 C2 C3 Hi Ha Hb Ra Rb at_i wrapped saturated.
  assert (Hfw : fw ≠ fn_sub_F16_F16_F16).
  { intros ->. unfold integer_types in Hdt.
    repeat (apply elem_of_cons in Hdt as [->|Hdt]); [..|by apply elem_of_nil in Hdt];
      vm_compute in Hw; discriminate. }
  assert (Hfs : fs ≠ fn_sub_F16_F16_F16).
  { intros ->. unfold integer_types in Hdt.
    repeat (apply elem_of_cons in Hdt as [->|Hdt]); [..|by apply elem_of_nil in Hdt];
      vm_compute in Hs; discriminate. }
  subst wrapped saturated at_i.
  rewrite (output_lane_row fw mem l1 l2 l3 T1 T2 T3 s n i a b) by done.
  rewrite (output_lane_row fs mem l1 l2 l3 T1 T2 T3 s n i a b) by done.
  destruct (wrap_sat_regimes dt fw fs a b Hdt Hw Hs Ra Rb) as (Hin & Hlo & Hhi).
  split; [|split]; intros Hd.
  - by destruct (Hin Hd) as [-> ->].
  - by destruct (Hlo Hd) as [-> ->].
  - by destruct (Hhi Hd) as [-> ->].
Qed.
End WrapSaturateBoundary.

(** Side conditions of the statements at concrete inputs. *)
Ltac concrete :=
  solve
    [ reflexivity
    | vm_compute; reflexivity
    | lia
    | discriminate
    | unfold representable; simpl; lia
    | unfold covers_row; simpl; repeat split; lia
    | unfold integer_types; set_solver ].

(** At 10 - 250 on unsigned 8-bit elements WRAP yields 16 and SATURATE 0. *)
Lemma wrap_saturate_boundary_witness :
  let mem := memory_of (tensor_1d U8 (replicate 16 10%Z))
                       (tensor_1d U8 (replicate 16 250%Z))
                       (tensor_1d U8 (replicate 16 0%Z)) in
  output_lane (call (H := build_without_fp16) fn_sub_wrap_U8_U8_U8
                 (Some 1) (Some 2) (Some 3) (row_window 0 1) mem) 3 0 = Some 16%Z
  ∧ output_lane (call (H := build_without_fp16) fn_sub_saturate_U8_U8_U8
                   (Some 1) (Some 2) (Some 3) (row_window 0 1) mem) 3 0 = Some 0%Z.
Proof.
  intros mem.
  refine (proj1 (proj2
    (@wrap_saturate_boundary build_without_fp16 U8
       fn_sub_wrap_U8_U8_U8 fn_sub_saturate_U8_U8_U8 mem 1 2 3
       (tensor_1d U8 (replicate 16 10%Z)) (tensor_1d U8 (replicate 16 250%Z))
       (tensor_1d U8 (replicate 16 0%Z)) 0 1 0 10 250
       _ _ _ _ _ _ _ _ _ _ _ _ _ _ _ _)) _); concrete.
Defined.

(** ** Mixed-width subtraction in the two operand orders *)

Section MixedWidth.
Context `{Build}.
Import Lane LaneFacts.
Local Open Scope Z_scope.

Lemma widen_u8 x : representable U8 x → wrap_s 16 x = x.
Proof.
  unfold representable. simpl. intros. apply wrap_s_exact; [lia|].
  unfold in_s. simpl. lia.
Qed.

(** The lanes of [U8 - S16] and of [S16 - U8] against each other. *)
Lemma mixed_lanes (policy : ConvertPolicy) (f_us f_su : SubFunction) (x y : Z) :
  map_function !! function_to_call policy U8 S16 S16 = Some f_us →
  map_function !! function_to_call policy S16 U8 S16 = Some f_su →
  representable U8 x → representable S16 y →
  lane_op f_us x y = negate_under policy (lane_op f_su y x)
  ∧ (lane_op f_us x y = - lane_op f_su y x
     ↔ match policy with
       | WRAP => y - x ≠ -32768
       | SATURATE => -32767 ≤ y - x
       end).
Proof.
  intros Hus Hsu Rx Ry. pose proof (widen_u8 x Rx) as Hx.
  unfold representable in Rx, Ry. simpl in Rx, Ry.
  destruct policy; vm_compute in Hus; vm_compute in Hsu; simplify_eq;
    cbn [lane_op negate_under]; rewrite Hx.
  - (* WRAP *)
    destruct (decide (y - x < -32768)) as [Hlow|Hlow];
      [|destruct (decide (y - x = -32768)) as [Heq|Hne]].
    + rewrite (wrap_s_above 16 (x - y)), (wrap_s_below 16 (y - x)) by (simpl; lia).
      rewrite wrap_s_exact by (unfold in_s; simpl; lia).
      simpl. lia.
    + rewrite (wrap_s_above 16 (x - y)) by (simpl; lia).
      rewrite (wrap_s_exact 16 (y - x)) by (unfold in_s; simpl; lia).
      rewrite wrap_s_above by (simpl; lia).
      simpl. lia.
    + rewrite (wrap_s_exact 16 (x - y)), (wrap_s_exact 16 (y - x))
        by (unfold in_s; simpl; lia).
      rewrite wrap_s_exact by (unfold in_s; simpl; lia). lia.
  - (* SATURATE *)
    destruct (decide (y - x < -32768)) as [Hlow|Hlow];
      [|destruct (decide (y - x = -32768)) as [Heq|Hne]].
    + rewrite (sat_s_above 16 (x - y)), (sat_s_below 16 (y - x)) by (simpl; lia).
      rewrite sat_s_above by (simpl; lia).
      simpl. lia.
    + rewrite (sat_s_above 16 (x - y)) by (simpl; lia).
      rewrite (sat_s_exact 16 (y - x)) by (unfold in_s; simpl; lia).
      rewrite sat_s_above by (simpl; lia).
      simpl. lia.
    + rewrite (sat_s_exact 16 (x - y)), (sat_s_exact 16 (y - x))
        by (unfold in_s; simpl; lia).
      rewrite sat_s_exact by (unfold in_s; simpl; lia). lia.
Qed.

(** C3, amended.  Run the function for [U8 - S16] on (tensor u, tensor s)
    and the function for [S16 - U8] on (tensor s, tensor u), under the same
    policy.  At every position, with [x] the unsigned 8-bit and [y] the signed
    16-bit element found there, the first result is the negation of the
    second brought back to 16 bits by the policy; it is the plain arithmetic
    negation exactly when [y - x] is not -32768 (WRAP), respectively when
    [y - x] is at least -32767 (SATURATE). *)
Theorem mixed_width_negation
    (policy : ConvertPolicy) (f_us f_su : SubFunction) (mem : Memory)
    (lu ls lo : loc) (Tu Ts To : ITensor) (s : Z) (n i : nat) (x y : Z) :
  map_function !! function_to_call policy U8 S16 S16 = Some f_us →
  map_function !! function_to_call policy S16 U8 S16 = Some f_su →
  mem !! lu = Some Tu → mem !! ls = Some Ts → mem !! lo = Some To →
  lo ≠ lu → lo ≠ ls →
  covers_row Tu s (16 * n) → covers_row Ts s (16 * n) → covers_row To s (16 * n) →
  (i < 16 * n)%nat →
  buffer Tu !! (Z.to_nat (offset_first_element (info Tu) + s) + i)%nat = Some x →
  buffer Ts !! (Z.to_nat (offset_first_element (info Ts) + s) + i)%nat = Some y →
  representable U8 x → representable S16 y →
  let at_i := (Z.to_nat (offset_first_element (info To) + s) + i)%nat in
  ∃ r_us r_su : Z,
    output_lane (call f_us (Some lu) (Some ls) (Some lo) (row_window s n) mem) lo at_i
    = Some r_us
    ∧ output_lane (call f_su (Some ls) (Some lu) (Some lo) (row_window s n) mem) lo at_i
      = Some r_su
    ∧ r_us = negate_under policy r_su
    ∧ (r_us = - r_su
       ↔ match policy with
         | WRAP => y - x ≠ -32768
         | SATURATE => -32767 ≤ y - x
         end).
Proof.
  intros Hus Hsu Mu Ms Mo Hlu Hls Cu Cs Co Hi Hx Hy Rx Ry at_i.
  assert (Hf1 : f_us ≠ fn_sub_F16_F16_F16).
  { intros ->. destruct policy; vm_compute in Hus; discriminate. }
  assert (Hf2 : f_su ≠ fn_sub_F16_F16_F16).
  { intros ->. destruct policy; vm_compute in Hsu; discriminate. }
  exists (lane_op f_us x y), (lane_op f_su y x). subst at_i.
  split; [|split].
  - by apply (output_lane_row f_us mem lu ls lo Tu Ts To).
  - by apply (output_lane_row f_su mem ls lu lo Ts Tu To).
  - by apply mixed_lanes.
Qed.
End MixedWidth.

(** With unsigned 0 and signed -32768 under SATURATE the two results are
    32767 and -32768, related as the amended statement says. *)
Lemma mixed_width_negation_witness :
  let mem := memory_of (tensor_1d U8 (replicate 16 0%Z))
                       (tensor_1d S16 (replicate 16 (-32768)%Z))
                       (tensor_1d S16 (replicate 16 0%Z)) in
  ∃ r_us r_su : Z,
    output_lane (call (H := build_without_fp16) fn_sub_saturate_U8_S16_S16
                   (Some 1) (Some 2) (Some 3) (row_window 0 1) mem) 3 0 = Some r_us
    ∧ output_lane (call (H := build_without_fp16) fn_sub_saturate_S16_U8_S16
                     (Some 2) (Some 1) (Some 3) (row_window 0 1) mem) 3 0 = Some r_su
    ∧ r_us = negate_under SATURATE r_su
    ∧ (r_us = (- r_su)%Z ↔ (-32767 ≤ -32768 - 0)%Z).
Proof.
  intros mem.
  refine (@mixed_width_negation build_without_fp16 SATURATE
            fn_sub_saturate_U8_S16_S16 fn_sub_saturate_S16_U8_S16 mem 1 2 3
            (tensor_1d U8 (replicate 16 0%Z)) (tensor_1d S16 (replicate 16 (-32768)%Z))
            (tensor_1d S16 (replicate 16 0%Z)) 0 1 0 0 (-32768)
            _ _ _ _ _ _ _ _ _ _ _ _ _ _ _); concrete.
Defined.

(** C3 as stated fails: under SATURATE, unsigned 0 minus signed -32768 is
    32767, while signed -32768 minus unsigned 0 is -32768, whose negation is
    32768. *)
Lemma mixed_width_negation_counterexample :
  let mem := memory_of (tensor_1d U8 (replicate 16 0%Z))
                       (tensor_1d S16 (replicate 16 (-32768)%Z))
                       (tensor_1d S16 (replicate 16 0%Z)) in
  output_lane (sub_saturate_U8_S16_S16 (Some 1) (Some 2) (Some 3) (row_window 0 1) mem) 3 0
  = Some 32767%Z
  ∧ output_lane (sub_saturate_S16_U8_S16 (Some 2) (Some 1) (Some 3) (row_window 0 1) mem) 3 0
    = Some (-32768)%Z
  ∧ 32767%Z ≠ (- -32768)%Z.
Proof. vm_compute. by repeat split. Qed.

(** ** The example scenario *)

Section Example.
Context `{Build}.

(** C4.  With inputs of sixteen unsigned 8-bit elements, all 10 and all 250,
    whatever the output buffer held before: configured with SATURATE and an
    unsigned 8-bit output, a run over the sixteen-element window leaves all
    0; configured with either policy and a signed 16-bit output it leaves all
    -240. *)
Theorem example_10_minus_250 (o : list Z) :
  length o = 16 →
  output_buffer ((configure (Some 1) (Some 2) (Some 3) SATURATE;; run window_16)
                   (example_state U8 o)) 3
  = Some (replicate 16 0%Z)
  ∧ ∀ policy,
      output_buffer ((configure (Some 1) (Some 2) (Some 3) policy;; run window_16)
                       (example_state S16 o)) 3
      = Some (replicate 16 (-240)%Z).
Proof.
  intros Ho.
  do 17 (destruct o as [|? o]; try discriminate Ho).
  split; [|intros []]; vm_compute; reflexivity.
Qed.
End Example.

Lemma example_10_minus_250_witness :
  output_buffer ((configure (Some 1) (Some 2) (Some 3) SATURATE;;
                  run (H := build_without_fp16) window_16)
                   (example_state U8 (replicate 16 7%Z))) 3
  = Some (replicate 16 0%Z)
  ∧ ∀ policy,
      output_buffer ((configure (Some 1) (Some 2) (Some 3) policy;;
                      run (H := build_without_fp16) window_16)
                       (example_state S16 (replicate 16 7%Z))) 3
      = Some (replicate 16 (-240)%Z).
Proof.
  apply (@example_10_minus_250 build_without_fp16 (replicate 16 7%Z)).
  reflexivity.
Defined.

(** ** Steps of [configure] and the relations they keep *)

Section Preserves.
Variable R : State → State → Prop.
Hypothesis R_refl : ∀ s, R s s.
Hypothesis R_trans : ∀ s1 s2 s3, R s1 s2 → R s2 s3 → R s1 s3.

Lemma preserves_ret {A} (a : A) : preserves R (mret a).
Proof. intros s r s' [= <- <-]. apply R_refl. Qed.

Lemma preserves_throw {A} (e : Error) : preserves R (throw e : M State A).
Proof. intros s r s' [= <- <-]. apply R_refl. Qed.

Lemma preserves_bind {A B} (m : M State A) (f : A → M State B) :
  preserves R m → (∀ a, preserves R (f a)) → preserves R (m ≫= f).
Proof.
  intros Hm Hf s r s'. unfold mbind, M_bind.
  destruct (m s) as [[a|e] s1] eqn:E.
  - intros Hfa. eapply R_trans; [by eapply Hm|by eapply Hf].
  - intros [= <- <-]. by eapply Hm.
Qed.

Lemma preserves_error_on (c : bool) (e : Error) : preserves R (error_on c e).
Proof. destruct c; [apply preserves_throw|apply preserves_ret]. Qed.

Lemma preserves_ignore {A} (m : M State A) : preserves R m → preserves R (ignore m).
Proof. intros Hm. apply preserves_bind; [done|]. intros _. apply preserves_ret. Qed.

Lemma preserves_for_each {A} (l : list A) (f : A → M State unit) :
  (∀ a, preserves R (f a)) → preserves R (for_each l f).
Proof.
  intros Hf. induction l as [|a l IH]; simpl.
  - apply preserves_ret.
  - apply preserves_bind; [apply Hf|]. by intros _.
Qed.

Lemma preserves_get_info (p : ITensorPtr) : preserves R (get_info p).
Proof.
  intros s r s'. unfold get_info, lift_mem, deref, mbind, M_bind.
  destruct p as [l|]; [destruct (mem s !! l)|]; simpl;
    intros [= <- <-]; destruct s; apply R_refl.
Qed.
End Preserves.

Section SteadyFacts.
Implicit Types (s : State) (T : ITensor).

Lemma tensor_steady_refl T : tensor_steady T T.
Proof. by repeat split. Qed.

Lemma tensor_steady_trans T1 T2 T3 :
  tensor_steady T1 T2 → tensor_steady T2 T3 → tensor_steady T1 T3.
Proof.
  intros (B1 & S1 & O1 & F1 & D1) (B2 & S2 & O2 & F2 & D2).
  repeat split; try congruence.
  intros Hd. rewrite D2; rewrite D1; done.
Qed.

Lemma mem_steady_refl s : mem_steady s s.
Proof. intros l T Hl. exists T. split; [done|apply tensor_steady_refl]. Qed.

Lemma mem_steady_trans s1 s2 s3 : mem_steady s1 s2 → mem_steady s2 s3 → mem_steady s1 s3.
Proof.
  intros H12 H23 l T Hl.
  destruct (H12 l T Hl) as (T2 & Hl2 & St2).
  destruct (H23 l T2 Hl2) as (T3 & Hl3 & St3).
  exists T3. split; [done|by eapply tensor_steady_trans].
Qed.

Lemma steady_refl s : steady s s.
Proof. split; [done|apply mem_steady_refl]. Qed.

Lemma steady_trans s1 s2 s3 : steady s1 s2 → steady s2 s3 → steady s1 s3.
Proof.
  intros [K1 M1] [K2 M2]. split; [congruence|by eapply mem_steady_trans].
Qed.

Lemma mem_steady_allocated s s' p : mem_steady s s' → allocated p s → allocated p s'.
Proof.
  intros Hs (l & T & -> & Hl). destruct (Hs l T Hl) as (T' & Hl' & _).
  by exists l, T'.
Qed.

Lemma get_info_ok s l T : mem s !! l = Some T → get_info (Some l) s = (Ok (info T), s).
Proof.
  intros Hl. unfold get_info, lift_mem, mbind, M_bind. simpl. rewrite Hl.
  by destruct s.
Qed.

Lemma get_info_inv s p ti s' :
  get_info p s = (Ok ti, s') → s' = s ∧ ∃ l T, p = Some l ∧ mem s !! l = Some T ∧ ti = info T.
Proof.
  unfold get_info, lift_mem, deref, mbind, M_bind.
  destruct p as [l|]; [destruct (mem s !! l) as [T|] eqn:E|]; simpl; intros [= <- <-].
  split; [by destruct s|by exists l, T].
Qed.

Lemma get_info_allocated s p : allocated p s → ∃ ti, get_info p s = (Ok ti, s).
Proof. intros (l & T & -> & Hl). exists (info T). by apply get_info_ok. Qed.

Lemma set_info_ok s l T ti :
  mem s !! l = Some T → set_info (Some l) ti s = (Ok tt, set_tensor_info s l T ti).
Proof.
  intros Hl. unfold set_info, lift_mem, mbind, M_bind. simpl. by rewrite Hl.
Qed.

(** Replacing the metadata of a tensor by one that keeps layout, position and
    a set type keeps the memory steady. *)
Lemma set_tensor_info_steady s l T ti :
  mem s !! l = Some T → tensor_steady T (with_info T ti) →
  steady s (set_tensor_info s l T ti).
Proof.
  intros Hl St. split; [done|]. intros l' T' Hl'. simpl.
  destruct (decide (l = l')) as [<-|Hne].
  - rewrite lookup_insert_eq. simplify_eq. eauto.
  - rewrite lookup_insert_ne by done. exists T'. split; [done|apply tensor_steady_refl].
Qed.

(** The four ways [configure] rewrites the metadata of a tensor. *)
Lemma set_info_steady (p : ITensorPtr) (ti : TensorInfo) (g : TensorInfo → TensorInfo) s r s' :
  get_info p s = (Ok ti, s) → keeps g ti →
  set_info p (g ti) s = (r, s') → steady s s'.
Proof.
  intros Hg Hkeep Hset.
  apply get_info_inv in Hg as (_ & l & T & -> & Hl & ->).
  rewrite (set_info_ok _ _ _ _ Hl) in Hset. simplify_eq.
  apply set_tensor_info_steady; [done|]. by split.
Qed.
End SteadyFacts.

Section Coarser.
Variable R : State → State → Prop.
Hypothesis R_refl : ∀ s, R s s.
Hypothesis R_trans : ∀ s1 s2 s3, R s1 s2 → R s2 s3 → R s1 s3.
Hypothesis R_steady : ∀ s s', steady s s' → R s s'.

(** After [get_info p], the rest runs in the same state and may use what was
    read. *)
Lemma preserves_get_info_bind {B} (p : ITensorPtr) (f : TensorInfo → M State B) :
  (∀ ti s r s', get_info p s = (Ok ti, s) → f ti s = (r, s') → R s s') →
  preserves R (get_info p ≫= f).
Proof.
  intros Hf s r s'. unfold mbind, M_bind.
  destruct (get_info p s) as [[ti|e] s1] eqn:E.
  - destruct (get_info_inv _ _ _ _ E) as [-> _]. by apply Hf.
  - intros [= <- <-]. by eapply (preserves_get_info R R_refl).
Qed.

Lemma preserves_set_info_bind {B} (p : ITensorPtr) (ti : TensorInfo)
    (g : TensorInfo → TensorInfo) (k : unit → M State B) s r s' :
  get_info p s = (Ok ti, s) → keeps g ti → (∀ u, preserves R (k u)) →
  (set_info p (g ti) ≫= k) s = (r, s') → R s s'.
Proof.
  intros Hget Hkeep Hk. unfold mbind, M_bind.
  destruct (set_info p (g ti) s) as [[u|e] s1] eqn:E.
  - intros Hku. eapply R_trans; [|by eapply Hk].
    by eapply R_steady, set_info_steady.
  - intros [= <- <-]. by eapply R_steady, set_info_steady.
Qed.

Lemma preserves_set_shape_if_empty (p : ITensorPtr) (sh : TensorShape) :
  preserves R (set_shape_if_empty p sh).
Proof.
  apply preserves_get_info_bind. intros ti s r s' Hget.
  case_bool_decide.
  - apply (preserves_set_info_bind p ti (λ ti, with_shape ti sh)); [done|by repeat split|].
    intros _. by apply preserves_ret.
  - by apply preserves_ret.
Qed.

Lemma preserves_set_format_if_unknown (p : ITensorPtr) (f : Format) :
  preserves R (set_format_if_unknown p f).
Proof.
  apply preserves_get_info_bind. intros ti s r s' Hget.
  case_bool_decide as Hdt.
  - apply (preserves_set_info_bind p ti (λ ti, with_data_type ti (data_type_from_format f) 1));
      [done|by repeat split|].
    intros _. by apply preserves_ret.
  - by apply preserves_ret.
Qed.

Lemma preserves_auto_initialize_output (input1 input2 output : ITensorPtr) :
  preserves R (auto_initialize_output input1 input2 output).
Proof.
  unfold auto_initialize_output.
  apply preserves_bind; [done|by apply preserves_get_info|]. intros i1.
  apply preserves_bind;
    [done|by apply preserves_ignore, preserves_set_shape_if_empty|]. intros _.
  apply preserves_bind; [done|by apply preserves_get_info|]. intros i1'.
  apply preserves_bind; [done|by apply preserves_get_info|]. intros i2.
  repeat case_match;
    by first [apply preserves_ignore, preserves_set_format_if_unknown
             |apply preserves_ret].
Qed.

Lemma preserves_update_window_and_padding (win : Window) (ps : list ITensorPtr) :
  preserves R (update_window_and_padding win ps).
Proof.
  apply preserves_for_each; [done..|]. intros p.
  apply preserves_get_info_bind. intros ti s r s' Hget Hset.
  apply (preserves_set_info_bind p ti (λ ti, with_padding_right ti (required_padding win ti))
           (λ _, mret tt) s r s'); [done|by repeat split|by intros; apply preserves_ret|].
  unfold mbind, M_bind. rewrite Hset. by destruct r as [[]|].
Qed.
End Coarser.

(** ** The parts of [configure] *)

(** Reduce a run of binds over reads of known tensors. *)
Ltac run_reads H1 H2 H3 :=
  unfold mbind, M_bind, mret, M_ret, throw;
  repeat (first [rewrite H1 | rewrite H2 | rewrite H3]; cbn beta iota).

Section ConfigureParts.
Implicit Types (s : State) (T : ITensor).

Lemma nullptr_check_spec (input1 input2 output : ITensorPtr) s :
  ARM_COMPUTE_ERROR_ON_NULLPTR [input1; input2; output] s
  = match input1, input2, output with
    | Some _, Some _, Some _ => (Ok tt, s)
    | _, _, _ => (Err InvalidArgument, s)
    end.
Proof.
  unfold ARM_COMPUTE_ERROR_ON_NULLPTR, error_on.
  destruct input1, input2, output; reflexivity.
Qed.

Lemma validate_arguments_spec s l1 l2 l3 T1 T2 T3 :
  mem s !! l1 = Some T1 → mem s !! l2 = Some T2 → mem s !! l3 = Some T3 →
  validate_arguments (Some l1) (Some l2) (Some l3) s
  = (match validation_error (info T1) (info T2) (info T3) with
     | Some e => Err e
     | None => Ok tt
     end, s).
Proof.
  intros M1 M2 M3.
  pose proof (get_info_ok _ _ _ M1) as G1.
  pose proof (get_info_ok _ _ _ M2) as G2.
  pose proof (get_info_ok _ _ _ M3) as G3.
  unfold validate_arguments, validation_error,
    ARM_COMPUTE_ERROR_ON_MISMATCHING_SHAPES, ARM_COMPUTE_ERROR_ON_DATA_TYPE_CHANNEL_NOT_IN,
    ARM_COMPUTE_ERROR_ON_MISMATCHING_FIXED_POINT, error_on.
  run_reads G1 G2 G3.
  destruct (negb (bool_decide (tensor_shape (info T1) = tensor_shape (info T2))
                  && bool_decide (tensor_shape (info T1) = tensor_shape (info T3)))); [done|].
  run_reads G1 G2 G3.
  destruct (negb (bool_decide (data_type (info T1) ∈ supported_types)
                  && bool_decide (num_channels (info T1) = 1%Z))); [done|].
  run_reads G1 G2 G3.
  destruct (negb (bool_decide (data_type (info T2) ∈ supported_types)
                  && bool_decide (num_channels (info T2) = 1%Z))); [done|].
  run_reads G1 G2 G3.
  destruct (negb (bool_decide (data_type (info T3) ∈ supported_types)
                  && bool_decide (num_channels (info T3) = 1%Z))); [done|].
  run_reads G1 G2 G3.
  destruct (bool_decide (data_type (info T3) = U8)
            && (negb (bool_decide (data_type (info T1) = U8))
                || negb (bool_decide (data_type (info T2) = U8)))); [done|].
  run_reads G1 G2 G3.
  destruct (is_data_type_fixed_point (data_type (info T1))
            || is_data_type_fixed_point (data_type (info T2))
            || is_data_type_fixed_point (data_type (info T3))); [|done].
  run_reads G1 G2 G3.
  by destruct (negb _).
Qed.

Lemma preserves_validate_arguments (input1 input2 output : ITensorPtr) :
  preserves unchanged (validate_arguments input1 input2 output).
Proof.
  assert (Hrefl : ∀ s, unchanged s s) by done.
  assert (Htrans : ∀ s1 s2 s3, unchanged s1 s2 → unchanged s2 s3 → unchanged s1 s3)
    by (unfold unchanged; congruence).
  unfold validate_arguments, ARM_COMPUTE_ERROR_ON_MISMATCHING_SHAPES,
    ARM_COMPUTE_ERROR_ON_DATA_TYPE_CHANNEL_NOT_IN, ARM_COMPUTE_ERROR_ON_MISMATCHING_FIXED_POINT.
  repeat first
    [ apply (preserves_bind _ Htrans)
    | apply (preserves_get_info _ Hrefl)
    | apply (preserves_error_on _ Hrefl)
    | apply (preserves_ret _ Hrefl)
    | match goal with |- preserves _ (if ?c then _ else _) => destruct c end
    | match goal with |- ∀ _, preserves _ _ => intro end ].
Qed.

(** The checks dereference the three handles: when they pass, the handles
    point to tensors. *)
Lemma validate_arguments_allocated (input1 input2 output : ITensorPtr) s s' :
  validate_arguments input1 input2 output s = (Ok tt, s') →
  s' = s ∧ allocated input1 s ∧ allocated input2 s ∧ allocated output s.
Proof.
  intros Hv. pose proof (preserves_validate_arguments _ _ _ _ _ _ Hv) as ->.
  split; [done|].
  unfold validate_arguments, ARM_COMPUTE_ERROR_ON_MISMATCHING_SHAPES in Hv.
  apply bind_inv_ok in Hv as (? & s1 & Hv & _).
  apply bind_inv_ok in Hv as (i1 & s2 & G1 & Hv).
  apply get_info_inv in G1 as (-> & l1 & T1 & -> & M1 & _).
  apply bind_inv_ok in Hv as (i2 & s3 & G2 & Hv).
  apply get_info_inv in G2 as (-> & l2 & T2 & -> & M2 & _).
  apply bind_inv_ok in Hv as (i3 & s4 & G3 & Hv).
  apply get_info_inv in G3 as (-> & l3 & T3 & -> & M3 & _).
  repeat split; eexists _, _; eauto.
Qed.
End ConfigureParts.

Section ResolveAndWindow.
Implicit Types (s : State) (T : ITensor).

Lemma resolve_function_spec s l1 l2 l3 T1 T2 T3 policy :
  mem s !! l1 = Some T1 → mem s !! l2 = Some T2 → mem s !! l3 = Some T3 →
  resolve_function (Some l1) (Some l2) (Some l3) policy s
  = match map_function !! function_to_call policy (data_type (info T1))
                            (data_type (info T2)) (data_type (info T3)) with
    | Some f =>
        (Ok tt, {| kernel := set_func f (set_handles (Some l1) (Some l2) (Some l3) (kernel s));
                   mem := mem s |})
    | None =>
        (Err InvalidTypeCombination,
         {| kernel := set_handles (Some l1) (Some l2) (Some l3) (kernel s); mem := mem s |})
    end.
Proof.
  intros M1 M2 M3. unfold resolve_function, modify_kernel.
  unfold mbind at 1. unfold M_bind at 1. cbn beta iota.
  set (s1 := {| kernel := set_handles (Some l1) (Some l2) (Some l3) (kernel s); mem := mem s |}).
  pose proof (get_info_ok s1 _ _ M1) as G1.
  pose proof (get_info_ok s1 _ _ M2) as G2.
  pose proof (get_info_ok s1 _ _ M3) as G3.
  run_reads G1 G2 G3.
  by destruct (map_function !! _).
Qed.

Lemma update_padding_ok (win : Window) (p : ITensorPtr) s :
  allocated p s →
  ∃ s', (ti ← get_info p; set_info p (with_padding_right ti (required_padding win ti))) s
        = (Ok tt, s')
        ∧ steady s s'.
Proof.
  intros (l & T & -> & Hl).
  rewrite (bind_ok _ _ _ _ _ (get_info_ok _ _ _ Hl)).
  rewrite (set_info_ok _ _ _ _ Hl). eexists. split; [done|].
  apply set_tensor_info_steady; [done|]. by repeat split.
Qed.

(** The computation of the window cannot fail once the three handles point
    to tensors; it records the maximal window of input1 and keeps the
    memory steady. *)
Lemma configure_window_ok (input1 input2 output : ITensorPtr) s l1 T1 :
  input1 = Some l1 → mem s !! l1 = Some T1 →
  allocated input2 s → allocated output s →
  ∃ s', configure_window input1 input2 output s = (Ok tt, s')
        ∧ kernel s'
          = with_window (calculate_max_window (info T1) num_elems_processed_per_iteration)
                        (kernel s)
        ∧ mem_steady s s'.
Proof.
  intros -> M1 A2 A3.
  assert (A1 : allocated (Some l1) s) by by exists l1, T1.
  unfold configure_window.
  rewrite (bind_ok _ _ _ _ _ (get_info_ok _ _ _ M1)).
  set (win := calculate_max_window (info T1) num_elems_processed_per_iteration).
  unfold update_window_and_padding. cbn [for_each].
  destruct (update_padding_ok win (Some l1) s A1) as (s1 & E1 & St1).
  assert (A2' := mem_steady_allocated _ _ _ (proj2 St1) A2).
  destruct (update_padding_ok win input2 s1 A2') as (s2 & E2 & St2).
  assert (A3' := mem_steady_allocated _ _ _ (proj2 St2)
                   (mem_steady_allocated _ _ _ (proj2 St1) A3)).
  destruct (update_padding_ok win output s2 A3') as (s3 & E3 & St3).
  assert (St : steady s s3) by (eapply steady_trans; [|done]; by eapply steady_trans).
  erewrite bind_ok; last first.
  { erewrite bind_ok; [|exact E1].
    erewrite bind_ok; [|exact E2].
    erewrite bind_ok; [|exact E3]. reflexivity. }
  destruct (get_info_allocated s3 (Some l1)
              (mem_steady_allocated _ _ _ (proj2 St) A1)) as (i1 & G1).
  destruct (get_info_allocated s3 input2
              (mem_steady_allocated _ _ _ (proj2 St) A2)) as (i2 & G2).
  pose proof (mem_steady_allocated _ _ _ (proj2 St) A3) as (l3 & T3 & -> & M3).
  rewrite (bind_ok _ _ _ _ _ G1), (bind_ok _ _ _ _ _ G2).
  rewrite (bind_ok _ _ _ _ _ (get_info_ok _ _ _ M3)).
  rewrite (bind_ok _ _ _ _ _ (set_info_ok _ _ _ _ M3)).
  eexists. split; [reflexivity|]. split.
  - simpl. by rewrite (proj1 St).
  - eapply mem_steady_trans; [exact (proj2 St)|].
    eapply mem_steady_trans; [|apply mem_steady_refl].
    apply (set_tensor_info_steady s3 l3 T3); [done|]. by repeat split.
Qed.
End ResolveAndWindow.

(** ** Auto-initialisation of the output *)

Section AutoInit.
Implicit Types (s : State) (T : ITensor).

Lemma with_info_id T : with_info T (info T) = T.
Proof. by destruct T. Qed.

Lemma set_tensor_info_id s l T : mem s !! l = Some T → set_tensor_info s l T (info T) = s.
Proof.
  intros Hl. unfold set_tensor_info. rewrite with_info_id, insert_id by done.
  by destruct s.
Qed.

Lemma set_tensor_info_twice s l T a b :
  set_tensor_info (set_tensor_info s l T a) l (with_info T a) b = set_tensor_info s l T b.
Proof. unfold set_tensor_info. simpl. by rewrite insert_insert_eq. Qed.

Lemma lookup_set_tensor_info s l T a : mem (set_tensor_info s l T a) !! l = Some (with_info T a).
Proof. apply lookup_insert_eq. Qed.

Lemma lookup_set_tensor_info_ne s l l' T a :
  l ≠ l' → mem (set_tensor_info s l T a) !! l' = mem s !! l'.
Proof. intros. by apply lookup_insert_ne. Qed.

Lemma set_shape_if_empty_spec s l T sh :
  mem s !! l = Some T →
  set_shape_if_empty (Some l) sh s
  = (Ok (bool_decide (tensor_shape (info T) = [])),
     set_tensor_info s l T
       (if bool_decide (tensor_shape (info T) = []) then with_shape (info T) sh else info T)).
Proof.
  intros Hl. unfold set_shape_if_empty.
  rewrite (bind_ok _ _ _ _ _ (get_info_ok _ _ _ Hl)).
  case_bool_decide.
  - by rewrite (bind_ok _ _ _ _ _ (set_info_ok _ _ _ _ Hl)).
  - by rewrite set_tensor_info_id.
Qed.

Lemma set_format_if_unknown_spec s l T f :
  mem s !! l = Some T →
  set_format_if_unknown (Some l) f s
  = (Ok (bool_decide (data_type (info T) = UNKNOWN)),
     set_tensor_info s l T
       (if bool_decide (data_type (info T) = UNKNOWN)
        then with_data_type (info T) (data_type_from_format f) 1 else info T)).
Proof.
  intros Hl. unfold set_format_if_unknown.
  rewrite (bind_ok _ _ _ _ _ (get_info_ok _ _ _ Hl)).
  case_bool_decide.
  - by rewrite (bind_ok _ _ _ _ _ (set_info_ok _ _ _ _ Hl)).
  - by rewrite set_tensor_info_id.
Qed.

Lemma inferred_type_cases (dt1 dt2 : DataType) :
  inferred_type dt1 dt2
  = if bool_decide (dt1 = S16) || bool_decide (dt2 = S16) then Some S16
    else if bool_decide (dt1 = F16) || bool_decide (dt2 = F16) then Some F16
    else if bool_decide (dt1 = F32) || bool_decide (dt2 = F32) then Some F32
    else None.
Proof. by destruct dt1, dt2. Qed.

(** The block that initialises the output, run on three tensors of which the
    output is neither of the inputs, rewrites the metadata of the output to
    [auto_init] and nothing else. *)
Lemma auto_initialize_output_spec s l1 l2 l3 T1 T2 T3 :
  mem s !! l1 = Some T1 → mem s !! l2 = Some T2 → mem s !! l3 = Some T3 →
  l3 ≠ l1 → l3 ≠ l2 →
  auto_initialize_output (Some l1) (Some l2) (Some l3) s
  = (Ok tt, set_tensor_info s l3 T3 (auto_init (info T1) (info T2) (info T3))).
Proof.
  intros M1 M2 M3 Hl1 Hl2. unfold auto_initialize_output, ignore.
  rewrite (bind_ok _ _ _ _ _ (get_info_ok _ _ _ M1)).
  erewrite bind_ok; last first.
  { erewrite bind_ok; [|by apply set_shape_if_empty_spec]. reflexivity. }
  set (io' := if bool_decide (tensor_shape (info T3) = [])
              then with_shape (info T3) (tensor_shape (info T1)) else info T3).
  set (s1 := set_tensor_info s l3 T3 io').
  assert (M1' : mem s1 !! l1 = Some T1) by by (subst s1; rewrite lookup_set_tensor_info_ne).
  assert (M2' : mem s1 !! l2 = Some T2) by by (subst s1; rewrite lookup_set_tensor_info_ne).
  assert (M3' : mem s1 !! l3 = Some (with_info T3 io')) by apply lookup_set_tensor_info.
  rewrite (bind_ok _ _ _ _ _ (get_info_ok _ _ _ M1')).
  rewrite (bind_ok _ _ _ _ _ (get_info_ok _ _ _ M2')).
  unfold auto_init. fold io'. rewrite inferred_type_cases.
  assert (Hfmt : ∀ f,
    (set_format_if_unknown (Some l3) f ≫= λ _ : bool, mret tt) s1
    = (Ok tt, set_tensor_info s l3 T3
                (if bool_decide (data_type io' = UNKNOWN)
                 then with_data_type io' (data_type_from_format f) 1 else io'))).
  { intros f. erewrite bind_ok; [|by apply set_format_if_unknown_spec].
    subst s1. by rewrite set_tensor_info_twice. }
  repeat case_match; try apply Hfmt; done.
Qed.
End AutoInit.

(** ** [configure] as a whole *)

Section ConfigureFacts.
Implicit Types (s : State) (T : ITensor).

(** [configure] on three tensors of which the output is neither input:
    the output is initialised, then the checks decide on the initialised
    metadata, then the table on the three element types. *)
Lemma configure_spec s l1 l2 l3 T1 T2 T3 policy :
  mem s !! l1 = Some T1 → mem s !! l2 = Some T2 → mem s !! l3 = Some T3 →
  l3 ≠ l1 → l3 ≠ l2 →
  let io := auto_init (info T1) (info T2) (info T3) in
  let s2 := set_tensor_info s l3 T3 io in
  let handles := set_handles (Some l1) (Some l2) (Some l3) (kernel s) in
  match validation_error (info T1) (info T2) io with
  | Some e => configure (Some l1) (Some l2) (Some l3) policy s = (Err e, s2)
  | None =>
      match map_function !! function_to_call policy (data_type (info T1))
                              (data_type (info T2)) (data_type io) with
      | None =>
          configure (Some l1) (Some l2) (Some l3) policy s
          = (Err InvalidTypeCombination, {| kernel := handles; mem := mem s2 |})
      | Some f =>
          ∃ s', configure (Some l1) (Some l2) (Some l3) policy s = (Ok tt, s')
                ∧ kernel s'
                  = with_window
                      (calculate_max_window (info T1) num_elems_processed_per_iteration)
                      (set_func f handles)
                ∧ mem_steady s2 s'
      end
  end.
Proof.
  intros M1 M2 M3 Hl1 Hl2 io s2 handles. unfold configure.
  rewrite (bind_ok _ _ _ _ _
             (nullptr_check_spec (Some l1) (Some l2) (Some l3) s : _ = (Ok tt, s))).
  rewrite (bind_ok _ _ _ _ _ (auto_initialize_output_spec s l1 l2 l3 T1 T2 T3 M1 M2 M3 Hl1 Hl2)).
  fold io. fold s2.
  assert (M1' : mem s2 !! l1 = Some T1) by by (subst s2; rewrite lookup_set_tensor_info_ne).
  assert (M2' : mem s2 !! l2 = Some T2) by by (subst s2; rewrite lookup_set_tensor_info_ne).
  assert (M3' : mem s2 !! l3 = Some (with_info T3 io)) by apply lookup_set_tensor_info.
  pose proof (validate_arguments_spec s2 l1 l2 l3 _ _ _ M1' M2' M3') as HV.
  pose proof (resolve_function_spec s2 l1 l2 l3 _ _ _ policy M1' M2' M3') as HR.
  simpl in HV, HR.
  destruct (validation_error (info T1) (info T2) io) as [e|].
  { by rewrite (bind_err _ _ _ _ _ HV). }
  rewrite (bind_ok _ _ _ _ _ HV).
  destruct (map_function !! _) as [f|].
  2: { by rewrite (bind_err _ _ _ _ _ HR). }
  rewrite (bind_ok _ _ _ _ _ HR).
  set (s4 := {| kernel := set_func f (set_handles (Some l1) (Some l2) (Some l3) (kernel s2));
                mem := mem s2 |}).
  destruct (configure_window_ok (Some l1) (Some l2) (Some l3) s4 l1 T1 eq_refl M1')
    as (s' & HW & HK & HM).
  { by exists l2, T2. }
  { by eexists l3, _. }
  exists s'. split; [done|]. split; [done|].
  intros l T Hl. by apply HM.
Qed.

(** Whatever the handles are: a failing [configure] leaves the resolved
    function, the window and the configured flag as they were; the handles
    too, unless the failure is the one of the table lookup, which comes after
    the handles were assigned; and the memory is steady, so no buffer has
    changed. *)
Lemma configure_failure (input1 input2 output : ITensorPtr) policy s e s' :
  configure input1 input2 output policy s = (Err e, s') →
  (kernel s' = kernel s
   ∨ (e = InvalidTypeCombination ∧ kernel s' = set_handles input1 input2 output (kernel s)))
  ∧ mem_steady s s'.
Proof.
  unfold configure. intros H.
  apply bind_inv_err in H as [H|(? & s1 & HN & H)].
  { rewrite nullptr_check_spec in H.
    destruct input1, input2, output; simplify_eq; split; auto using mem_steady_refl. }
  rewrite nullptr_check_spec in HN.
  destruct input1 as [l1|], input2 as [l2|], output as [l3|]; simplify_eq.
  apply bind_inv_err in H as [H|(? & s2 & HA & H)].
  { apply (preserves_auto_initialize_output steady steady_refl steady_trans) in H;
      [|done]. destruct H. by split; [left|]. }
  apply (preserves_auto_initialize_output steady steady_refl steady_trans) in HA as [K2 St2];
    [|done].
  apply bind_inv_err in H as [H|([] & s3 & HV & H)].
  { apply preserves_validate_arguments in H as ->. by split; [left|]. }
  apply validate_arguments_allocated in HV
    as (-> & (? & T1 & [= <-] & M1) & (? & T2 & [= <-] & M2) & (? & T3 & [= <-] & M3)).
  pose proof (resolve_function_spec s2 l1 l2 l3 T1 T2 T3 policy M1 M2 M3) as HR.
  destruct (map_function !! _) as [f|].
  - rewrite (bind_ok _ _ _ _ _ HR) in H.
    match type of H with
    | configure_window _ _ _ ?st = _ =>
        destruct (configure_window_ok (Some l1) (Some l2) (Some l3) st l1 T1 eq_refl M1)
          as (s4 & HW & _); [by exists l2, T2|by exists l3, T3|]
    end.
    rewrite HW in H. discriminate.
  - apply bind_inv_err in H as [H|(? & ? & H & _)]; rewrite HR in H; simplify_eq.
    split; [right; split; [done|]; simpl; by rewrite K2|].
    intros l T Hl. by apply St2.
Qed.

(** A successful [configure]: the handles point to tensors, the checks
    passed, the table holds an entry for the element types found, and the
    kernel records the handles, that entry and the maximal window. *)
Lemma configure_success (input1 input2 output : ITensorPtr) policy s s' :
  configure input1 input2 output policy s = (Ok tt, s') →
  ∃ l1 l2 l3 T1 T2 T3 f s2,
    input1 = Some l1 ∧ input2 = Some l2 ∧ output = Some l3
    ∧ steady s s2
    ∧ mem s2 !! l1 = Some T1 ∧ mem s2 !! l2 = Some T2 ∧ mem s2 !! l3 = Some T3
    ∧ validation_error (info T1) (info T2) (info T3) = None
    ∧ map_function !! function_to_call policy (data_type (info T1))
                        (data_type (info T2)) (data_type (info T3)) = Some f
    ∧ kernel s'
      = with_window (calculate_max_window (info T1) num_elems_processed_per_iteration)
                    (set_func f (set_handles input1 input2 output (kernel s)))
    ∧ mem_steady s2 s'.
Proof.
  unfold configure. intros H.
  apply bind_inv_ok in H as (? & s1 & HN & H).
  rewrite nullptr_check_spec in HN.
  destruct input1 as [l1|], input2 as [l2|], output as [l3|]; simplify_eq.
  apply bind_inv_ok in H as (? & s2 & HA & H).
  apply (preserves_auto_initialize_output steady steady_refl steady_trans) in HA as St2;
    [|done].
  apply bind_inv_ok in H as ([] & s3 & HV & H).
  pose proof HV as HV'.
  apply validate_arguments_allocated in HV
    as (-> & (? & T1 & [= <-] & M1) & (? & T2 & [= <-] & M2) & (? & T3 & [= <-] & M3)).
  rewrite (validate_arguments_spec s2 l1 l2 l3 T1 T2 T3 M1 M2 M3) in HV'.
  destruct (validation_error _ _ _) eqn:EV; [discriminate|].
  pose proof (resolve_function_spec s2 l1 l2 l3 T1 T2 T3 policy M1 M2 M3) as HR.
  destruct (map_function !! _) as [f|] eqn:EF.
  2: { rewrite (bind_err _ _ _ _ _ HR) in H. discriminate. }
  rewrite (bind_ok _ _ _ _ _ HR) in H.
  match type of H with
  | configure_window _ _ _ ?st = _ =>
      destruct (configure_window_ok (Some l1) (Some l2) (Some l3) st l1 T1 eq_refl M1)
        as (s4 & HW & HK & HM); [by exists l2, T2|by exists l3, T3|]
  end.
  rewrite HW in H. simplify_eq.
  exists l1, l2, l3, T1, T2, T3, f, s2.
  destruct St2 as [K2 St2].
  repeat split; try done; try (by apply St2).
Qed.
End ConfigureFacts.

Section ConfigureResolves.
Implicit Types (s : State) (T : ITensor).

Lemma validation_passed_types (i1 i2 io : TensorInfo) :
  validation_error i1 i2 io = None →
  data_type i1 ≠ UNKNOWN ∧ data_type i2 ≠ UNKNOWN ∧ data_type io ≠ UNKNOWN.
Proof.
  unfold validation_error. intros Hv.
  repeat split; intros Hdt; rewrite Hdt in Hv; simpl in Hv;
    repeat (case_match; try discriminate).
Qed.

(** After a successful [configure] the kernel holds the handles it was
    given, the table entry for the element types the three tensors now
    declare, and a configured window. *)
Lemma configure_resolves (input1 input2 output : ITensorPtr) policy s s' :
  configure input1 input2 output policy s = (Ok tt, s') →
  ∃ l1 l2 l3 T1 T2 T3 f,
    input1 = Some l1 ∧ input2 = Some l2 ∧ output = Some l3
    ∧ mem s' !! l1 = Some T1 ∧ mem s' !! l2 = Some T2 ∧ mem s' !! l3 = Some T3
    ∧ map_function !! function_to_call policy (data_type (info T1))
                        (data_type (info T2)) (data_type (info T3)) = Some f
    ∧ _func (kernel s') = Some f
    ∧ _input1 (kernel s') = input1 ∧ _input2 (kernel s') = input2
    ∧ _output (kernel s') = output
    ∧ _is_window_configured (kernel s') = true.
Proof.
  intros Hc.
  apply configure_success in Hc
    as (l1 & l2 & l3 & T1 & T2 & T3 & f & s2 & -> & -> & -> & St & M1 & M2 & M3
        & HV & HF & HK & HM).
  apply validation_passed_types in HV as (D1 & D2 & D3).
  destruct (HM l1 T1 M1) as (T1' & M1' & _ & _ & _ & _ & E1).
  destruct (HM l2 T2 M2) as (T2' & M2' & _ & _ & _ & _ & E2).
  destruct (HM l3 T3 M3) as (T3' & M3' & _ & _ & _ & _ & E3).
  exists l1, l2, l3, T1', T2', T3', f.
  rewrite E1, E2, E3, HK by done. by repeat split.
Qed.
End ConfigureResolves.

(** ** Execution *)

Section Run.
Context `{Build}.

(** The three checks of [run], then the call. *)
Lemma run_unfold (window : Window) (s : State) :
  run window s
  = (if negb (_is_window_configured (kernel s)) then (Err NotConfigured, s)
     else if negb (is_valid_subwindow (_window (kernel s)) window)
     then (Err InvalidSubwindow, s)
     else match _func (kernel s) with
          | Some f =>
              lift_mem (call f (_input1 (kernel s)) (_input2 (kernel s)) (_output (kernel s))
                             window) s
          | None => (Err AssertionFailed, s)
          end).
Proof.
  unfold run, get_kernel, error_on, mbind, M_bind, mret, M_ret, throw.
  destruct (_is_window_configured (kernel s)); [|done]. simpl.
  destruct (is_valid_subwindow (_window (kernel s)) window); [|done]. simpl.
  by destruct (_func (kernel s)).
Qed.

(** C7.  [run] fails with NotConfigured when no window was configured, else
    with InvalidSubwindow when the window it is given is not a valid
    sub-window of the configured one; when both checks pass it calls the
    resolved function on the three recorded handles over exactly the given
    window (a kernel with a window but no function stops on its assertion).
    Nothing else is examined, and the kernel object is never modified.  In
    the life of a kernel: after a successful [configure] a run over a valid
    sub-window is the call of the resolved function on the tensors given to
    [configure]; on a new kernel whose [configure] failed, [run] fails with
    NotConfigured. *)
Theorem run_contract (window : Window) (s : State) :
  run window s
  = (if negb (_is_window_configured (kernel s)) then (Err NotConfigured, s)
     else if negb (is_valid_subwindow (_window (kernel s)) window)
     then (Err InvalidSubwindow, s)
     else match _func (kernel s) with
          | Some f =>
              lift_mem (call f (_input1 (kernel s)) (_input2 (kernel s)) (_output (kernel s))
                             window) s
          | None => (Err AssertionFailed, s)
          end)
  ∧ kernel (run window s).2 = kernel s
  ∧ (∀ input1 input2 output policy s0,
       configure input1 input2 output policy s0 = (Ok tt, s) →
       is_valid_subwindow (_window (kernel s)) window = true →
       ∃ f, _func (kernel s) = Some f
            ∧ run window s = lift_mem (call f input1 input2 output window) s)
  ∧ (∀ input1 input2 output policy mem0 e,
       configure input1 input2 output policy
         {| kernel := NEArithmeticSubtractionKernel_new; mem := mem0 |} = (Err e, s) →
       run window s = (Err NotConfigured, s)).
Proof.
  pose proof (run_unfold window s) as Heq.
  split; [done|]. split; [|split].
  - rewrite Heq.
    destruct (_is_window_configured (kernel s)); [|done]. simpl.
    destruct (is_valid_subwindow (_window (kernel s)) window); [|done]. simpl.
    destruct (_func (kernel s)); [|done].
    unfold lift_mem. by destruct (call _ _ _ _ _ _).
  - intros input1 input2 output policy s0 Hc Hv.
    apply configure_resolves in Hc
      as (l1 & l2 & l3 & T1 & T2 & T3 & f & -> & -> & -> & _ & _ & _ & _ & Hf
          & H1 & H2 & H3 & Hw).
    exists f. split; [done|].
    by rewrite Heq, Hw, Hv, Hf, H1, H2, H3.
  - intros input1 input2 output policy mem0 e Hc.
    apply configure_failure in Hc as [[Hk|[_ Hk]] _]; rewrite Heq, Hk; done.
Qed.

(** C8.  In a build without [ARM_COMPUTE_ENABLE_FP16] the half-float function
    raises UnsupportedType on every call, before it reads or writes anything;
    both half-float entries of the table lead to it, and so does every [run]
    of a kernel that resolved it. *)
Theorem half_float_unsupported :
  ARM_COMPUTE_ENABLE_FP16 = false →
  (∀ in1 in2 out window (mem : Memory),
     sub_F16_F16_F16 in1 in2 out window mem = (Err UnsupportedType, mem))
  ∧ (∀ policy, map_function !! function_to_call policy F16 F16 F16 = Some fn_sub_F16_F16_F16)
  ∧ (∀ window s,
       _is_window_configured (kernel s) = true →
       is_valid_subwindow (_window (kernel s)) window = true →
       _func (kernel s) = Some fn_sub_F16_F16_F16 →
       run window s = (Err UnsupportedType, s)).
Proof.
  intros Hfp. split; [|split].
  - intros. unfold sub_F16_F16_F16. by rewrite Hfp.
  - by intros [].
  - intros window s Hc Hv Hf.
    rewrite run_unfold, Hc, Hv, Hf. simpl.
    unfold lift_mem, sub_F16_F16_F16. rewrite Hfp. by destruct s.
Qed.
End Run.

Lemma half_float_unsupported_witness :
  (∀ in1 in2 out window (mem : Memory),
     sub_F16_F16_F16 (H := build_without_fp16) in1 in2 out window mem
     = (Err UnsupportedType, mem))
  ∧ (∀ policy, map_function !! function_to_call policy F16 F16 F16 = Some fn_sub_F16_F16_F16)
  ∧ (∀ window s,
       _is_window_configured (kernel s) = true →
       is_valid_subwindow (_window (kernel s)) window = true →
       _func (kernel s) = Some fn_sub_F16_F16_F16 →
       run (H := build_without_fp16) window s = (Err UnsupportedType, s)).
Proof. apply (@half_float_unsupported build_without_fp16). reflexivity. Defined.

(** After configuring the example with SATURATE, a run over the window of
    sixteen elements is the call of the resolved function. *)
Lemma run_contract_witness :
  let s := (configure (Some 1) (Some 2) (Some 3) SATURATE
              (example_state U8 (replicate 16 7%Z))).2 in
  ∃ f, _func (kernel s) = Some f
       ∧ run (H := build_without_fp16) window_16 s
         = lift_mem (call (H := build_without_fp16) f (Some 1) (Some 2) (Some 3) window_16) s.
Proof.
  intros s.
  apply (proj1 (proj2 (proj2 (@run_contract build_without_fp16 window_16 s)))
           (Some 1) (Some 2) (Some 3) SATURATE (example_state U8 (replicate 16 7%Z)));
    vm_compute; reflexivity.
Defined.

(** ** Failure of [configure] *)

Section ConfigureFailureSites.
Implicit Types (s : State) (T : ITensor).

Lemma set_shape_if_empty_ok (p : ITensorPtr) (sh : TensorShape) s :
  allocated p s → ∃ b s', set_shape_if_empty p sh s = (Ok b, s').
Proof. intros (l & T & -> & Hl). rewrite (set_shape_if_empty_spec s l T sh Hl). eauto. Qed.

Lemma set_format_if_unknown_ok (p : ITensorPtr) (f : Format) s :
  allocated p s → ∃ b s', set_format_if_unknown p f s = (Ok b, s').
Proof. intros (l & T & -> & Hl). rewrite (set_format_if_unknown_spec s l T f Hl). eauto. Qed.

(** The block that initialises the output cannot fail on handles that point
    to tensors, whether or not they share one. *)
Lemma auto_initialize_output_ok (input1 input2 output : ITensorPtr) s :
  allocated input1 s → allocated input2 s → allocated output s →
  ∃ s', auto_initialize_output input1 input2 output s = (Ok tt, s').
Proof.
  intros A1 A2 A3. unfold auto_initialize_output, ignore.
  destruct (get_info_allocated s input1 A1) as (i1 & G1).
  rewrite (bind_ok _ _ _ _ _ G1).
  destruct (set_shape_if_empty_ok output (tensor_shape i1) s A3) as (b & s1 & E1).
  assert (St1 : steady s s1).
  { by apply (preserves_set_shape_if_empty steady steady_refl steady_trans) in E1. }
  erewrite bind_ok; last first.
  { erewrite bind_ok; [|exact E1]. reflexivity. }
  pose proof (mem_steady_allocated _ _ _ (proj2 St1) A1) as A1'.
  pose proof (mem_steady_allocated _ _ _ (proj2 St1) A2) as A2'.
  pose proof (mem_steady_allocated _ _ _ (proj2 St1) A3) as A3'.
  destruct (get_info_allocated s1 input1 A1') as (i1' & G1').
  destruct (get_info_allocated s1 input2 A2') as (i2' & G2').
  rewrite (bind_ok _ _ _ _ _ G1'), (bind_ok _ _ _ _ _ G2').
  assert (Hfmt : ∀ f, ∃ s', (set_format_if_unknown output f ≫= λ _ : bool, mret tt) s1
                            = (Ok tt, s')).
  { intros f. destruct (set_format_if_unknown_ok output f s1 A3') as (b' & s2 & E2).
    exists s2. by rewrite (bind_ok _ _ _ _ _ E2). }
  repeat case_match; try apply Hfmt; by eexists.
Qed.

(** Where a failing [configure] stopped, on handles that are null or point
    to tensors: at the null check, with the state untouched; at one of the
    checks on the metadata, after the output was initialised and before the
    handles are assigned; or at the table lookup, after they were
    assigned.  The computation of the window cannot fail. *)
Lemma configure_failure_cases (input1 input2 output : ITensorPtr) policy s e s' :
  null_or_allocated input1 s → null_or_allocated input2 s → null_or_allocated output s →
  configure input1 input2 output policy s = (Err e, s') →
  ((input1 = None ∨ input2 = None ∨ output = None) ∧ e = InvalidArgument ∧ s' = s)
  ∨ (∃ l1 l2 l3 T1 T2 T3,
       input1 = Some l1 ∧ input2 = Some l2 ∧ output = Some l3
       ∧ mem s' !! l1 = Some T1 ∧ mem s' !! l2 = Some T2 ∧ mem s' !! l3 = Some T3
       ∧ validation_error (info T1) (info T2) (info T3) = Some e
       ∧ kernel s' = kernel s)
  ∨ (lookup_fails input1 input2 output policy s' ∧ e = InvalidTypeCombination
     ∧ kernel s' = set_handles input1 input2 output (kernel s)).
Proof.
  intros V1 V2 V3. unfold configure. intros H.
  apply bind_inv_err in H as [H|(? & s1 & HN & H)].
  { rewrite nullptr_check_spec in H. left.
    destruct input1, input2, output; try discriminate H; injection H as <- <-;
      (split; [tauto|done]). }
  rewrite nullptr_check_spec in HN.
  destruct input1 as [l1|], input2 as [l2|], output as [l3|]; try discriminate HN.
  assert (s1 = s) as -> by congruence. clear HN.
  destruct V1 as [?|A1]; [done|]. destruct V2 as [?|A2]; [done|].
  destruct V3 as [?|A3]; [done|].
  destruct (auto_initialize_output_ok _ _ _ s A1 A2 A3) as (s2 & HA).
  rewrite (bind_ok _ _ _ _ _ HA) in H.
  pose proof (preserves_auto_initialize_output steady steady_refl steady_trans
                (λ _ _ St, St) _ _ _ _ _ _ HA) as [K2 St2].
  destruct (mem_steady_allocated _ _ _ St2 A1) as (? & T1 & [= <-] & M1).
  destruct (mem_steady_allocated _ _ _ St2 A2) as (? & T2 & [= <-] & M2).
  destruct (mem_steady_allocated _ _ _ St2 A3) as (? & T3 & [= <-] & M3).
  pose proof (validate_arguments_spec s2 l1 l2 l3 T1 T2 T3 M1 M2 M3) as HV.
  destruct (validation_error (info T1) (info T2) (info T3)) as [e'|] eqn:EV.
  { rewrite (bind_err _ _ _ _ _ HV) in H. injection H as <- <-. right. left.
    exists l1, l2, l3, T1, T2, T3. repeat split; assumption. }
  rewrite (bind_ok _ _ _ _ _ HV) in H.
  pose proof (resolve_function_spec s2 l1 l2 l3 T1 T2 T3 policy M1 M2 M3) as HR.
  destruct (map_function !! _) as [f|] eqn:EF.
  - rewrite (bind_ok _ _ _ _ _ HR) in H.
    match type of H with
    | configure_window _ _ _ ?st = _ =>
        destruct (configure_window_ok (Some l1) (Some l2) (Some l3) st l1 T1 eq_refl M1)
          as (s4 & HW & _); [by exists l2, T2|by exists l3, T3|]
    end.
    rewrite HW in H. discriminate H.
  - rewrite (bind_err _ _ _ _ _ HR) in H. injection H as <- <-. right. right.
    split; [|split; [done|simpl; by rewrite K2]].
    exists l1, l2, l3, T1, T2, T3. repeat split; assumption.
Qed.

(** A state in which one of the checks fails is not one in which the lookup
    fails. *)
Lemma check_fails_not_lookup (input1 input2 output : ITensorPtr) policy s l1 l2 l3 T1 T2 T3 e :
  input1 = Some l1 → input2 = Some l2 → output = Some l3 →
  mem s !! l1 = Some T1 → mem s !! l2 = Some T2 → mem s !! l3 = Some T3 →
  validation_error (info T1) (info T2) (info T3) = Some e →
  ¬ lookup_fails input1 input2 output policy s.
Proof.
  intros -> -> -> M1 M2 M3 EV
    (? & ? & ? & T1' & T2' & T3' & [= <-] & [= <-] & [= <-] & N1 & N2 & N3 & EV' & _).
  rewrite M1 in N1. rewrite M2 in N2. rewrite M3 in N3.
  injection N1 as <-. injection N2 as <-. injection N3 as <-.
  rewrite EV in EV'. discriminate EV'.
Qed.

Lemma null_not_lookup (input1 input2 output : ITensorPtr) policy s :
  input1 = None ∨ input2 = None ∨ output = None →
  ¬ lookup_fails input1 input2 output policy s.
Proof.
  intros Hn (? & ? & ? & ? & ? & ? & -> & -> & -> & _).
  by destruct Hn as [?|[?|?]].
Qed.
End ConfigureFailureSites.

(** C9, amended.  Whenever [configure] fails, on handles that are null or
    point to tensors, the resolved function, the configured window and the
    configured flag of the kernel are as before the call, and every tensor
    still holds the buffer it held, so no compute function ran.  The stored
    handles are as before the call too, with one exception: when the failure
    is the table lookup (the three tensors pass every check and the table has
    no entry for their element types), which is reported as
    InvalidTypeCombination, they hold the arguments of the call.  The
    InvalidTypeCombination of the check on an unsigned 8-bit output is not
    that case: it leaves the handles as they were. *)
Theorem configure_failure_frame
    (input1 input2 output : ITensorPtr) (policy : ConvertPolicy) (s s' : State) (e : Error) :
  null_or_allocated input1 s → null_or_allocated input2 s → null_or_allocated output s →
  configure input1 input2 output policy s = (Err e, s') →
  _func (kernel s') = _func (kernel s)
  ∧ _window (kernel s') = _window (kernel s)
  ∧ _is_window_configured (kernel s') = _is_window_configured (kernel s)
  ∧ ((¬ lookup_fails input1 input2 output policy s'
      ∧ (_input1 (kernel s'), _input2 (kernel s'), _output (kernel s'))
        = (_input1 (kernel s), _input2 (kernel s), _output (kernel s)))
     ∨ (lookup_fails input1 input2 output policy s'
        ∧ e = InvalidTypeCombination
        ∧ (_input1 (kernel s'), _input2 (kernel s'), _output (kernel s'))
          = (input1, input2, output)))
  ∧ (∀ l1 l2 l3 T1 T2 T3,
       input1 = Some l1 → input2 = Some l2 → output = Some l3 →
       mem s' !! l1 = Some T1 → mem s' !! l2 = Some T2 → mem s' !! l3 = Some T3 →
       data_type (info T3) = U8 →
       data_type (info T1) ≠ U8 ∨ data_type (info T2) ≠ U8 →
       (_input1 (kernel s'), _input2 (kernel s'), _output (kernel s'))
       = (_input1 (kernel s), _input2 (kernel s), _output (kernel s)))
  ∧ (∀ l T, mem s !! l = Some T → ∃ T', mem s' !! l = Some T' ∧ buffer T' = buffer T).
Proof.
  intros V1 V2 V3 Hc.
  pose proof (configure_failure _ _ _ _ _ _ _ Hc) as [_ HM].
  assert (Hbuf : ∀ l T, mem s !! l = Some T → ∃ T', mem s' !! l = Some T' ∧ buffer T' = buffer T).
  { intros l T Hl. destruct (HM l T Hl) as (T' & Hl' & Hb & _). eauto. }
  destruct (configure_failure_cases _ _ _ _ _ _ _ V1 V2 V3 Hc)
    as [(Hn & -> & ->)|[(l1 & l2 & l3 & T1 & T2 & T3 & E1 & E2 & E3 & M1 & M2 & M3 & EV & HK)
                       |(HL & -> & HK)]].
  - repeat split; try done.
    left. split; [by apply null_not_lookup|done].
  - rewrite HK. repeat split; try done.
    left. split; [|done]. by eapply check_fails_not_lookup.
  - rewrite HK. cbn [set_handles _func _window _is_window_configured _input1 _input2 _output].
    repeat split; try done.
    + right. by repeat split.
    + intros l1 l2 l3 T1 T2 T3 E1 E2 E3 M1 M2 M3 Hu Hne. exfalso.
      destruct HL as (? & ? & ? & T1' & T2' & T3' & -> & -> & -> & N1 & N2 & N3 & EV & _).
      injection E1 as <-. injection E2 as <-. injection E3 as <-.
      rewrite M1 in N1. rewrite M2 in N2. rewrite M3 in N3.
      injection N1 as <-. injection N2 as <-. injection N3 as <-.
      revert EV. unfold validation_error. rewrite Hu.
      repeat (match goal with |- context [if ?c then _ else _] => destruct c eqn:? end;
              try discriminate).
      all: intros _.
      all: destruct Hne as [Hne|Hne];
        repeat match goal with
               | E : (_ && _) = false |- _ => apply andb_false_iff in E as [E|E]
               | E : (_ || _) = false |- _ => apply orb_false_iff in E as [? ?]
               | E : negb _ = false |- _ => apply negb_false_iff in E
               | E : bool_decide _ = true |- _ => apply bool_decide_eq_true_1 in E
               | E : bool_decide _ = false |- _ => apply bool_decide_eq_false_1 in E
               end; try done.
Qed.

(** Configuring the example with an output declared single float fails at
    the table lookup. *)
Lemma configure_failure_frame_witness :
  let s := example_state F32 (replicate 16 7%Z) in
  let s' := (configure (Some 1) (Some 2) (Some 3) WRAP s).2 in
  _func (kernel s') = _func (kernel s)
  ∧ _window (kernel s') = _window (kernel s)
  ∧ _is_window_configured (kernel s') = _is_window_configured (kernel s)
  ∧ ((¬ lookup_fails (Some 1) (Some 2) (Some 3) WRAP s'
      ∧ (_input1 (kernel s'), _input2 (kernel s'), _output (kernel s'))
        = (_input1 (kernel s), _input2 (kernel s), _output (kernel s)))
     ∨ (lookup_fails (Some 1) (Some 2) (Some 3) WRAP s'
        ∧ InvalidTypeCombination = InvalidTypeCombination
        ∧ (_input1 (kernel s'), _input2 (kernel s'), _output (kernel s'))
          = (Some 1, Some 2, Some 3)))
  ∧ (∀ l1 l2 l3 T1 T2 T3,
       Some 1 = Some l1 → Some 2 = Some l2 → Some 3 = Some l3 →
       mem s' !! l1 = Some T1 → mem s' !! l2 = Some T2 → mem s' !! l3 = Some T3 →
       data_type (info T3) = U8 →
       data_type (info T1) ≠ U8 ∨ data_type (info T2) ≠ U8 →
       (_input1 (kernel s'), _input2 (kernel s'), _output (kernel s'))
       = (_input1 (kernel s), _input2 (kernel s), _output (kernel s)))
  ∧ (∀ l T, mem s !! l = Some T → ∃ T', mem s' !! l = Some T' ∧ buffer T' = buffer T).
Proof.
  intros s s'.
  apply (configure_failure_frame (Some 1) (Some 2) (Some 3) WRAP s s' InvalidTypeCombination).
  - right. exists 1, (tensor_1d U8 (replicate 16 10%Z)). split; reflexivity.
  - right. exists 2, (tensor_1d U8 (replicate 16 250%Z)). split; reflexivity.
  - right. exists 3, (tensor_1d F32 (replicate 16 7%Z)). split; reflexivity.
  - vm_compute. reflexivity.
Defined.

(** C9 as stated fails: on a new kernel, [configure] with two unsigned 8-bit
    inputs and a single-float output fails, and the kernel then holds the
    three handles of the call instead of null handles. *)
Lemma configure_failure_frame_counterexample :
  let s := example_state F32 (replicate 16 7%Z) in
  let r := configure (Some 1) (Some 2) (Some 3) WRAP s in
  r.1 = Err InvalidTypeCombination
  ∧ _input1 (kernel s) = None
  ∧ _input1 (kernel r.2) = Some 1
  ∧ _input1 (kernel r.2) ≠ _input1 (kernel s).
Proof. vm_compute. by repeat split. Qed.

(** The two failures reported as InvalidTypeCombination, side by side on a
    new kernel.  A signed 16-bit input with an unsigned 8-bit output stops at
    the check on the output type, and the handles are still null; an output
    declared single float stops at the lookup, and the handles are set. *)
Example invalid_combination_sites :
  let s1 := fresh_state (tensor_1d S16 (replicate 16 1%Z)) (tensor_1d U8 (replicate 16 2%Z))
                        (tensor_1d U8 (replicate 16 0%Z)) in
  let r1 := configure (Some 1) (Some 2) (Some 3) WRAP s1 in
  let s2 := example_state F32 (replicate 16 7%Z) in
  let r2 := configure (Some 1) (Some 2) (Some 3) WRAP s2 in
  r1.1 = Err InvalidTypeCombination
  ∧ (_input1 (kernel r1.2), _input2 (kernel r1.2), _output (kernel r1.2)) = (None, None, None)
  ∧ r2.1 = Err InvalidTypeCombination
  ∧ (_input1 (kernel r2.2), _input2 (kernel r2.2), _output (kernel r2.2))
    = (Some 1, Some 2, Some 3).
Proof. vm_compute. by repeat split. Qed.

(** ** Coverage of the dispatch table *)

Section Coverage.
Implicit Types (s : State) (T : ITensor) (dt : DataType).

Lemma table_enumerated policy dt1 dt2 dt3 :
  match map_function !! function_to_call policy dt1 dt2 dt3 with
  | Some _ => enumerated dt1 dt2 dt3 = true
  | None => enumerated dt1 dt2 dt3 = false
  end.
Proof. destruct policy, dt1, dt2, dt3; vm_compute; reflexivity. Qed.

Lemma validation_well_shaped (i1 i2 io : TensorInfo) :
  well_shaped i1 i2 io →
  validation_error i1 i2 io
  = if negb (bool_decide (data_type i1 ∈ supported_types)) then Some UnsupportedType
    else if negb (bool_decide (data_type i2 ∈ supported_types)) then Some UnsupportedType
    else if negb (bool_decide (data_type io ∈ supported_types)) then Some UnsupportedType
    else if bool_decide (data_type io = U8)
            && (negb (bool_decide (data_type i1 = U8))
                || negb (bool_decide (data_type i2 = U8)))
    then Some InvalidTypeCombination
    else if (is_data_type_fixed_point (data_type i1)
             || is_data_type_fixed_point (data_type i2)
             || is_data_type_fixed_point (data_type io))
            && negb (bool_decide (data_type i1 = data_type i2)
                     && bool_decide (data_type i1 = data_type io)
                     && bool_decide (fixed_point_position i1 = fixed_point_position i2)
                     && bool_decide (fixed_point_position i1 = fixed_point_position io))
    then Some FixedPointMismatch
    else None.
Proof.
  intros (S1 & S2 & C1 & C2 & C3). unfold validation_error.
  rewrite (bool_decide_eq_true_2 _ S1), (bool_decide_eq_true_2 _ S2).
  rewrite (bool_decide_eq_true_2 _ C1), (bool_decide_eq_true_2 _ C2),
    (bool_decide_eq_true_2 _ C3).
  by rewrite !andb_true_r.
Qed.

Lemma validation_enumerated (i1 i2 io : TensorInfo) :
  well_shaped i1 i2 io →
  enumerated (data_type i1) (data_type i2) (data_type io) = true →
  (is_data_type_fixed_point (data_type i1) = true →
   fixed_point_position i1 = fixed_point_position i2
   ∧ fixed_point_position i1 = fixed_point_position io) →
  validation_error i1 i2 io = None.
Proof.
  intros Hws Hen Hfix. rewrite validation_well_shaped by done.
  destruct (data_type i1), (data_type i2), (data_type io); try discriminate Hen;
    try reflexivity;
    destruct (Hfix eq_refl) as [E1 E2];
    cbn; rewrite (bool_decide_eq_true_2 _ E1), (bool_decide_eq_true_2 _ E2); reflexivity.
Qed.

Lemma validation_not_enumerated (i1 i2 io : TensorInfo) :
  well_shaped i1 i2 io →
  enumerated (data_type i1) (data_type i2) (data_type io) = false →
  match validation_error i1 i2 io with
  | Some e => e = rejection (data_type i1) (data_type i2) (data_type io)
  | None => rejection (data_type i1) (data_type i2) (data_type io) = InvalidTypeCombination
  end.
Proof.
  intros Hws Hen. rewrite validation_well_shaped by done.
  destruct (data_type i1), (data_type i2), (data_type io); try discriminate Hen;
    reflexivity.
Qed.
End Coverage.

(** C2, amended.  The table holds an entry exactly for the enumerated
    combinations of element types.  On three tensors of equal shape and one
    channel each (the output neither of the inputs, its metadata taken after
    auto-initialisation): for an enumerated combination, with equal
    fixed-point positions where the types are fixed-point, [configure]
    succeeds and records the entry of the table; for any other combination
    [configure] fails and resolves no function, with the condition of the
    first check that rejects it: UnsupportedType when a type is unset,
    else InvalidTypeCombination when the output is unsigned 8-bit, else
    FixedPointMismatch when a type is fixed-point, else
    InvalidTypeCombination from the table lookup. *)
Theorem dispatch_coverage :
  (∀ policy dt1 dt2 dt3,
     is_Some (map_function !! function_to_call policy dt1 dt2 dt3)
     ↔ enumerated dt1 dt2 dt3 = true)
  ∧ (∀ (s : State) l1 l2 l3 T1 T2 T3 policy,
       mem s !! l1 = Some T1 → mem s !! l2 = Some T2 → mem s !! l3 = Some T3 →
       l3 ≠ l1 → l3 ≠ l2 →
       let io := auto_init (info T1) (info T2) (info T3) in
       let dt1 := data_type (info T1) in
       let dt2 := data_type (info T2) in
       let dt3 := data_type io in
       well_shaped (info T1) (info T2) io →
       (enumerated dt1 dt2 dt3 = true →
        (is_data_type_fixed_point dt1 = true →
         fixed_point_position (info T1) = fixed_point_position (info T2)
         ∧ fixed_point_position (info T1) = fixed_point_position io) →
        ∃ f s', configure (Some l1) (Some l2) (Some l3) policy s = (Ok tt, s')
                ∧ map_function !! function_to_call policy dt1 dt2 dt3 = Some f
                ∧ _func (kernel s') = Some f)
       ∧ (enumerated dt1 dt2 dt3 = false →
          ∃ s', configure (Some l1) (Some l2) (Some l3) policy s
                = (Err (rejection dt1 dt2 dt3), s')
                ∧ _func (kernel s') = _func (kernel s))).
Proof.
  split.
  - intros policy dt1 dt2 dt3.
    pose proof (table_enumerated policy dt1 dt2 dt3) as Ht.
    destruct (map_function !! _) as [f|]; rewrite Ht.
    + split; [done|]. by eexists.
    + split; [by intros [? ?]|done].
  - intros s l1 l2 l3 T1 T2 T3 policy M1 M2 M3 Hl1 Hl2 io dt1 dt2 dt3 Hws.
    pose proof (configure_spec s l1 l2 l3 T1 T2 T3 policy M1 M2 M3 Hl1 Hl2) as Hc.
    pose proof (table_enumerated policy dt1 dt2 dt3) as Ht.
    cbn zeta in Hc. fold io dt1 dt2 dt3 in Hc.
    split.
    + intros Hen Hfix.
      rewrite (validation_enumerated _ _ _ Hws Hen Hfix) in Hc.
      destruct (map_function !! _) as [f|]; [|congruence].
      destruct Hc as (s' & Hc & HK & _).
      exists f, s'. split; [done|]. split; [done|]. by rewrite HK.
    + intros Hen.
      pose proof (validation_not_enumerated _ _ _ Hws Hen) as Hv.
      fold dt1 dt2 dt3 in Hv.
      destruct (validation_error _ _ _) as [e|].
      * subst e. eexists. split; [exact Hc|done].
      * destruct (map_function !! _) as [f|]; [congruence|].
        rewrite Hv. eexists. split; [exact Hc|done].
Qed.

(** Two unsigned 8-bit inputs and a signed 16-bit output resolve a function
    under WRAP. *)
Lemma dispatch_coverage_witness :
  ∃ f s',
    configure (Some 1) (Some 2) (Some 3) WRAP (example_state S16 (replicate 16 7%Z))
    = (Ok tt, s')
    ∧ map_function !! function_to_call WRAP U8 U8 S16 = Some f
    ∧ _func (kernel s') = Some f.
Proof.
  refine (proj1 (proj2 dispatch_coverage (example_state S16 (replicate 16 7%Z)) 1 2 3
                   (tensor_1d U8 (replicate 16 10%Z)) (tensor_1d U8 (replicate 16 250%Z))
                   (tensor_1d S16 (replicate 16 7%Z)) WRAP _ _ _ _ _ _) _ _);
    concrete.
Defined.

(** C2 as stated fails: two 8-bit fixed-point inputs with a signed 16-bit
    output are not in the table, and [configure] rejects them with
    FixedPointMismatch, not with InvalidTypeCombination. *)
Lemma dispatch_coverage_counterexample :
  let s := fresh_state (tensor_1d QS8 (replicate 16 0%Z)) (tensor_1d QS8 (replicate 16 0%Z))
                       (tensor_1d S16 (replicate 16 0%Z)) in
  enumerated QS8 QS8 S16 = false
  ∧ map_function !! function_to_call WRAP QS8 QS8 S16 = None
  ∧ (configure (Some 1) (Some 2) (Some 3) WRAP s).1 = Err FixedPointMismatch
  ∧ FixedPointMismatch ≠ InvalidTypeCombination.
Proof. vm_compute. by repeat split. Qed.

(** ** Auto-initialisation within [configure] *)

(** C6.  On three tensors, the output neither of the inputs, the first
    block of [configure] rewrites the metadata of the output and nothing
    else: an unset shape becomes the shape of input1, and an unset element
    type becomes signed 16-bit if either input declares it, else half float
    if either input declares it, else single float if either input declares
    it, else stays unset.  The checks, the lookup and the window then run on
    the state so initialised, and the verdict of the checks is the one for
    the initialised metadata. *)
Theorem output_auto_initialization
    (s : State) (l1 l2 l3 : loc) (T1 T2 T3 : ITensor) (policy : ConvertPolicy) :
  mem s !! l1 = Some T1 → mem s !! l2 = Some T2 → mem s !! l3 = Some T3 →
  l3 ≠ l1 → l3 ≠ l2 →
  let dt1 := data_type (info T1) in
  let dt2 := data_type (info T2) in
  let io := auto_init (info T1) (info T2) (info T3) in
  let s1 := set_tensor_info s l3 T3 io in
  auto_initialize_output (Some l1) (Some l2) (Some l3) s = (Ok tt, s1)
  ∧ configure (Some l1) (Some l2) (Some l3) policy s
    = (validate_arguments (Some l1) (Some l2) (Some l3);;
       resolve_function (Some l1) (Some l2) (Some l3) policy;;
       configure_window (Some l1) (Some l2) (Some l3)) s1
  ∧ tensor_shape io
    = (if bool_decide (tensor_shape (info T3) = [])
       then tensor_shape (info T1) else tensor_shape (info T3))
  ∧ data_type io
    = (if bool_decide (data_type (info T3) = UNKNOWN)
       then if bool_decide (dt1 = S16 ∨ dt2 = S16) then S16
            else if bool_decide (dt1 = F16 ∨ dt2 = F16) then F16
            else if bool_decide (dt1 = F32 ∨ dt2 = F32) then F32
            else UNKNOWN
       else data_type (info T3))
  ∧ (∀ e, validation_error (info T1) (info T2) io = Some e →
          configure (Some l1) (Some l2) (Some l3) policy s = (Err e, s1)).
Proof.
  intros M1 M2 M3 Hl1 Hl2 dt1 dt2 io s1.
  pose proof (auto_initialize_output_spec s l1 l2 l3 T1 T2 T3 M1 M2 M3 Hl1 Hl2) as HA.
  split; [done|]. split; [|split; [|split]].
  - unfold configure.
    rewrite (bind_ok _ _ _ _ _
               (nullptr_check_spec (Some l1) (Some l2) (Some l3) s : _ = (Ok tt, s))).
    by rewrite (bind_ok _ _ _ _ _ HA).
  - subst io. unfold auto_init.
    destruct (inferred_type _ _); repeat case_bool_decide; done.
  - subst io dt1 dt2. unfold auto_init. rewrite inferred_type_cases.
    set (io' := if bool_decide _ then _ else info T3).
    assert (Hdt : data_type io' = data_type (info T3)) by (subst io'; by case_bool_decide).
    rewrite <- Hdt.
    destruct (data_type (info T1)), (data_type (info T2)); cbn;
      destruct (bool_decide (data_type io' = UNKNOWN)) eqn:E; try done;
      by apply bool_decide_eq_true in E.
  - intros e He.
    pose proof (configure_spec s l1 l2 l3 T1 T2 T3 policy M1 M2 M3 Hl1 Hl2) as Hc.
    cbn zeta in Hc. fold io in Hc. by rewrite He in Hc.
Qed.

(** Two signed 16-bit inputs and an output left unset: the output takes the
    shape of input1 and the signed 16-bit type. *)
Lemma output_auto_initialization_witness :
  let T1 := tensor_1d S16 (replicate 16 1%Z) in
  let T2 := tensor_1d S16 (replicate 16 2%Z) in
  let T3 := tensor_unset (replicate 16 0%Z) in
  let io := auto_init (info T1) (info T2) (info T3) in
  auto_initialize_output (Some 1) (Some 2) (Some 3) (fresh_state T1 T2 T3)
  = (Ok tt, set_tensor_info (fresh_state T1 T2 T3) 3 T3 io)
  ∧ tensor_shape io = [16%Z] ∧ data_type io = S16.
Proof.
  intros T1 T2 T3 io.
  destruct (output_auto_initialization (fresh_state T1 T2 T3) 1 2 3 T1 T2 T3 WRAP)
    as (HA & _ & HS & HD & _); [concrete..|].
  split; [exact HA|]. split; [exact HS|exact HD].
Defined.

(** ** The policy and the floating-point types *)

Section FloatPolicies.
Context `{Build}.
Implicit Types (s : State) (T : ITensor).

(** The policy enters [configure] through the table lookup only. *)
Lemma configure_policy (input1 input2 output : ITensorPtr) (p q : ConvertPolicy) s :
  (∀ s2 l1 l2 l3 T1 T2 T3,
     input1 = Some l1 → input2 = Some l2 → output = Some l3 →
     steady s s2 →
     mem s2 !! l1 = Some T1 → mem s2 !! l2 = Some T2 → mem s2 !! l3 = Some T3 →
     map_function !! function_to_call p (data_type (info T1)) (data_type (info T2))
                       (data_type (info T3))
     = map_function !! function_to_call q (data_type (info T1)) (data_type (info T2))
                         (data_type (info T3))) →
  configure input1 input2 output p s = configure input1 input2 output q s.
Proof.
  intros Hlookup. unfold configure.
  unfold mbind at 1 5. unfold M_bind at 1 5.
  rewrite nullptr_check_spec.
  destruct input1 as [l1|], input2 as [l2|], output as [l3|]; try done.
  unfold mbind at 1 4. unfold M_bind at 1 4.
  destruct (auto_initialize_output _ _ _ s) as [[[]|e] s2] eqn:HA; [|done].
  apply (preserves_auto_initialize_output steady steady_refl steady_trans) in HA as St;
    [|done].
  unfold mbind at 1 3. unfold M_bind at 1 3.
  destruct (validate_arguments _ _ _ s2) as [[[]|e] s3] eqn:HV; [|done].
  apply validate_arguments_allocated in HV
    as (-> & (? & T1 & [= <-] & M1) & (? & T2 & [= <-] & M2) & (? & T3 & [= <-] & M3)).
  unfold mbind, M_bind.
  rewrite !(resolve_function_spec s2 l1 l2 l3 T1 T2 T3) by done.
  by rewrite (Hlookup s2 l1 l2 l3 T1 T2 T3).
Qed.

Lemma float_lookup (dt dt3 : DataType) :
  dt ∈ [F16; F32] →
  map_function !! function_to_call WRAP dt dt dt3
  = map_function !! function_to_call SATURATE dt dt dt3.
Proof.
  intros Hdt.
  repeat (apply elem_of_cons in Hdt as [->|Hdt]); [..|by apply elem_of_nil in Hdt];
    destruct dt3; vm_compute; reflexivity.
Qed.

(** C5.  For the half-float and the single-float triple the WRAP entry and
    the SATURATE entry of the table are the same function.  Hence, on inputs
    declared of such a type, [configure] under WRAP and under SATURATE reach
    the same state, and a run after either gives the same result on every
    window and every content of the tensors.  That function stores, at every
    position of a row, the floating-point difference of the build applied
    once to the two elements found there. *)
Theorem float_policies_alias :
  (∀ dt, dt ∈ [F16; F32] →
     ∃ f, map_function !! function_to_call WRAP dt dt dt = Some f
          ∧ map_function !! function_to_call SATURATE dt dt dt = Some f
          ∧ f = match dt with F16 => fn_sub_F16_F16_F16 | _ => fn_sub_F32_F32_F32 end)
  ∧ (∀ dt s (input1 input2 output : ITensorPtr) l1 l2 T1 T2 (window : Window),
       dt ∈ [F16; F32] →
       input1 = Some l1 → input2 = Some l2 →
       mem s !! l1 = Some T1 → mem s !! l2 = Some T2 →
       data_type (info T1) = dt → data_type (info T2) = dt →
       configure input1 input2 output WRAP s = configure input1 input2 output SATURATE s
       ∧ (configure input1 input2 output WRAP;; run window) s
         = (configure input1 input2 output SATURATE;; run window) s)
  ∧ (∀ dt (mem : Memory) l1 l2 l3 T1 T2 T3 (start : Z) (n i : nat) (a b : Z),
       dt ∈ [F16; F32] →
       (dt = F16 → ARM_COMPUTE_ENABLE_FP16 = true) →
       mem !! l1 = Some T1 → mem !! l2 = Some T2 → mem !! l3 = Some T3 →
       l3 ≠ l1 → l3 ≠ l2 →
       covers_row T1 start (16 * n) → covers_row T2 start (16 * n) →
       covers_row T3 start (16 * n) →
       i < 16 * n →
       buffer T1 !! (Z.to_nat (offset_first_element (info T1) + start) + i) = Some a →
       buffer T2 !! (Z.to_nat (offset_first_element (info T2) + start) + i) = Some b →
       output_lane
         (call (match dt with F16 => fn_sub_F16_F16_F16 | _ => fn_sub_F32_F32_F32 end)
               (Some l1) (Some l2) (Some l3) (row_window start n) mem) l3
         (Z.to_nat (offset_first_element (info T3) + start) + i)
       = Some (match dt with F16 => fsub_f16 a b | _ => fsub_f32 a b end)).
Proof.
  split; [|split].
  - intros dt Hdt.
    repeat (apply elem_of_cons in Hdt as [->|Hdt]); [..|by apply elem_of_nil in Hdt];
      eexists; (split; [|split]); try (vm_compute; reflexivity); auto.
  - intros dt s input1 input2 output l1 l2 T1 T2 window Hdt -> -> M1 M2 D1 D2.
    assert (Hne : dt ≠ UNKNOWN).
    { intros ->. repeat (apply elem_of_cons in Hdt as [?|Hdt]); try done.
      by apply elem_of_nil in Hdt. }
    assert (Hc : configure (Some l1) (Some l2) output WRAP s
                 = configure (Some l1) (Some l2) output SATURATE s).
    { apply configure_policy.
      intros s2 ? ? l3 T1' T2' T3' [= <-] [= <-] -> [_ St] M1' M2' M3'.
      destruct (St l1 T1 M1) as (? & ? & _ & _ & _ & _ & E1).
      destruct (St l2 T2 M2) as (? & ? & _ & _ & _ & _ & E2).
      simplify_eq. rewrite E1, E2, D2 by congruence.
      by apply float_lookup. }
    split; [done|]. unfold mbind, M_bind. by rewrite Hc.
  - intros dt mem l1 l2 l3 T1 T2 T3 start n i a b Hdt Hfp M1 M2 M3 Hl1 Hl2 C1 C2 C3 Hi Ha Hb.
    repeat (apply elem_of_cons in Hdt as [->|Hdt]); [..|by apply elem_of_nil in Hdt].
    + by rewrite (output_lane_row fn_sub_F16_F16_F16 mem l1 l2 l3 T1 T2 T3 start n i a b);
        auto.
    + by rewrite (output_lane_row fn_sub_F32_F32_F32 mem l1 l2 l3 T1 T2 T3 start n i a b).
Qed.
End FloatPolicies.

(** Two single-float inputs and a single-float output: both policies
    configure the same kernel. *)
Lemma float_policies_alias_witness :
  let s := fresh_state (tensor_1d F32 (replicate 16 1%Z)) (tensor_1d F32 (replicate 16 2%Z))
                       (tensor_1d F32 (replicate 16 0%Z)) in
  configure (Some 1) (Some 2) (Some 3) WRAP s = configure (Some 1) (Some 2) (Some 3) SATURATE s
  ∧ (configure (Some 1) (Some 2) (Some 3) WRAP;; run (H := build_without_fp16) window_16) s
    = (configure (Some 1) (Some 2) (Some 3) SATURATE;; run (H := build_without_fp16) window_16) s.
Proof.
  intros s.
  refine (proj1 (proj2 (@float_policies_alias build_without_fp16)) F32 s (Some 1) (Some 2) (Some 3)
            1 2 (tensor_1d F32 (replicate 16 1%Z)) (tensor_1d F32 (replicate 16 2%Z))
            window_16 _ _ _ _ _ _ _); concrete.
Defined.

(** ** 16-bit fixed point *)

Section FixedPoint16.
Context `{Build}.
Implicit Types (s : State) (T : ITensor).

(** C10.  Under either policy the table entry for the QS16 triple is the
    very function of the S16 triple; a [configure] that succeeds on tensors
    declared QS16 resolves that function; and run over a row it stores, at
    every position, the wrapped (WRAP) or clamped (SATURATE) 16-bit integer
    difference of the two elements found there, whatever fixed-point
    positions the three tensors carry. *)
Theorem qs16_shares_s16 :
  (∀ policy,
     ∃ f, map_function !! function_to_call policy QS16 QS16 QS16 = Some f
          ∧ map_function !! function_to_call policy S16 S16 S16 = Some f
          ∧ f = match policy with
                | WRAP => fn_sub_wrap_S16_S16_S16
                | SATURATE => fn_sub_saturate_S16_S16_S16
                end)
  ∧ (∀ policy (input1 input2 output : ITensorPtr) s s',
       configure input1 input2 output policy s = (Ok tt, s') →
       (∀ p l T, p ∈ [input1; input2; output] → p = Some l → mem s' !! l = Some T →
                 data_type (info T) = QS16) →
       _func (kernel s')
       = map_function !! function_to_call policy S16 S16 S16)
  ∧ (∀ policy f (mem : Memory) l1 l2 l3 T1 T2 T3 (start : Z) (n i : nat) (a b : Z),
       map_function !! function_to_call policy QS16 QS16 QS16 = Some f →
       mem !! l1 = Some T1 → mem !! l2 = Some T2 → mem !! l3 = Some T3 →
       l3 ≠ l1 → l3 ≠ l2 →
       covers_row T1 start (16 * n) → covers_row T2 start (16 * n) →
       covers_row T3 start (16 * n) →
       i < 16 * n →
       buffer T1 !! (Z.to_nat (offset_first_element (info T1) + start) + i) = Some a →
       buffer T2 !! (Z.to_nat (offset_first_element (info T2) + start) + i) = Some b →
       output_lane (call f (Some l1) (Some l2) (Some l3) (row_window start n) mem) l3
                   (Z.to_nat (offset_first_element (info T3) + start) + i)
       = Some (match policy with
               | WRAP => Lane.wrap_s 16 (a - b)
               | SATURATE => Lane.sat_s 16 (a - b)
               end)).
Proof.
  split; [|split].
  - intros []; eexists; (split; [|split]); try (vm_compute; reflexivity); auto.
  - intros policy input1 input2 output s s' Hc Hty.
    apply configure_resolves in Hc
      as (l1 & l2 & l3 & T1 & T2 & T3 & f & -> & -> & -> & M1 & M2 & M3 & Hf & -> & _).
    assert (D1 : data_type (info T1) = QS16).
    { apply (Hty (Some l1) l1 T1); [|done..]. apply list_elem_of_here. }
    assert (D2 : data_type (info T2) = QS16).
    { apply (Hty (Some l2) l2 T2); [|done..].
      apply list_elem_of_further, list_elem_of_here. }
    assert (D3 : data_type (info T3) = QS16).
    { apply (Hty (Some l3) l3 T3); [|done..].
      do 2 apply list_elem_of_further. apply list_elem_of_here. }
    rewrite D1, D2, D3 in Hf. rewrite <- Hf. by destruct policy.
  - intros policy f mem l1 l2 l3 T1 T2 T3 start n i a b Hf M1 M2 M3 Hl1 Hl2 C1 C2 C3 Hi Ha Hb.
    destruct policy; vm_compute in Hf; simplify_eq.
    + by rewrite (output_lane_row fn_sub_wrap_S16_S16_S16 mem l1 l2 l3 T1 T2 T3 start n i a b).
    + by rewrite (output_lane_row fn_sub_saturate_S16_S16_S16 mem l1 l2 l3 T1 T2 T3
                    start n i a b).
Qed.
End FixedPoint16.

(** QS16 tensors at fixed-point position 5: 30000 - (-30000) wraps to -5536. *)
Lemma qs16_shares_s16_witness :
  let at_position T :=
    with_info T {| tensor_shape := tensor_shape (info T); data_type := data_type (info T);
                   num_channels := num_channels (info T); fixed_point_position := 5;
                   strides := strides (info T);
                   offset_first_element := offset_first_element (info T);
                   padding_right := padding_right (info T);
                   valid_region := valid_region (info T) |} in
  let T1 := at_position (tensor_1d QS16 (replicate 16 30000%Z)) in
  let T2 := at_position (tensor_1d QS16 (replicate 16 (-30000)%Z)) in
  let T3 := at_position (tensor_1d QS16 (replicate 16 0%Z)) in
  output_lane (call (H := build_without_fp16) fn_sub_wrap_S16_S16_S16
                 (Some 1) (Some 2) (Some 3) (row_window 0 1) (memory_of T1 T2 T3)) 3 0
  = Some (Lane.wrap_s 16 (30000 - -30000)).
Proof.
  intros at_position T1 T2 T3.
  refine (proj2 (proj2 (@qs16_shares_s16 build_without_fp16)) WRAP fn_sub_wrap_S16_S16_S16
            (memory_of T1 T2 T3) 1 2 3 T1 T2 T3 0%Z 1 0 30000%Z (-30000)%Z
            _ _ _ _ _ _ _ _ _ _ _ _); concrete.
Defined.

(** ** Whole rows *)

Section WholeRow.
Context `{Build}.
Local Arguments Nat.mul : simpl never.
Local Arguments Z.of_nat : simpl never.

(** X1.  Called on one row of three tensors that do not share the output, a
    compute function returns normally; every tensor but the output is as
    before, the output keeps its metadata, and its buffer is the old one with
    the elements of the row replaced, position by position, by the lane
    operation of the function on the elements of the inputs. *)
Theorem compute_row_result (fn : SubFunction) (mem : Memory)
    (l1 l2 l3 : loc) (T1 T2 T3 : ITensor) (s : Z) (n : nat) :
  (fn = fn_sub_F16_F16_F16 → ARM_COMPUTE_ENABLE_FP16 = true) →
  mem !! l1 = Some T1 → mem !! l2 = Some T2 → mem !! l3 = Some T3 →
  l3 ≠ l1 → l3 ≠ l2 →
  covers_row T1 s (16 * n) → covers_row T2 s (16 * n) → covers_row T3 s (16 * n) →
  let p1 := Z.to_nat (offset_first_element (info T1) + s) in
  let p2 := Z.to_nat (offset_first_element (info T2) + s) in
  let p3 := Z.to_nat (offset_first_element (info T3) + s) in
  ∃ mem' T3',
    call fn (Some l1) (Some l2) (Some l3) (row_window s n) mem = (Ok tt, mem')
    ∧ (∀ l, l ≠ l3 → mem' !! l = mem !! l)
    ∧ mem' !! l3 = Some T3'
    ∧ info T3' = info T3
    ∧ buffer T3'
      = take p3 (buffer T3)
        ++ zip_with (lane_op fn) (take (16 * n) (drop p1 (buffer T1)))
                                 (take (16 * n) (drop p2 (buffer T2)))
        ++ drop (p3 + 16 * n) (buffer T3).
Proof.
  intros Hfp M1 M2 M3 Hl1 Hl2 C1 C2 C3 p1 p2 p3.
  eexists _, _. split; [by apply (call_row fn mem l1 l2 l3 T1 T2 T3)|].
  split; [|split; [|split]].
  - intros l Hl. by rewrite lookup_insert_ne.
  - apply lookup_insert_eq.
  - done.
  - unfold elementwise_row, splice. cbn [buffer with_buffer]. fold p1 p2 p3.
    do 3 f_equal.
    destruct C1 as (_ & ? & ?), C2 as (_ & ? & ?).
    rewrite length_zip_with_l_eq; rewrite !length_take, !length_drop; subst p1 p2; lia.
Qed.
End WholeRow.

(** One step of sixteen signed 16-bit elements, 100 - 1 everywhere. *)
Lemma compute_row_result_witness :
  let T1 := tensor_1d S16 (replicate 16 100%Z) in
  let T2 := tensor_1d S16 (replicate 16 1%Z) in
  let T3 := tensor_1d S16 (replicate 16 0%Z) in
  ∃ mem' T3',
    call (H := build_without_fp16) fn_sub_wrap_S16_S16_S16 (Some 1) (Some 2) (Some 3)
         (row_window 0 1) (memory_of T1 T2 T3) = (Ok tt, mem')
    ∧ (∀ l, l ≠ 3 → mem' !! l = memory_of T1 T2 T3 !! l)
    ∧ mem' !! 3 = Some T3'
    ∧ info T3' = info T3
    ∧ buffer T3'
      = take 0 (buffer T3)
        ++ zip_with (lane_op (H := build_without_fp16) fn_sub_wrap_S16_S16_S16)
             (take 16 (drop 0 (buffer T1))) (take 16 (drop 0 (buffer T2)))
        ++ drop 16 (buffer T3).
Proof.
  intros T1 T2 T3.
  refine (@compute_row_result build_without_fp16 fn_sub_wrap_S16_S16_S16
            (memory_of T1 T2 T3) 1 2 3 T1 T2 T3 0%Z 1 _ _ _ _ _ _ _ _ _); concrete.
Defined.

(** ** The table entries with an integer output *)

Section TableSemantics.
Context `{Build}.
Import Lane LaneFacts.
Local Open Scope Z_scope.

Lemma clamp_to_sat_s16 dt z : dt ∈ [S16; QS16] → clamp_to dt z = sat_s 16 z.
Proof. intros Hdt. repeat (apply elem_of_cons in Hdt as [->|Hdt]); [done..|by apply elem_of_nil in Hdt]. Qed.

(** The lane operation of every table entry with an integer output, on
    operands representable in the two input types: the exact difference,
    wrapped (WRAP) or clamped (SATURATE) to the output type. *)
Lemma table_lane_semantics policy dt1 dt2 dt3 f a b :
  map_function !! function_to_call policy dt1 dt2 dt3 = Some f →
  dt3 ∈ integer_types →
  representable dt1 a → representable dt2 b →
  lane_op f a b
  = match policy with
    | WRAP => wrap_to dt3 (a - b)
    | SATURATE => clamp_to dt3 (a - b)
    end.
Proof.
  intros Hf Hdt Ra Rb. unfold integer_types in Hdt.
  repeat (apply elem_of_cons in Hdt as [->|Hdt]); [..|by apply elem_of_nil in Hdt];
    destruct policy, dt1, dt2; vm_compute in Hf; try discriminate Hf;
    injection Hf as <-; cbn [lane_op wrap_to];
    rewrite ?(widen_u8 a Ra), ?(widen_u8 b Rb); reflexivity.
Qed.

(** Whatever the operands, the lane operation of a table entry with an
    integer output yields a value of the output type. *)
Lemma table_lane_range policy dt1 dt2 dt3 f a b :
  map_function !! function_to_call policy dt1 dt2 dt3 = Some f →
  dt3 ∈ integer_types →
  representable dt3 (lane_op f a b).
Proof.
  intros Hf Hdt. unfold integer_types in Hdt.
  repeat (apply elem_of_cons in Hdt as [->|Hdt]); [..|by apply elem_of_nil in Hdt];
    destruct policy, dt1, dt2; vm_compute in Hf; try discriminate Hf;
    injection Hf as <-; cbn [lane_op]; unfold representable; cbn [type_min type_max];
    first
      [ match goal with
        | |- _ ≤ wrap_u 8 ?z ≤ _ => pose proof (wrap_u_range 8 z ltac:(lia)) as Hr;
                                    unfold in_u in Hr; simpl in Hr; lia
        | |- _ ≤ wrap_s 8 ?z ≤ _ => pose proof (wrap_s_range 8 z ltac:(lia)) as Hr;
                                    unfold in_s in Hr; simpl in Hr; lia
        | |- _ ≤ wrap_s 16 ?z ≤ _ => pose proof (wrap_s_range 16 z ltac:(lia)) as Hr;
                                     unfold in_s in Hr; simpl in Hr; lia
        end
      | unfold sat_u, sat_s; simpl; lia ].
Qed.
End TableSemantics.

Section TableEntries.
Context `{Build}.
Import Lane LaneFacts.
Local Open Scope Z_scope.

Lemma integer_entry_not_f16 policy dt1 dt2 dt3 f :
  map_function !! function_to_call policy dt1 dt2 dt3 = Some f →
  dt3 ∈ integer_types → f ≠ fn_sub_F16_F16_F16.
Proof.
  intros Hf Hdt ->. unfold integer_types in Hdt.
  repeat (apply elem_of_cons in Hdt as [->|Hdt]); [..|by apply elem_of_nil in Hdt];
    destruct policy, dt1, dt2; vm_compute in Hf; discriminate Hf.
Qed.

(** X2.  Whatever function the table holds for a combination of types with an
    integer output (the mixed-width ones included), run over a row it stores
    at every position the exact difference of the two operands found there,
    wrapped (WRAP) or clamped (SATURATE) to the range of the output type,
    provided the operands are values of the two input types. *)
Theorem table_entry_semantics
    (policy : ConvertPolicy) (dt1 dt2 dt3 : DataType) (f : SubFunction) (mem : Memory)
    (l1 l2 l3 : loc) (T1 T2 T3 : ITensor) (s : Z) (n i : nat) (a b : Z) :
  map_function !! function_to_call policy dt1 dt2 dt3 = Some f →
  dt3 ∈ integer_types →
  mem !! l1 = Some T1 → mem !! l2 = Some T2 → mem !! l3 = Some T3 →
  l3 ≠ l1 → l3 ≠ l2 →
  covers_row T1 s (16 * n) → covers_row T2 s (16 * n) → covers_row T3 s (16 * n) →
  (i < 16 * n)%nat →
  buffer T1 !! (Z.to_nat (offset_first_element (info T1) + s) + i)%nat = Some a →
  buffer T2 !! (Z.to_nat (offset_first_element (info T2) + s) + i)%nat = Some b →
  representable dt1 a → representable dt2 b →
  output_lane (call f (Some l1) (Some l2) (Some l3) (row_window s n) mem) l3
              (Z.to_nat (offset_first_element (info T3) + s) + i)%nat
  = Some (match policy with
          | WRAP => wrap_to dt3 (a - b)
          | SATURATE => clamp_to dt3 (a - b)
          end).
Proof.
  intros Hf Hdt M1 M2 M3 Hl1 Hl2 C1 C2 C3 Hi Ha Hb Ra Rb.
  pose proof (integer_entry_not_f16 _ _ _ _ _ Hf Hdt) as Hne.
  rewrite (output_lane_row f mem l1 l2 l3 T1 T2 T3 s n i a b
             (λ E, False_ind _ (Hne E)) M1 M2 M3 Hl1 Hl2 C1 C2 C3 Hi Ha Hb).
  f_equal. exact (table_lane_semantics policy dt1 dt2 dt3 f a b Hf Hdt Ra Rb).
Qed.

(** X3.  Whatever the buffers of the inputs hold, a function the table holds for
    an integer output type stores values of that type only. *)
Theorem table_entry_range
    (policy : ConvertPolicy) (dt1 dt2 dt3 : DataType) (f : SubFunction) (mem : Memory)
    (l1 l2 l3 : loc) (T1 T2 T3 : ITensor) (s : Z) (n i : nat) :
  map_function !! function_to_call policy dt1 dt2 dt3 = Some f →
  dt3 ∈ integer_types →
  mem !! l1 = Some T1 → mem !! l2 = Some T2 → mem !! l3 = Some T3 →
  l3 ≠ l1 → l3 ≠ l2 →
  covers_row T1 s (16 * n) → covers_row T2 s (16 * n) → covers_row T3 s (16 * n) →
  (i < 16 * n)%nat →
  ∃ r, output_lane (call f (Some l1) (Some l2) (Some l3) (row_window s n) mem) l3
                   (Z.to_nat (offset_first_element (info T3) + s) + i)%nat = Some r
       ∧ representable dt3 r.
Proof.
  intros Hf Hdt M1 M2 M3 Hl1 Hl2 C1 C2 C3 Hi.
  pose proof (integer_entry_not_f16 _ _ _ _ _ Hf Hdt) as Hne.
  pose proof C1 as (S1 & P1 & B1). pose proof C2 as (S2 & P2 & B2).
  destruct (lookup_lt_is_Some_2 (buffer T1)
              (Z.to_nat (offset_first_element (info T1) + s) + i)%nat) as [a Ha]; [lia|].
  destruct (lookup_lt_is_Some_2 (buffer T2)
              (Z.to_nat (offset_first_element (info T2) + s) + i)%nat) as [b Hb]; [lia|].
  exists (lane_op f a b). split.
  - exact (output_lane_row f mem l1 l2 l3 T1 T2 T3 s n i a b
             (λ E, False_ind _ (Hne E)) M1 M2 M3 Hl1 Hl2 C1 C2 C3 Hi Ha Hb).
  - exact (table_lane_range policy dt1 dt2 dt3 f a b Hf Hdt).
Qed.

(** X4.  Two unsigned 8-bit inputs with a signed 16-bit output never overflow:
    under either policy the function of the table stores the exact
    difference. *)
Theorem promoted_difference_exact
    (policy : ConvertPolicy) (f : SubFunction) (mem : Memory)
    (l1 l2 l3 : loc) (T1 T2 T3 : ITensor) (s : Z) (n i : nat) (a b : Z) :
  map_function !! function_to_call policy U8 U8 S16 = Some f →
  mem !! l1 = Some T1 → mem !! l2 = Some T2 → mem !! l3 = Some T3 →
  l3 ≠ l1 → l3 ≠ l2 →
  covers_row T1 s (16 * n) → covers_row T2 s (16 * n) → covers_row T3 s (16 * n) →
  (i < 16 * n)%nat →
  buffer T1 !! (Z.to_nat (offset_first_element (info T1) + s) + i)%nat = Some a →
  buffer T2 !! (Z.to_nat (offset_first_element (info T2) + s) + i)%nat = Some b →
  representable U8 a → representable U8 b →
  output_lane (call f (Some l1) (Some l2) (Some l3) (row_window s n) mem) l3
              (Z.to_nat (offset_first_element (info T3) + s) + i)%nat
  = Some (a - b).
Proof.
  intros Hf M1 M2 M3 Hl1 Hl2 C1 C2 C3 Hi Ha Hb Ra Rb.
  assert (Hdt : S16 ∈ integer_types).
  { unfold integer_types. do 2 apply list_elem_of_further. apply list_elem_of_here. }
  pose proof (integer_entry_not_f16 _ _ _ _ _ Hf Hdt) as Hne.
  rewrite (output_lane_row f mem l1 l2 l3 T1 T2 T3 s n i a b
             (λ E, False_ind _ (Hne E)) M1 M2 M3 Hl1 Hl2 C1 C2 C3 Hi Ha Hb).
  f_equal. rewrite (table_lane_semantics policy U8 U8 S16 f a b Hf Hdt Ra Rb).
  unfold representable in Ra, Rb. simpl in Ra, Rb.
  destruct policy; cbn [wrap_to].
  - apply wrap_s_exact; [lia|]. unfold in_s. simpl. lia.
  - unfold clamp_to. simpl. lia.
Qed.
End TableEntries.

(** Signed -32768 minus unsigned 1 under SATURATE. *)
Lemma table_entry_semantics_witness :
  let T1 := tensor_1d S16 (replicate 16 (-32768)%Z) in
  let T2 := tensor_1d U8 (replicate 16 1%Z) in
  let T3 := tensor_1d S16 (replicate 16 0%Z) in
  output_lane (call (H := build_without_fp16) fn_sub_saturate_S16_U8_S16
                 (Some 1) (Some 2) (Some 3) (row_window 0 1) (memory_of T1 T2 T3)) 3 0
  = Some (clamp_to S16 (-32768 - 1)).
Proof.
  intros T1 T2 T3.
  refine (@table_entry_semantics build_without_fp16 SATURATE S16 U8 S16
            fn_sub_saturate_S16_U8_S16 (memory_of T1 T2 T3) 1 2 3 T1 T2 T3
            0%Z 1 0 (-32768)%Z 1%Z _ _ _ _ _ _ _ _ _ _ _ _ _ _ _); concrete.
Defined.

(** 3 - 200 on unsigned 8-bit elements under WRAP stays an unsigned 8-bit value. *)
Lemma table_entry_range_witness :
  let T1 := tensor_1d U8 (replicate 16 3%Z) in
  let T2 := tensor_1d U8 (replicate 16 200%Z) in
  let T3 := tensor_1d U8 (replicate 16 0%Z) in
  ∃ r, output_lane (call (H := build_without_fp16) fn_sub_wrap_U8_U8_U8
                      (Some 1) (Some 2) (Some 3) (row_window 0 1) (memory_of T1 T2 T3)) 3 0
       = Some r
       ∧ representable U8 r.
Proof.
  intros T1 T2 T3.
  refine (@table_entry_range build_without_fp16 WRAP U8 U8 U8
            fn_sub_wrap_U8_U8_U8 (memory_of T1 T2 T3) 1 2 3 T1 T2 T3
            0%Z 1 0 _ _ _ _ _ _ _ _ _ _ _); concrete.
Defined.

(** 0 - 255 with a signed 16-bit output. *)
Lemma promoted_difference_exact_witness :
  let T1 := tensor_1d U8 (replicate 16 0%Z) in
  let T2 := tensor_1d U8 (replicate 16 255%Z) in
  let T3 := tensor_1d S16 (replicate 16 0%Z) in
  output_lane (call (H := build_without_fp16) fn_sub_wrap_U8_U8_S16
                 (Some 1) (Some 2) (Some 3) (row_window 0 1) (memory_of T1 T2 T3)) 3 0
  = Some (0 - 255)%Z.
Proof.
  intros T1 T2 T3.
  refine (@promoted_difference_exact build_without_fp16 WRAP
            fn_sub_wrap_U8_U8_S16 (memory_of T1 T2 T3) 1 2 3 T1 T2 T3
            0%Z 1 0 0%Z 255%Z _ _ _ _ _ _ _ _ _ _ _ _ _ _); concrete.
Defined.

(** ** Splitting a row between calls *)

Section Partition.
Context `{Build}.
Local Arguments Nat.mul : simpl never.
Local Arguments Z.of_nat : simpl never.
Local Arguments Z.mul : simpl never.

Lemma covers_row_prefix T s (n m : nat) :
  covers_row T s (16 * (n + m)) → covers_row T s (16 * n).
Proof. intros (? & ? & ?). repeat split; [done|lia|lia]. Qed.

Lemma covers_row_suffix T s (n m : nat) :
  covers_row T s (16 * (n + m)) → covers_row T (s + 16 * Z.of_nat n) (16 * m).
Proof. intros (? & ? & ?). repeat split; [done|lia|lia]. Qed.

Lemma elementwise_row_append f T1 T2 T3 s (n m : nat) :
  covers_row T1 s (16 * (n + m)) → covers_row T2 s (16 * (n + m)) →
  covers_row T3 s (16 * (n + m)) →
  elementwise_row f T1 T2 (elementwise_row f T1 T2 T3 s (16 * n))
                  (s + 16 * Z.of_nat n) (16 * m)
  = elementwise_row f T1 T2 T3 s (16 * (n + m)).
Proof.
  intros (_ & P1 & B1) (_ & P2 & B2) (_ & P3 & B3).
  unfold elementwise_row, with_buffer. cbn [info buffer]. f_equal.
  set (p1 := Z.to_nat (offset_first_element (info T1) + s)).
  set (p2 := Z.to_nat (offset_first_element (info T2) + s)).
  set (p3 := Z.to_nat (offset_first_element (info T3) + s)).
  replace (Z.to_nat (offset_first_element (info T1) + (s + 16 * Z.of_nat n)))
    with (p1 + 16 * n) by (subst p1; lia).
  replace (Z.to_nat (offset_first_element (info T2) + (s + 16 * Z.of_nat n)))
    with (p2 + 16 * n) by (subst p2; lia).
  replace (Z.to_nat (offset_first_element (info T3) + (s + 16 * Z.of_nat n)))
    with (p3 + 16 * n) by (subst p3; lia).
  rewrite <- !drop_drop.
  replace (16 * (n + m)) with (16 * n + 16 * m) by lia.
  rewrite <- (zip_with_take_chunks f _ _ (16 * n) (16 * m))
    by (rewrite length_drop; subst p1 p2; lia).
  set (u := zip_with f (take (16 * n) _) (take (16 * n) _)).
  assert (Hu : length u = 16 * n).
  { subst u. rewrite length_zip_with_l_eq; rewrite !length_take, !length_drop;
      subst p1 p2; lia. }
  rewrite <- Hu at 1. apply splice_app.
  rewrite Hu, length_zip_with_l_eq; rewrite !length_take, !length_drop;
    subst p1 p2 p3; lia.
Qed.

(** X5.  Processing the first [n] steps of a row in one call and the next [m]
    steps in a second call leaves the memory a single call over the [n + m]
    steps leaves. *)
Theorem row_partition (fn : SubFunction) (mem : Memory)
    (l1 l2 l3 : loc) (T1 T2 T3 : ITensor) (s : Z) (n m : nat) :
  (fn = fn_sub_F16_F16_F16 → ARM_COMPUTE_ENABLE_FP16 = true) →
  mem !! l1 = Some T1 → mem !! l2 = Some T2 → mem !! l3 = Some T3 →
  l3 ≠ l1 → l3 ≠ l2 →
  covers_row T1 s (16 * (n + m)) → covers_row T2 s (16 * (n + m)) →
  covers_row T3 s (16 * (n + m)) →
  (call fn (Some l1) (Some l2) (Some l3) (row_window s n);;
   call fn (Some l1) (Some l2) (Some l3) (row_window (s + 16 * Z.of_nat n) m)) mem
  = call fn (Some l1) (Some l2) (Some l3) (row_window s (n + m)) mem.
Proof.
  intros Hfp M1 M2 M3 Hl1 Hl2 C1 C2 C3.
  rewrite (call_row fn mem l1 l2 l3 T1 T2 T3 s (n + m) Hfp M1 M2 M3 Hl1 Hl2 C1 C2 C3).
  rewrite (bind_ok _ _ _ _ _
             (call_row fn mem l1 l2 l3 T1 T2 T3 s n Hfp M1 M2 M3 Hl1 Hl2
                (covers_row_prefix _ _ _ _ C1) (covers_row_prefix _ _ _ _ C2)
                (covers_row_prefix _ _ _ _ C3))).
  set (T3' := elementwise_row (lane_op fn) T1 T2 T3 s (16 * n)).
  assert (C3' : covers_row T3' (s + 16 * Z.of_nat n) (16 * m)).
  { destruct C3 as (S3 & P3 & B3), C1 as (_ & P1 & B1), C2 as (_ & P2 & B2).
    subst T3'. unfold covers_row, elementwise_row. cbn [info buffer with_buffer].
    rewrite length_splice; [repeat split; [done|lia|lia]|].
    rewrite length_zip_with_l_eq; rewrite !length_take, !length_drop; lia. }
  rewrite (call_row fn _ l1 l2 l3 T1 T2 T3' (s + 16 * Z.of_nat n) m Hfp);
    [|by rewrite lookup_insert_ne|by rewrite lookup_insert_ne|apply lookup_insert_eq
     |done|done|by eapply covers_row_suffix|by eapply covers_row_suffix|done].
  rewrite insert_insert_eq. subst T3'. by rewrite elementwise_row_append.
Qed.
End Partition.

(** One step, then one more, on inputs of thirty-two elements. *)
Lemma row_partition_witness :
  let T1 := tensor_1d U8 (replicate 32 9%Z) in
  let T2 := tensor_1d U8 (replicate 32 4%Z) in
  let T3 := tensor_1d U8 (replicate 32 0%Z) in
  (call (H := build_without_fp16) fn_sub_wrap_U8_U8_U8 (Some 1) (Some 2) (Some 3)
        (row_window 0 1);;
   call (H := build_without_fp16) fn_sub_wrap_U8_U8_U8 (Some 1) (Some 2) (Some 3)
        (row_window (0 + 16 * Z.of_nat 1) 1)) (memory_of T1 T2 T3)
  = call (H := build_without_fp16) fn_sub_wrap_U8_U8_U8 (Some 1) (Some 2) (Some 3)
         (row_window 0 (1 + 1)) (memory_of T1 T2 T3).
Proof.
  intros T1 T2 T3.
  refine (@row_partition build_without_fp16 fn_sub_wrap_U8_U8_U8 (memory_of T1 T2 T3)
            1 2 3 T1 T2 T3 0%Z 1 1 _ _ _ _ _ _ _ _ _); concrete.
Defined.

(** ** Calling twice *)

Section Idempotent.
Context `{Build}.
Local Arguments Nat.mul : simpl never.
Local Arguments Z.of_nat : simpl never.
Local Arguments Z.mul : simpl never.

Lemma splice_splice (b : list Z) (off : nat) (u v : list Z) :
  length u = length v → off + length v ≤ length b →
  splice (splice b off u) off v = splice b off v.
Proof.
  intros Huv Hlen. unfold splice.
  assert (Htake : length (take off b) = off) by (rewrite length_take; lia).
  f_equal.
  - rewrite take_app_le by lia. rewrite take_take. f_equal. lia.
  - f_equal. rewrite drop_app_ge by lia. rewrite Htake.
    rewrite drop_app_ge by lia. rewrite drop_drop. f_equal. lia.
Qed.

(** X6.  A compute function reads its inputs only: called a second time on the
    same row it leaves the memory the first call left. *)
Theorem compute_idempotent (fn : SubFunction) (mem : Memory)
    (l1 l2 l3 : loc) (T1 T2 T3 : ITensor) (s : Z) (n : nat) :
  (fn = fn_sub_F16_F16_F16 → ARM_COMPUTE_ENABLE_FP16 = true) →
  mem !! l1 = Some T1 → mem !! l2 = Some T2 → mem !! l3 = Some T3 →
  l3 ≠ l1 → l3 ≠ l2 →
  covers_row T1 s (16 * n) → covers_row T2 s (16 * n) → covers_row T3 s (16 * n) →
  (call fn (Some l1) (Some l2) (Some l3) (row_window s n);;
   call fn (Some l1) (Some l2) (Some l3) (row_window s n)) mem
  = call fn (Some l1) (Some l2) (Some l3) (row_window s n) mem.
Proof.
  intros Hfp M1 M2 M3 Hl1 Hl2 C1 C2 C3.
  pose proof (call_row fn mem l1 l2 l3 T1 T2 T3 s n Hfp M1 M2 M3 Hl1 Hl2 C1 C2 C3) as Hcall.
  rewrite (bind_ok _ _ _ _ _ Hcall), Hcall.
  set (u := zip_with (lane_op fn)
              (take (16 * n) (drop (Z.to_nat (offset_first_element (info T1) + s)) (buffer T1)))
              (take (16 * n) (drop (Z.to_nat (offset_first_element (info T2) + s)) (buffer T2)))).
  assert (Hu : length u = 16 * n).
  { destruct C1 as (_ & ? & ?), C2 as (_ & ? & ?). subst u.
    rewrite length_zip_with_l_eq; rewrite !length_take, !length_drop; lia. }
  set (T3' := elementwise_row (lane_op fn) T1 T2 T3 s (16 * n)).
  assert (C3' : covers_row T3' s (16 * n)).
  { destruct C3 as (S3 & P3 & B3). subst T3'.
    unfold covers_row, elementwise_row. cbn [info buffer with_buffer]. fold u.
    rewrite length_splice; [repeat split; [done|lia|lia]|lia]. }
  rewrite (call_row fn _ l1 l2 l3 T1 T2 T3' s n Hfp);
    [|by rewrite lookup_insert_ne|by rewrite lookup_insert_ne|apply lookup_insert_eq
     |done|done|done|done|done].
  rewrite insert_insert_eq. do 2 f_equal.
  subst T3'. unfold elementwise_row, with_buffer. cbn [info buffer]. f_equal. fold u.
  destruct C3 as (_ & ? & ?). apply splice_splice; [done|lia].
Qed.
End Idempotent.

(** Two calls on sixteen unsigned 8-bit elements. *)
Lemma compute_idempotent_witness :
  let T1 := tensor_1d U8 (replicate 16 9%Z) in
  let T2 := tensor_1d U8 (replicate 16 4%Z) in
  let T3 := tensor_1d U8 (replicate 16 0%Z) in
  (call (H := build_without_fp16) fn_sub_saturate_U8_U8_U8 (Some 1) (Some 2) (Some 3)
        (row_window 0 1);;
   call (H := build_without_fp16) fn_sub_saturate_U8_U8_U8 (Some 1) (Some 2) (Some 3)
        (row_window 0 1)) (memory_of T1 T2 T3)
  = call (H := build_without_fp16) fn_sub_saturate_U8_U8_U8 (Some 1) (Some 2) (Some 3)
         (row_window 0 1) (memory_of T1 T2 T3).
Proof.
  intros T1 T2 T3.
  refine (@compute_idempotent build_without_fp16 fn_sub_saturate_U8_U8_U8 (memory_of T1 T2 T3)
            1 2 3 T1 T2 T3 0%Z 1 _ _ _ _ _ _ _ _ _); concrete.
Defined.

(** ** Handles that share a tensor *)

Section RowLoopShared.
Local Open Scope Z_scope.
Local Arguments Nat.mul : simpl never.
Local Arguments Z.mul : simpl never.
Local Arguments Z.of_nat : simpl never.

Lemma drop_splice (b : list Z) (off : nat) (u : list Z) (m : nat) :
  (off + length u ≤ length b)%nat → (off + length u ≤ m)%nat →
  drop m (splice b off u) = drop m b.
Proof.
  intros Hlen Hm. unfold splice.
  assert (Htake : length (take off b) = off) by (rewrite length_take; lia).
  rewrite drop_app_ge by lia. rewrite Htake.
  rewrite drop_app_ge by lia. rewrite drop_drop. f_equal. lia.
Qed.

Context (f : Z → Z → Z)
        (body : Coordinates → Iterator → Iterator → Iterator → M Memory unit)
        (Hbody : body_spec f body).
Context (l1 l2 l3 : loc).
Context (g : nat → Coordinates) (J1 J2 J3 : Coordinates → Iterator) (p1 p2 p3 : nat)
        (Ht1 : ∀ j, it_tensor (J1 (g j)) = Some l1)
        (Ht2 : ∀ j, it_tensor (J2 (g j)) = Some l2)
        (Ht3 : ∀ j, it_tensor (J3 (g j)) = Some l3)
        (Ho1 : ∀ j, it_offset (J1 (g j)) = Z.of_nat (p1 + 16 * j))
        (Ho2 : ∀ j, it_offset (J2 (g j)) = Z.of_nat (p2 + 16 * j))
        (Ho3 : ∀ j, it_offset (J3 (g j)) = Z.of_nat (p3 + 16 * j))
        (Ha1 : l1 = l3 → p1 = p3)
        (Ha2 : l2 = l3 → p2 = p3).

(** [n] iterations from step [k] on, over cursors that advance by sixteen
    elements per step.  The output may be one of the inputs: an iteration
    reads its sixteen elements before it writes them, and no later iteration
    reads them again. *)
Lemma for_each_steps : ∀ (n k : nat) (mem : Memory) (T1 T2 T3 : ITensor),
  mem !! l1 = Some T1 → mem !! l2 = Some T2 → mem !! l3 = Some T3 →
  (p1 + 16 * (k + n) ≤ length (buffer T1))%nat →
  (p2 + 16 * (k + n) ≤ length (buffer T2))%nat →
  (p3 + 16 * (k + n) ≤ length (buffer T3))%nat →
  for_each (g <$> seq k n) (λ id, body id (J1 id) (J2 id) (J3 id)) mem
  = (Ok tt,
     <[l3 := with_buffer T3
        (splice (buffer T3) (p3 + 16 * k)
           (zip_with f
              (take (16 * n) (drop (p1 + 16 * k) (buffer T1)))
              (take (16 * n) (drop (p2 + 16 * k) (buffer T2)))))]> mem).
Proof.
  induction n as [|n IH]; intros k mem T1 T2 T3 M1 M2 M3 B1 B2 B3.
  - simpl. rewrite splice_nil, with_buffer_id. by rewrite insert_id.
  - change (seq k (S n)) with (k :: seq (S k) n).
    rewrite fmap_cons. cbn [for_each].
    erewrite bind_ok; last first.
    { eapply (Hbody (g k) (J1 (g k)) (J2 (g k)) (J3 (g k)) mem l1 l2 l3 T1 T2 T3);
        try done; rewrite ?Ho1, ?Ho2, ?Ho3; apply in_bounds_spec; lia. }
    rewrite Ho1, Ho2, Ho3.
    unfold elementwise_step. rewrite !Nat2Z.id.
    set (u0 := zip_with f (take 16 (drop (p1 + 16 * k) (buffer T1)))
                          (take 16 (drop (p2 + 16 * k) (buffer T2)))).
    assert (Hu0 : length u0 = 16%nat).
    { subst u0. rewrite length_zip_with_l_eq; rewrite !length_take, !length_drop; lia. }
    set (T3' := with_buffer T3 (splice (buffer T3) (p3 + 16 * k) u0)).
    assert (Hlen : length (buffer T3') = length (buffer T3)).
    { subst T3'. simpl. rewrite length_splice; [done|]. rewrite Hu0. lia. }
    set (T1' := if decide (l1 = l3) then T3' else T1).
    set (T2' := if decide (l2 = l3) then T3' else T2).
    assert (M1' : <[l3 := T3']> mem !! l1 = Some T1').
    { subst T1'. destruct (decide (l1 = l3)) as [->|?];
        [apply lookup_insert_eq|by rewrite lookup_insert_ne]. }
    assert (M2' : <[l3 := T3']> mem !! l2 = Some T2').
    { subst T2'. destruct (decide (l2 = l3)) as [->|?];
        [apply lookup_insert_eq|by rewrite lookup_insert_ne]. }
    assert (L1 : length (buffer T1') = length (buffer T1)).
    { subst T1'. destruct (decide (l1 = l3)) as [->|?]; [|done]. rewrite Hlen. congruence. }
    assert (L2 : length (buffer T2') = length (buffer T2)).
    { subst T2'. destruct (decide (l2 = l3)) as [->|?]; [|done]. rewrite Hlen. congruence. }
    assert (D1 : drop (p1 + 16 * S k) (buffer T1') = drop (p1 + 16 * S k) (buffer T1)).
    { subst T1'. destruct (decide (l1 = l3)) as [E|?]; [|done].
      pose proof (Ha1 E) as Hp. rewrite E in M1. assert (T1 = T3) as E' by congruence.
      rewrite E'. subst T3'. simpl. apply drop_splice; rewrite Hu0; lia. }
    assert (D2 : drop (p2 + 16 * S k) (buffer T2') = drop (p2 + 16 * S k) (buffer T2)).
    { subst T2'. destruct (decide (l2 = l3)) as [E|?]; [|done].
      pose proof (Ha2 E) as Hp. rewrite E in M2. assert (T2 = T3) as E' by congruence.
      rewrite E'. subst T3'. simpl. apply drop_splice; rewrite Hu0; lia. }
    rewrite (IH (S k) _ T1' T2' T3'); rewrite ?lookup_insert_eq; try done; try lia.
    rewrite D1, D2.
    rewrite insert_insert_eq. do 2 f_equal.
    subst T3'. unfold with_buffer. simpl. f_equal.
    set (q3 := (p3 + 16 * k)%nat).
    set (q1 := (p1 + 16 * k)%nat) in *.
    set (q2 := (p2 + 16 * k)%nat) in *.
    replace (p3 + 16 * S k)%nat with (q3 + 16)%nat by lia.
    replace (p1 + 16 * S k)%nat with (q1 + 16)%nat by lia.
    replace (p2 + 16 * S k)%nat with (q2 + 16)%nat by lia.
    rewrite <- !drop_drop.
    replace (16 * S n)%nat with (16 + 16 * n)%nat by lia.
    rewrite <- (zip_with_take_chunks f _ _ 16 (16 * n))
      by (rewrite length_drop; lia).
    fold u0.
    rewrite <- Hu0 at 1. apply splice_app.
    rewrite Hu0, length_zip_with_l_eq; rewrite !length_take, !length_drop; lia.
Qed.
End RowLoopShared.

Section KernelRowShared.
Local Arguments Nat.mul : simpl never.
Local Arguments Z.mul : simpl never.
Local Arguments Z.of_nat : simpl never.

Lemma kernel_row_shared f body (mem : Memory) l1 l2 l3 T1 T2 T3 s n :
  body_spec f body →
  mem !! l1 = Some T1 → mem !! l2 = Some T2 → mem !! l3 = Some T3 →
  covers_row T1 s (16 * n) → covers_row T2 s (16 * n) → covers_row T3 s (16 * n) →
  (input1 ← Iterator_new (Some l1) (row_window s n);
   input2 ← Iterator_new (Some l2) (row_window s n);
   output ← Iterator_new (Some l3) (row_window s n);
   execute_window_loop (row_window s n) body input1 input2 output) mem
  = (Ok tt, <[l3 := elementwise_row f T1 T2 T3 s (16 * n)]> mem).
Proof.
  intros Hbody M1 M2 M3 (S1 & P1 & B1) (S2 & P2 & B2) (S3 & P3 & B3).
  rewrite (bind_ok _ _ _ _ _ (Iterator_new_ok _ _ _ _ M1)).
  rewrite (bind_ok _ _ _ _ _ (Iterator_new_ok _ _ _ _ M2)).
  rewrite (bind_ok _ _ _ _ _ (Iterator_new_ok _ _ _ _ M3)).
  unfold execute_window_loop. rewrite window_positions_row.
  destruct (strides (info T1)) as [|? r1] eqn:E1; simplify_eq/=.
  destruct (strides (info T2)) as [|? r2] eqn:E2; simplify_eq/=.
  destruct (strides (info T3)) as [|? r3] eqn:E3; simplify_eq/=.
  match goal with
  | |- for_each _ (λ id, body id (seek ?a id) (seek ?b id) (seek ?c id)) _ = _ =>
      set (i1 := a); set (i2 := b); set (i3 := c)
  end.
  assert (O : ∀ (i : Iterator) (r : list Z) (j : nat),
            it_strides i = 1%Z :: r → (0 ≤ it_first i + s)%Z →
            it_offset (seek i [(s + Z.of_nat j * 16)%Z])
            = Z.of_nat (Z.to_nat (it_first i + s) + 16 * j)).
  { intros i r j Hs Hp. rewrite (seek_row _ _ _ Hs). lia. }
  rewrite (for_each_steps f body Hbody l1 l2 l3
             (λ j : nat, [(s + Z.of_nat j * 16)%Z]) (seek i1) (seek i2) (seek i3)
             (Z.to_nat (offset_first_element (info T1) + s))
             (Z.to_nat (offset_first_element (info T2) + s))
             (Z.to_nat (offset_first_element (info T3) + s)))
    with (T1 := T1) (T2 := T2) (T3 := T3);
    [|done|done|done
     |intros j; by apply (O i1 r1)|intros j; by apply (O i2 r2)|intros j; by apply (O i3 r3)
     |intros ->; congruence|intros ->; congruence|done|done|done|lia|lia|lia].
  simpl. unfold elementwise_row. by rewrite !Nat.add_0_r.
Qed.

Context `{Build}.

Lemma call_row_shared (fn : SubFunction) (mem : Memory) l1 l2 l3 T1 T2 T3 s n :
  (fn = fn_sub_F16_F16_F16 → ARM_COMPUTE_ENABLE_FP16 = true) →
  mem !! l1 = Some T1 → mem !! l2 = Some T2 → mem !! l3 = Some T3 →
  covers_row T1 s (16 * n) → covers_row T2 s (16 * n) → covers_row T3 s (16 * n) →
  call fn (Some l1) (Some l2) (Some l3) (row_window s n) mem
  = (Ok tt, <[l3 := elementwise_row (lane_op fn) T1 T2 T3 s (16 * n)]> mem).
Proof.
  intros Hfp M1 M2 M3 C1 C2 C3.
  destruct fn; cbn [call lane_op].
  - by apply kernel_row_shared; [apply body_spec_contiguous|..].
  - by apply kernel_row_shared; [apply body_spec_contiguous|..].
  - by apply kernel_row_shared; [apply body_spec_contiguous|..].
  - by apply kernel_row_shared; [apply body_spec_contiguous|..].
  - by apply kernel_row_shared; [apply body_spec_interleaved2|..].
  - by apply kernel_row_shared; [apply body_spec_interleaved2|..].
  - unfold sub_F16_F16_F16. rewrite Hfp by done.
    by apply kernel_row_shared; [apply body_spec_interleaved2_f16|..].
  - by apply kernel_row_shared; [apply body_spec_interleaved4|..].
  - by apply kernel_row_shared;
      [apply (body_spec_widen_second (λ x y, Lane.wrap_s 16 (x - y)))|..].
  - by apply kernel_row_shared;
      [apply (body_spec_widen_second (λ x y, Lane.sat_s 16 (x - y)))|..].
  - by apply kernel_row_shared;
      [apply (body_spec_widen_first (λ x y, Lane.wrap_s 16 (x - y)))|..].
  - by apply kernel_row_shared;
      [apply (body_spec_widen_first (λ x y, Lane.sat_s 16 (x - y)))|..].
  - by apply kernel_row_shared;
      [apply (body_spec_widen_both (λ x y, Lane.wrap_s 16 (x - y)))|..].
  - by apply kernel_row_shared;
      [apply (body_spec_widen_both (λ x y, Lane.sat_s 16 (x - y)))|..].
Qed.

(** X7.  In place.  With the output handle equal to the first input handle, a
    compute function whose output has the element type of its first input
    replaces, over a row, every element [x] of the row by the lane operation
    on [x] and the element of the second input at the same position: it
    reads the sixteen elements of a step before it writes them and no later
    step reads them again.  The second input may be the same tensor as well,
    when the function reads it with that element type too.  (A function that
    reads and writes the shared buffer with different element widths is left
    out: a buffer is modelled as the sequence of its elements.) *)
Theorem compute_in_place (fn : SubFunction) (mem : Memory)
    (l l2 : loc) (T T2 : ITensor) (s : Z) (n : nat) :
  (fn = fn_sub_F16_F16_F16 → ARM_COMPUTE_ENABLE_FP16 = true) →
  input1_type fn = output_type fn →
  (l2 = l → input2_type fn = output_type fn) →
  mem !! l = Some T → mem !! l2 = Some T2 →
  covers_row T s (16 * n) → covers_row T2 s (16 * n) →
  let p := Z.to_nat (offset_first_element (info T) + s) in
  let p2 := Z.to_nat (offset_first_element (info T2) + s) in
  ∃ mem' T',
    call fn (Some l) (Some l2) (Some l) (row_window s n) mem = (Ok tt, mem')
    ∧ (∀ l', l' ≠ l → mem' !! l' = mem !! l')
    ∧ mem' !! l = Some T'
    ∧ info T' = info T
    ∧ buffer T'
      = take p (buffer T)
        ++ zip_with (lane_op fn) (take (16 * n) (drop p (buffer T)))
                                 (take (16 * n) (drop p2 (buffer T2)))
        ++ drop (p + 16 * n) (buffer T).
Proof.
  intros Hfp _ _ M1 M2 C1 C2 p p2.
  eexists _, _. split; [by apply (call_row_shared fn mem l l2 l T T2 T)|].
  split; [|split; [|split]].
  - intros l' Hl. by rewrite lookup_insert_ne.
  - apply lookup_insert_eq.
  - done.
  - unfold elementwise_row, splice. cbn [buffer with_buffer]. fold p p2.
    do 3 f_equal.
    destruct C1 as (_ & ? & ?), C2 as (_ & ? & ?).
    rewrite length_zip_with_l_eq; rewrite !length_take, !length_drop; subst p p2; lia.
Qed.
End KernelRowShared.

(** Sixteen signed 16-bit elements, each replaced by itself minus 1. *)
Lemma compute_in_place_witness :
  let T := tensor_1d S16 (replicate 16 100%Z) in
  let T2 := tensor_1d S16 (replicate 16 1%Z) in
  let mem : Memory := <[1%nat := T]> (<[2%nat := T2]> ∅) in
  ∃ mem' T',
    call (H := build_without_fp16) fn_sub_wrap_S16_S16_S16 (Some 1) (Some 2) (Some 1)
         (row_window 0 1) mem = (Ok tt, mem')
    ∧ (∀ l', l' ≠ 1 → mem' !! l' = mem !! l')
    ∧ mem' !! 1 = Some T'
    ∧ info T' = info T
    ∧ buffer T'
      = take 0 (buffer T)
        ++ zip_with (lane_op (H := build_without_fp16) fn_sub_wrap_S16_S16_S16)
             (take 16 (drop 0 (buffer T))) (take 16 (drop 0 (buffer T2)))
        ++ drop 16 (buffer T).
Proof.
  intros T T2 mem.
  refine (@compute_in_place build_without_fp16 fn_sub_wrap_S16_S16_S16
            mem 1 2 T T2 0%Z 1 _ _ _ _ _ _ _); concrete.
Defined.

(** ** Windows of several rows *)

Section BlockWindow.
Local Open Scope Z_scope.
Local Arguments Nat.mul : simpl never.
Local Arguments Z.mul : simpl never.
Local Arguments Z.of_nat : simpl never.

Lemma dim_values_unit (s : Z) (h : nat) :
  dim_values {| d_start := s; d_end := s + Z.of_nat h; d_step := 1 |}
  = Some ((λ k : nat, s + Z.of_nat k * 1) <$> seq 0 h).
Proof.
  unfold dim_values. simpl. case_bool_decide as Hn.
  - by replace h with 0%nat by lia.
  - do 3 f_equal.
    replace (s + Z.of_nat h - s + 1 - 1) with (Z.of_nat h) by lia.
    rewrite Z.div_1_r. lia.
Qed.

Lemma bind_rows {A B} (gy : A → Z) (xs : list B) (c : B → Z) (L : list A) :
  ((λ y, [y]) <$> (gy <$> L)) ≫= (λ o, (λ x, x :: o) <$> (c <$> xs))
  = L ≫= (λ j, (λ k, [c k; gy j]) <$> xs).
Proof.
  induction L as [|a L IH]; [done|].
  rewrite !fmap_cons, !bind_cons, IH. f_equal.
  by rewrite <- list_fmap_compose.
Qed.

(** The positions of a block, row after row. *)
Lemma window_positions_block (sx sy : Z) (n h : nat) :
  window_positions (block_window sx sy n h)
  = Some (seq 0 h ≫= (λ j : nat,
            (λ k : nat, [sx + Z.of_nat k * 16; sy + Z.of_nat j * 1]) <$> seq 0 n)).
Proof.
  unfold block_window. cbn [window_positions].
  rewrite dim_values_unit, dim_values_row. cbn [mbind option_bind].
  cbn [list_bind]. rewrite app_nil_r.
  destruct h as [|h]; [done|].
  destruct ((λ x : Z, [x]) <$> ((λ k : nat, sy + Z.of_nat k * 1) <$> seq 0 (S h)))
    as [|o os] eqn:E; [discriminate E|].
  rewrite <- E. f_equal.
  apply (bind_rows (λ k : nat, sy + Z.of_nat k * 1) (seq 0 n)
           (λ k : nat, sx + Z.of_nat k * 16)).
Qed.

Lemma seek_block (it : Iterator) (x y w : Z) (r : list Z) :
  it_strides it = 1 :: w :: r → it_offset (seek it [x; y]) = it_first it + x + y * w.
Proof. intros Hs. unfold seek, dot. simpl. rewrite Hs. simpl. lia. Qed.

Lemma for_each_app {S A} (l l' : list A) (f : A → M S unit) (s : S) :
  for_each (l ++ l') f s = (for_each l f;; for_each l' f) s.
Proof.
  revert s. induction l as [|a l IH]; intros s; simpl.
  - done.
  - unfold mbind, M_bind in *. destruct (f a s) as [[[]|e] s1]; [|done]. apply IH.
Qed.
End BlockWindow.

Section BlockLoop.
Local Arguments Nat.mul : simpl never.
Local Arguments Z.mul : simpl never.
Local Arguments Z.of_nat : simpl never.

Context (f : Z → Z → Z)
        (body : Coordinates → Iterator → Iterator → Iterator → M Memory unit)
        (Hbody : body_spec f body).
Context (l1 l2 l3 : loc) (Hl1 : l3 ≠ l1) (Hl2 : l3 ≠ l2).
Context (sx sy : Z) (n h q1 w1 q2 w2 q3 w3 : nat).
Context (i1 i2 i3 : Iterator) (r1 r2 r3 : list Z)
        (Ht1 : it_tensor i1 = Some l1) (Ht2 : it_tensor i2 = Some l2)
        (Ht3 : it_tensor i3 = Some l3)
        (Hs1 : it_strides i1 = 1%Z :: Z.of_nat w1 :: r1)
        (Hs2 : it_strides i2 = 1%Z :: Z.of_nat w2 :: r2)
        (Hs3 : it_strides i3 = 1%Z :: Z.of_nat w3 :: r3)
        (Hq1 : (it_first i1 + sx + sy * Z.of_nat w1)%Z = Z.of_nat q1)
        (Hq2 : (it_first i2 + sx + sy * Z.of_nat w2)%Z = Z.of_nat q2)
        (Hq3 : (it_first i3 + sx + sy * Z.of_nat w3)%Z = Z.of_nat q3).
Context (T1 T2 : ITensor)
        (B1 : ∀ j, j < h → q1 + j * w1 + 16 * n ≤ length (buffer T1))
        (B2 : ∀ j, j < h → q2 + j * w2 + 16 * n ≤ length (buffer T2)).

(** The rows [js] of the block, one after the other. *)
Lemma for_each_rows (js : list nat) : ∀ (mem : Memory) (T3 : ITensor),
  mem !! l1 = Some T1 → mem !! l2 = Some T2 → mem !! l3 = Some T3 →
  (∀ j, j ∈ js → q3 + j * w3 + 16 * n ≤ length (buffer T3)) →
  (∀ j, j ∈ js → j < h) →
  for_each (js ≫= (λ j : nat,
                     (λ k : nat, [(sx + Z.of_nat k * 16)%Z; (sy + Z.of_nat j * 1)%Z]) <$> seq 0 n))
           (λ id, body id (seek i1 id) (seek i2 id) (seek i3 id)) mem
  = (Ok tt,
     <[l3 := with_buffer T3
               (write_rows f (buffer T1) (buffer T2) q1 w1 q2 w2 q3 w3 (16 * n) js (buffer T3))]>
       mem).
Proof.
  induction js as [|j js IH]; intros mem T3 M1 M2 M3 B3 Hjs.
  - simpl. rewrite with_buffer_id. by rewrite insert_id.
  - rewrite bind_cons, for_each_app.
    assert (Hj : j < h) by (apply Hjs, list_elem_of_here).
    pose proof (B1 j Hj) as B1j. pose proof (B2 j Hj) as B2j.
    pose proof (B3 j (list_elem_of_here _ _)) as B3j.
    assert (O : ∀ (i : Iterator) (q w : nat) (r : list Z) (k : nat),
              it_strides i = 1%Z :: Z.of_nat w :: r →
              (it_first i + sx + sy * Z.of_nat w)%Z = Z.of_nat q →
              it_offset (seek i [(sx + Z.of_nat k * 16)%Z; (sy + Z.of_nat j * 1)%Z])
              = Z.of_nat (q + j * w + 16 * k)).
    { intros i q w r k Hs Hq. rewrite (seek_block _ _ _ _ _ Hs). lia. }
    erewrite bind_ok; last first.
    { apply (for_each_steps f body Hbody l1 l2 l3
               (λ k : nat, [(sx + Z.of_nat k * 16)%Z; (sy + Z.of_nat j * 1)%Z])
               (seek i1) (seek i2) (seek i3)
               (q1 + j * w1) (q2 + j * w2) (q3 + j * w3));
        [done|done|done
        |intros k; by apply (O i1 q1 w1 r1)|intros k; by apply (O i2 q2 w2 r2)
        |intros k; by apply (O i3 q3 w3 r3)
        |intros ->; congruence|intros ->; congruence
        |exact M1|exact M2|exact M3|lia|lia|lia]. }
    rewrite !Nat.mul_0_r, !Nat.add_0_r.
    set (u := zip_with f (take (16 * n) (drop (q1 + j * w1) (buffer T1)))
                         (take (16 * n) (drop (q2 + j * w2) (buffer T2)))).
    assert (Hu : length u = 16 * n).
    { subst u. rewrite length_zip_with_l_eq; rewrite !length_take, !length_drop; lia. }
    set (T3' := with_buffer T3 (splice (buffer T3) (q3 + j * w3) u)).
    assert (Hlen : length (buffer T3') = length (buffer T3)).
    { subst T3'. simpl. apply length_splice. lia. }
    rewrite (IH _ T3');
      [|by rewrite lookup_insert_ne|by rewrite lookup_insert_ne|apply lookup_insert_eq
       |intros j' Hj'; rewrite Hlen; by apply B3, list_elem_of_further
       |intros j' Hj'; by apply Hjs, list_elem_of_further].
    rewrite insert_insert_eq. reflexivity.
Qed.
End BlockLoop.

Section KernelBlock.
Local Arguments Nat.mul : simpl never.
Local Arguments Z.mul : simpl never.
Local Arguments Z.of_nat : simpl never.

Lemma covers_block_strides T sx sy len h q w :
  covers_block T sx sy len h q w → ∃ r, strides (info T) = 1%Z :: Z.of_nat w :: r.
Proof.
  intros (Hs & _). destruct (strides (info T)) as [|a [|b r]]; simplify_eq/=. by exists r.
Qed.

(** A compute function of the common form over a block of rows. *)
Lemma kernel_block f body (mem : Memory) l1 l2 l3 T1 T2 T3 sx sy n h q1 w1 q2 w2 q3 w3 :
  body_spec f body →
  mem !! l1 = Some T1 → mem !! l2 = Some T2 → mem !! l3 = Some T3 →
  l3 ≠ l1 → l3 ≠ l2 →
  covers_block T1 sx sy (16 * n) h q1 w1 → covers_block T2 sx sy (16 * n) h q2 w2 →
  covers_block T3 sx sy (16 * n) h q3 w3 →
  (input1 ← Iterator_new (Some l1) (block_window sx sy n h);
   input2 ← Iterator_new (Some l2) (block_window sx sy n h);
   output ← Iterator_new (Some l3) (block_window sx sy n h);
   execute_window_loop (block_window sx sy n h) body input1 input2 output) mem
  = (Ok tt,
     <[l3 := with_buffer T3
               (write_rows f (buffer T1) (buffer T2) q1 w1 q2 w2 q3 w3 (16 * n) (seq 0 h)
                  (buffer T3))]> mem).
Proof.
  intros Hbody M1 M2 M3 Hl1 Hl2 C1 C2 C3.
  destruct (covers_block_strides _ _ _ _ _ _ _ C1) as [r1 S1].
  destruct (covers_block_strides _ _ _ _ _ _ _ C2) as [r2 S2].
  destruct (covers_block_strides _ _ _ _ _ _ _ C3) as [r3 S3].
  destruct C1 as (_ & Q1 & B1), C2 as (_ & Q2 & B2), C3 as (_ & Q3 & B3).
  rewrite (bind_ok _ _ _ _ _ (Iterator_new_ok _ _ _ _ M1)).
  rewrite (bind_ok _ _ _ _ _ (Iterator_new_ok _ _ _ _ M2)).
  rewrite (bind_ok _ _ _ _ _ (Iterator_new_ok _ _ _ _ M3)).
  unfold execute_window_loop. rewrite window_positions_block.
  apply (for_each_rows f body Hbody l1 l2 l3 Hl1 Hl2 sx sy n h q1 w1 q2 w2 q3 w3 _ _ _ r1 r2 r3);
    try done.
  - intros j Hj. apply B3. apply elem_of_seq in Hj. lia.
  - intros j Hj. apply elem_of_seq in Hj. lia.
Qed.

Context `{Build}.

Lemma call_block (fn : SubFunction) (mem : Memory) l1 l2 l3 T1 T2 T3
    sx sy n h q1 w1 q2 w2 q3 w3 :
  (fn = fn_sub_F16_F16_F16 → ARM_COMPUTE_ENABLE_FP16 = true) →
  mem !! l1 = Some T1 → mem !! l2 = Some T2 → mem !! l3 = Some T3 →
  l3 ≠ l1 → l3 ≠ l2 →
  covers_block T1 sx sy (16 * n) h q1 w1 → covers_block T2 sx sy (16 * n) h q2 w2 →
  covers_block T3 sx sy (16 * n) h q3 w3 →
  call fn (Some l1) (Some l2) (Some l3) (block_window sx sy n h) mem
  = (Ok tt,
     <[l3 := with_buffer T3
               (write_rows (lane_op fn) (buffer T1) (buffer T2) q1 w1 q2 w2 q3 w3 (16 * n)
                  (seq 0 h) (buffer T3))]> mem).
Proof.
  intros Hfp M1 M2 M3 Hl1 Hl2 C1 C2 C3.
  destruct fn; cbn [call lane_op].
  - by apply kernel_block; [apply body_spec_contiguous|..].
  - by apply kernel_block; [apply body_spec_contiguous|..].
  - by apply kernel_block; [apply body_spec_contiguous|..].
  - by apply kernel_block; [apply body_spec_contiguous|..].
  - by apply kernel_block; [apply body_spec_interleaved2|..].
  - by apply kernel_block; [apply body_spec_interleaved2|..].
  - unfold sub_F16_F16_F16. rewrite Hfp by done.
    by apply kernel_block; [apply body_spec_interleaved2_f16|..].
  - by apply kernel_block; [apply body_spec_interleaved4|..].
  - by apply kernel_block; [apply (body_spec_widen_second (λ x y, Lane.wrap_s 16 (x - y)))|..].
  - by apply kernel_block; [apply (body_spec_widen_second (λ x y, Lane.sat_s 16 (x - y)))|..].
  - by apply kernel_block; [apply (body_spec_widen_first (λ x y, Lane.wrap_s 16 (x - y)))|..].
  - by apply kernel_block; [apply (body_spec_widen_first (λ x y, Lane.sat_s 16 (x - y)))|..].
  - by apply kernel_block; [apply (body_spec_widen_both (λ x y, Lane.wrap_s 16 (x - y)))|..].
  - by apply kernel_block; [apply (body_spec_widen_both (λ x y, Lane.sat_s 16 (x - y)))|..].
Qed.
End KernelBlock.

Section WriteRows.
Local Arguments Nat.mul : simpl never.

Context (f : Z → Z → Z) (b1 b2 : list Z) (q1 w1 q2 w2 q3 w3 len h : nat).
Context (B1 : ∀ j, j < h → q1 + j * w1 + len ≤ length b1)
        (B2 : ∀ j, j < h → q2 + j * w2 + len ≤ length b2).

Lemma length_row (j : nat) :
  j < h →
  length (zip_with f (take len (drop (q1 + j * w1) b1)) (take len (drop (q2 + j * w2) b2)))
  = len.
Proof.
  intros Hj. pose proof (B1 j Hj). pose proof (B2 j Hj).
  rewrite length_zip_with_l_eq; rewrite !length_take, !length_drop; lia.
Qed.

Lemma length_write_rows (js : list nat) : ∀ b3 : list Z,
  (∀ j, j ∈ js → j < h ∧ q3 + j * w3 + len ≤ length b3) →
  length (write_rows f b1 b2 q1 w1 q2 w2 q3 w3 len js b3) = length b3.
Proof.
  induction js as [|j js IH]; intros b3 Hjs; [done|]. cbn [write_rows].
  destruct (Hjs j (list_elem_of_here _ _)) as [Hj Bj].
  assert (Hl : length (splice b3 (q3 + j * w3)
                 (zip_with f (take len (drop (q1 + j * w1) b1))
                             (take len (drop (q2 + j * w2) b2)))) = length b3).
  { apply length_splice. by rewrite length_row. }
  rewrite IH; [done|]. intros j' Hj'. rewrite Hl. by apply Hjs, list_elem_of_further.
Qed.

(** An element outside every row written is kept. *)
Lemma lookup_write_rows_out (idx : nat) (js : list nat) : ∀ b3 : list Z,
  (∀ j, j ∈ js → j < h ∧ q3 + j * w3 + len ≤ length b3) →
  (∀ j, j ∈ js → ¬ (q3 + j * w3 ≤ idx < q3 + j * w3 + len)) →
  write_rows f b1 b2 q1 w1 q2 w2 q3 w3 len js b3 !! idx = b3 !! idx.
Proof.
  induction js as [|j js IH]; intros b3 Hjs Hout; [done|]. cbn [write_rows].
  destruct (Hjs j (list_elem_of_here _ _)) as [Hj Bj].
  pose proof (Hout j (list_elem_of_here _ _)) as Hoj.
  pose proof (length_row j Hj) as Hu.
  rewrite IH.
  - apply lookup_splice_out; rewrite Hu; lia.
  - intros j' Hj'. rewrite length_splice by (rewrite Hu; lia).
    by apply Hjs, list_elem_of_further.
  - intros j' Hj'. by apply Hout, list_elem_of_further.
Qed.

(** An element of a row written holds the result for its position, when
    the rows do not overlap. *)
Lemma lookup_write_rows_in (j i : nat) (a b : Z) (js : list nat) : ∀ b3 : list Z,
  NoDup js → j ∈ js → len ≤ w3 → i < len →
  (∀ j', j' ∈ js → j' < h ∧ q3 + j' * w3 + len ≤ length b3) →
  b1 !! (q1 + j * w1 + i) = Some a → b2 !! (q2 + j * w2 + i) = Some b →
  write_rows f b1 b2 q1 w1 q2 w2 q3 w3 len js b3 !! (q3 + j * w3 + i) = Some (f a b).
Proof.
  induction js as [|j0 js IH]; intros b3 Hnd Hin Hw Hi Hjs Ha Hb.
  { by apply elem_of_nil in Hin. }
  cbn [write_rows].
  destruct (Hjs j0 (list_elem_of_here _ _)) as [Hj0 Bj0].
  pose proof (length_row j0 Hj0) as Hu.
  apply NoDup_cons in Hnd as [Hnot Hnd].
  assert (Hjs' : ∀ j', j' ∈ js →
            j' < h ∧ q3 + j' * w3 + len
                     ≤ length (splice b3 (q3 + j0 * w3)
                                 (zip_with f (take len (drop (q1 + j0 * w1) b1))
                                             (take len (drop (q2 + j0 * w2) b2))))).
  { intros j' Hj'. rewrite length_splice by (rewrite Hu; lia).
    by apply Hjs, list_elem_of_further. }
  apply elem_of_cons in Hin as [->|Hin].
  - rewrite lookup_write_rows_out; [|done|].
    + rewrite lookup_splice_in by (rewrite ?Hu; lia).
      rewrite lookup_zip_with, !lookup_take_lt, !lookup_drop by done.
      by rewrite Ha, Hb.
    + intros j' Hj' Hrange.
      assert (j' ≠ j0) by (intros ->; done).
      destruct (decide (j' < j0)); nia.
  - by apply IH.
Qed.
End WriteRows.

Section BlockResult.
Context `{Build}.
Local Arguments Nat.mul : simpl never.

(** X8.  Over a block of [h] rows of [16 * n] elements of three tensors of two
    or more dimensions, the output not being one of the inputs and its rows
    not overlapping, every compute function returns normally; it leaves
    every other tensor, and the metadata and the length of the buffer of the
    output, as they were; element [i] of row [j] of the block in the output
    is the lane operation of the function on the elements at the same
    position of the two inputs; and every element of the output buffer
    outside the block is kept. *)
Theorem compute_block_result (fn : SubFunction) (mem : Memory)
    (l1 l2 l3 : loc) (T1 T2 T3 : ITensor) (sx sy : Z) (n h q1 w1 q2 w2 q3 w3 : nat) :
  (fn = fn_sub_F16_F16_F16 → ARM_COMPUTE_ENABLE_FP16 = true) →
  mem !! l1 = Some T1 → mem !! l2 = Some T2 → mem !! l3 = Some T3 →
  l3 ≠ l1 → l3 ≠ l2 →
  covers_block T1 sx sy (16 * n) h q1 w1 → covers_block T2 sx sy (16 * n) h q2 w2 →
  covers_block T3 sx sy (16 * n) h q3 w3 →
  16 * n ≤ w3 →
  ∃ mem' T3',
    call fn (Some l1) (Some l2) (Some l3) (block_window sx sy n h) mem = (Ok tt, mem')
    ∧ (∀ l, l ≠ l3 → mem' !! l = mem !! l)
    ∧ mem' !! l3 = Some T3'
    ∧ info T3' = info T3
    ∧ length (buffer T3') = length (buffer T3)
    ∧ (∀ j i a b, j < h → i < 16 * n →
         buffer T1 !! (q1 + j * w1 + i) = Some a →
         buffer T2 !! (q2 + j * w2 + i) = Some b →
         buffer T3' !! (q3 + j * w3 + i) = Some (lane_op fn a b))
    ∧ (∀ idx, (∀ j, j < h → ¬ (q3 + j * w3 ≤ idx < q3 + j * w3 + 16 * n)) →
         buffer T3' !! idx = buffer T3 !! idx).
Proof.
  intros Hfp M1 M2 M3 Hl1 Hl2 C1 C2 C3 Hw.
  eexists _, _. split.
  { by apply (call_block fn mem l1 l2 l3 T1 T2 T3 sx sy n h q1 w1 q2 w2 q3 w3). }
  destruct C1 as (_ & _ & B1), C2 as (_ & _ & B2), C3 as (_ & _ & B3).
  assert (Hjs : ∀ j, j ∈ seq 0 h → j < h ∧ q3 + j * w3 + 16 * n ≤ length (buffer T3)).
  { intros j Hj. apply elem_of_seq in Hj. split; [lia|]. apply B3. lia. }
  split; [|split; [|split; [|split; [|split]]]].
  - intros l Hl. by rewrite lookup_insert_ne.
  - apply lookup_insert_eq.
  - done.
  - cbn [buffer with_buffer]. by apply (length_write_rows _ _ _ _ _ _ _ _ _ _ h).
  - intros j i a b Hj Hi Ha Hb. cbn [buffer with_buffer].
    apply (lookup_write_rows_in _ _ _ _ _ _ _ _ _ _ h); try done.
    + apply NoDup_seq.
    + apply elem_of_seq. lia.
  - intros idx Hout. cbn [buffer with_buffer].
    apply (lookup_write_rows_out _ _ _ _ _ _ _ _ _ _ h); try done.
    intros j Hj. apply Hout. apply elem_of_seq in Hj. lia.
Qed.
End BlockResult.

(** Two rows of sixteen unsigned 8-bit elements, 9 - 4 everywhere. *)
Lemma compute_block_result_witness :
  let T1 := tensor_2d U8 16 2 (replicate 32 9%Z) in
  let T2 := tensor_2d U8 16 2 (replicate 32 4%Z) in
  let T3 := tensor_2d U8 16 2 (replicate 32 0%Z) in
  let mem := memory_of T1 T2 T3 in
  ∃ mem' T3',
    call (H := build_without_fp16) fn_sub_wrap_U8_U8_U8 (Some 1) (Some 2) (Some 3)
         (block_window 0 0 1 2) mem = (Ok tt, mem')
    ∧ (∀ l, l ≠ 3 → mem' !! l = mem !! l)
    ∧ mem' !! 3 = Some T3'
    ∧ info T3' = info T3
    ∧ length (buffer T3') = length (buffer T3)
    ∧ (∀ j i a b, j < 2 → i < 16 * 1 →
         buffer T1 !! (0 + j * 16 + i) = Some a →
         buffer T2 !! (0 + j * 16 + i) = Some b →
         buffer T3' !! (0 + j * 16 + i)
         = Some (lane_op (H := build_without_fp16) fn_sub_wrap_U8_U8_U8 a b))
    ∧ (∀ idx, (∀ j, j < 2 → ¬ (0 + j * 16 ≤ idx < 0 + j * 16 + 16 * 1)) →
         buffer T3' !! idx = buffer T3 !! idx).
Proof.
  intros T1 T2 T3 mem.
  refine (@compute_block_result build_without_fp16 fn_sub_wrap_U8_U8_U8 mem 1 2 3 T1 T2 T3
            0%Z 0%Z 1 2 0 16 0 16 0 16 _ _ _ _ _ _ _ _ _ _);
    try concrete;
    (split; [reflexivity|split; [reflexivity|]]; intros j Hj; simpl; lia).
Defined.

(** ** What a compute function can touch *)

Section Frame.
Variable output : ITensorPtr.

Lemma output_frame_refl (mem : Memory) : output_frame output mem mem.
Proof.
  destruct output as [l3|]; [|done]. split; [done|].
  destruct (mem !! l3) as [T|] eqn:E; [|done]. by exists T.
Qed.

Lemma output_frame_trans (m1 m2 m3 : Memory) :
  output_frame output m1 m2 → output_frame output m2 m3 → output_frame output m1 m3.
Proof.
  destruct output as [l3|]; simpl; [|congruence].
  intros [N1 O1] [N2 O2]. split.
  - intros l Hl. rewrite N2, N1; done.
  - destruct (m1 !! l3) as [T|].
    + destruct O1 as (T' & E' & I' & L'). rewrite E' in O2.
      destruct O2 as (T'' & E'' & I'' & L''). exists T''. repeat split; congruence.
    + by rewrite O1 in O2.
Qed.

Lemma frame_ret {A} (a : A) : mem_preserves (output_frame output) compute_error (mret a).
Proof. intros mem r mem' [= <- <-]. split; [apply output_frame_refl|done]. Qed.

Lemma frame_throw {A} (e : Error) :
  compute_error e → mem_preserves (output_frame output) compute_error (throw e : M Memory A).
Proof. intros He mem r mem' [= <- <-]. split; [apply output_frame_refl|]. by intros ? [= <-]. Qed.

Lemma frame_bind {A B} (m : M Memory A) (f : A → M Memory B) :
  mem_preserves (output_frame output) compute_error m →
  (∀ a, mem_preserves (output_frame output) compute_error (f a)) →
  mem_preserves (output_frame output) compute_error (m ≫= f).
Proof.
  intros Hm Hf mem r mem'. unfold mbind, M_bind.
  destruct (m mem) as [[a|e] mem1] eqn:E.
  - intros Hfa. destruct (Hm _ _ _ E) as [R1 _], (Hf _ _ _ _ Hfa) as [R2 E2].
    split; [by eapply output_frame_trans|done].
  - intros [= <- <-]. destruct (Hm _ _ _ E) as [R1 E1].
    split; [done|]. intros e' [= <-]. by apply E1.
Qed.

Lemma frame_for_each {A} (l : list A) (f : A → M Memory unit) :
  (∀ a, mem_preserves (output_frame output) compute_error (f a)) →
  mem_preserves (output_frame output) compute_error (for_each l f).
Proof.
  intros Hf. induction l as [|a l IH]; simpl.
  - apply frame_ret.
  - apply frame_bind; [apply Hf|]. by intros _.
Qed.

Lemma frame_deref (p : ITensorPtr) : mem_preserves (output_frame output) compute_error (deref p).
Proof.
  intros mem r mem'. unfold deref.
  destruct p as [l|]; [destruct (mem !! l)|]; intros [= <- <-];
    (split; [apply output_frame_refl|]); intros ? [= <-]; right; by left.
Qed.

Lemma frame_load (n : nat) (p : Ptr) : mem_preserves (output_frame output) compute_error (load n p).
Proof.
  unfold load. apply frame_bind; [apply frame_deref|]. intros t.
  case_match; [apply frame_ret|apply frame_throw; right; by left].
Qed.

Lemma frame_Iterator_new (t : ITensorPtr) (w : Window) :
  mem_preserves (output_frame output) compute_error (Iterator_new t w).
Proof.
  unfold Iterator_new. apply frame_bind; [apply frame_deref|]. intros T. apply frame_ret.
Qed.

(** A store through a pointer into the output tensor. *)
Lemma frame_store (p : Ptr) (v : list Z) :
  p_tensor p = output → mem_preserves (output_frame output) compute_error (store p v).
Proof.
  intros Hp mem r mem'. unfold store. rewrite Hp.
  pose proof (output_frame_refl mem) as Hrefl.
  assert (Hfault : ∀ e, Err (A := unit) AccessFault = Err e → compute_error e)
    by (intros ? [= <-]; right; by left).
  destruct output as [l3|]; [|by intros [= <- <-]].
  destruct (mem !! l3) as [T|] eqn:E; [|by intros [= <- <-]].
  destruct (in_bounds T (p_off p) (length v)) eqn:Hb; [|by intros [= <- <-]].
  intros [= <- <-]. split; [|done]. split.
  - intros l Hl. by rewrite lookup_insert_ne.
  - rewrite E, lookup_insert_eq. eexists. split; [done|]. split; [done|].
    apply in_bounds_spec in Hb as [? ?]. simpl. apply length_splice. lia.
Qed.

Lemma it_tensor_seek (it : Iterator) (id : Coordinates) :
  it_tensor (seek it id) = it_tensor it.
Proof. done. Qed.

(** The loop of a compute function, for a body that keeps the frame as long
    as its third cursor points into the output. *)
Lemma frame_execute_window_loop (w : Window)
    (body : Coordinates → Iterator → Iterator → Iterator → M Memory unit)
    (i1 i2 i3 : Iterator) :
  it_tensor i3 = output →
  (∀ id j1 j2 j3, it_tensor j3 = output →
                  mem_preserves (output_frame output) compute_error (body id j1 j2 j3)) →
  mem_preserves (output_frame output) compute_error (execute_window_loop w body i1 i2 i3).
Proof.
  intros H3 Hbody. unfold execute_window_loop.
  destruct (window_positions w); [|apply frame_throw; right; by right].
  apply frame_for_each. intros id. by apply Hbody.
Qed.

(** The common shape of the compute functions. *)
Lemma frame_kernel (in1 in2 : ITensorPtr) (w : Window)
    (body : Coordinates → Iterator → Iterator → Iterator → M Memory unit) :
  (∀ id j1 j2 j3, it_tensor j3 = output →
                  mem_preserves (output_frame output) compute_error (body id j1 j2 j3)) →
  mem_preserves (output_frame output) compute_error
    (input1 ← Iterator_new in1 w;
     input2 ← Iterator_new in2 w;
     output' ← Iterator_new output w;
     execute_window_loop w body input1 input2 output').
Proof.
  intros Hbody mem r mem'. unfold mbind, M_bind.
  destruct (Iterator_new in1 w mem) as [[i1|e] m1] eqn:E1.
  2: { intros [= <- <-]. destruct (frame_Iterator_new _ _ _ _ _ E1) as [F1 X1].
       split; [done|]. intros ? [= <-]. by apply X1. }
  destruct (frame_Iterator_new _ _ _ _ _ E1) as [F1 _].
  destruct (Iterator_new in2 w m1) as [[i2|e] m2] eqn:E2.
  2: { intros [= <- <-]. destruct (frame_Iterator_new _ _ _ _ _ E2) as [F2 X2].
       split; [by eapply output_frame_trans|]. intros ? [= <-]. by apply X2. }
  destruct (frame_Iterator_new _ _ _ _ _ E2) as [F2 _].
  destruct (Iterator_new output w m2) as [[i3|e] m3] eqn:E3.
  2: { intros [= <- <-]. destruct (frame_Iterator_new _ _ _ _ _ E3) as [F3 X3].
       split; [|intros ? [= <-]; by apply X3].
       eapply output_frame_trans; [done|]. by eapply output_frame_trans. }
  destruct (frame_Iterator_new _ _ _ _ _ E3) as [F3 _].
  intros Hloop.
  assert (H3 : it_tensor i3 = output).
  { unfold Iterator_new, mbind, M_bind, mret, M_ret in E3.
    destruct (deref output m2) as [[T|?] ?]; by simplify_eq. }
  destruct (frame_execute_window_loop w body i1 i2 i3 H3 Hbody _ _ _ Hloop) as [F4 X4].
  split; [|done].
  eapply output_frame_trans; [done|]. eapply output_frame_trans; [done|].
  by eapply output_frame_trans.
Qed.
End Frame.

Ltac frame_body Hout :=
  unfold vld1q_u8, vst1q_u8, vld1q_qs8, vst1q_qs8, vld1q_s16, vst1q_s16,
    vld2q_s16, vst2q_s16, vld2q_f16, vst2q_f16, vld4q_f32, vst4q_f32;
  repeat first
    [ apply frame_ret
    | apply frame_load
    | apply frame_store; simpl; exact Hout
    | apply frame_bind
    | match goal with |- ∀ _, mem_preserves _ _ _ => intro end
    | match goal with
      | |- mem_preserves _ _ (let '(_, _) := ?x in _) => destruct x as [? ?]
      end ].

Section CallFrame.
Context `{Build}.

Lemma frame_vld4q_f32 (output : ITensorPtr) (p : Ptr) :
  mem_preserves (output_frame output) compute_error (vld4q_f32 p).
Proof.
  unfold vld4q_f32. apply frame_bind; [apply frame_load|]. intros v.
  destruct (deinterleave4 v) as [[[? ?] ?] ?]. apply frame_ret.
Qed.

Lemma call_frame (fn : SubFunction) (in1 in2 output : ITensorPtr) (w : Window) :
  mem_preserves (output_frame output) compute_error (call fn in1 in2 output w).
Proof.
  destruct fn; cbn [call].
  7: { unfold sub_F16_F16_F16.
       destruct ARM_COMPUTE_ENABLE_FP16; [|apply frame_throw; by left].
       apply frame_kernel. intros id j1 j2 j3 Hout. by frame_body Hout. }
  7: { apply frame_kernel. intros id j1 j2 j3 Hout.
       apply frame_bind; [apply frame_vld4q_f32|]. intros ta1.
       apply frame_bind; [apply frame_vld4q_f32|]. intros ta2.
       unfold vst4q_f32. by apply frame_store. }
  all: apply frame_kernel; intros id j1 j2 j3 Hout; by frame_body Hout.
Qed.

Lemma Iterator_new_inv (t : ITensorPtr) (w : Window) (m m' : Memory) (i : Iterator) :
  Iterator_new t w m = (Ok i, m') → m' = m ∧ ∃ l T, t = Some l ∧ m !! l = Some T.
Proof.
  unfold Iterator_new, deref, mbind, M_bind, mret, M_ret.
  destruct t as [l|]; [destruct (m !! l) as [T|] eqn:E|]; intros [= <- <-].
  split; [done|]. by exists l, T.
Qed.

(** A compute function of the common shape that returns normally was given
    an output handle that points to a tensor. *)
Lemma kernel_ok_output (in1 in2 output : ITensorPtr) (w : Window)
    (body : Coordinates → Iterator → Iterator → Iterator → M Memory unit)
    (mem mem' : Memory) :
  (input1 ← Iterator_new in1 w;
   input2 ← Iterator_new in2 w;
   output ← Iterator_new output w;
   execute_window_loop w body input1 input2 output) mem = (Ok tt, mem') →
  ∃ l3 T3, output = Some l3 ∧ mem !! l3 = Some T3.
Proof.
  intros Hk.
  apply bind_inv_ok in Hk as (i1 & m1 & E1 & Hk).
  apply bind_inv_ok in Hk as (i2 & m2 & E2 & Hk).
  apply bind_inv_ok in Hk as (i3 & m3 & E3 & _).
  apply Iterator_new_inv in E1 as [-> _].
  apply Iterator_new_inv in E2 as [-> _].
  by apply Iterator_new_inv in E3 as [_ ?].
Qed.

Lemma call_ok_output (fn : SubFunction) (in1 in2 output : ITensorPtr) (w : Window)
    (mem mem' : Memory) :
  call fn in1 in2 output w mem = (Ok tt, mem') →
  ∃ l3 T3, output = Some l3 ∧ mem !! l3 = Some T3.
Proof.
  destruct fn; cbn [call]; try apply kernel_ok_output.
  unfold sub_F16_F16_F16. destruct ARM_COMPUTE_ENABLE_FP16; [apply kernel_ok_output|].
  intros [=].
Qed.

(** A call that returns normally made every access within a buffer: its
    output handle points to a tensor, and that tensor alone has changed, in
    the contents of its buffer only. *)
Lemma call_ok_frame (fn : SubFunction) (in1 in2 output : ITensorPtr) (w : Window)
    (mem mem' : Memory) :
  call fn in1 in2 output w mem = (Ok tt, mem') →
  ∃ l3 T3 T3',
    output = Some l3 ∧ mem !! l3 = Some T3 ∧ mem' !! l3 = Some T3'
    ∧ info T3' = info T3 ∧ length (buffer T3') = length (buffer T3)
    ∧ ∀ l, l ≠ l3 → mem' !! l = mem !! l.
Proof.
  intros Hc.
  destruct (call_ok_output _ _ _ _ _ _ _ Hc) as (l3 & T3 & -> & M3).
  destruct (call_frame fn in1 in2 (Some l3) w mem _ mem' Hc) as [[Hother Hout] _].
  rewrite M3 in Hout. destruct Hout as (T3' & M3' & Hi & Hl).
  by exists l3, T3, T3'.
Qed.

(** X9.  Whatever the window (any number of dimensions, any steps) and whatever
    the three handles, shared or not: a compute function that returns
    normally has changed no tensor but the one its output handle points to,
    and of that tensor neither the metadata nor the length of the buffer.
    Nothing is said of a call that does not return normally: an access
    outside a buffer is undefined behaviour in the source. *)
Theorem compute_function_frame
    (fn : SubFunction) (in1 in2 output : ITensorPtr) (w : Window) (mem mem' : Memory) :
  call fn in1 in2 output w mem = (Ok tt, mem') →
  ∃ l3 T3 T3',
    output = Some l3 ∧ mem !! l3 = Some T3 ∧ mem' !! l3 = Some T3'
    ∧ info T3' = info T3 ∧ length (buffer T3') = length (buffer T3)
    ∧ ∀ l, l ≠ l3 → mem' !! l = mem !! l.
Proof. intros Hc. exact (call_ok_frame fn in1 in2 output w mem mem' Hc). Qed.

(** X10.  [run] never changes the kernel.  The conditions of its own checks are
    raised by these checks only, never by a compute function, and leave the
    whole state as it was.  A [run] that returns normally has changed
    nothing but the contents of the buffer of the tensor recorded as
    output. *)
Theorem run_frame (window : Window) (s s' : State) (r : outcome unit) :
  run window s = (r, s') →
  kernel s' = kernel s
  ∧ (r = Err NotConfigured ∨ r = Err InvalidSubwindow ∨ r = Err AssertionFailed → s' = s)
  ∧ (r = Ok tt →
     ∃ l3 T3 T3',
       _output (kernel s) = Some l3 ∧ mem s !! l3 = Some T3 ∧ mem s' !! l3 = Some T3'
       ∧ info T3' = info T3 ∧ length (buffer T3') = length (buffer T3)
       ∧ ∀ l, l ≠ l3 → mem s' !! l = mem s !! l).
Proof.
  rewrite run_unfold.
  destruct (_is_window_configured (kernel s)); simpl.
  2: { intros [= <- <-]. split; [done|]. split; [done|]. intros [=]. }
  destruct (is_valid_subwindow (_window (kernel s)) window); simpl.
  2: { intros [= <- <-]. split; [done|]. split; [done|]. intros [=]. }
  destruct (_func (kernel s)) as [f|] eqn:Ef.
  2: { intros [= <- <-]. split; [done|]. split; [done|]. intros [=]. }
  unfold lift_mem.
  destruct (call f _ _ _ window (mem s)) as [r0 mem'] eqn:Ec. intros [= <- <-].
  destruct (call_frame _ _ _ _ _ _ _ _ Ec) as [F X].
  split; [done|]. split.
  - intros Hr. exfalso.
    destruct Hr as [-> | [-> | ->]]; by destruct (X _ eq_refl) as [?|[?|?]].
  - intros ->. exact (call_ok_frame _ _ _ _ _ _ _ Ec).
Qed.
End CallFrame.

(** A call over two rows of sixteen elements of three images. *)
Lemma compute_function_frame_witness :
  let T1 := tensor_2d U8 16 2 (replicate 32 9%Z) in
  let T2 := tensor_2d U8 16 2 (replicate 32 4%Z) in
  let T3 := tensor_2d U8 16 2 (replicate 32 0%Z) in
  let mem := memory_of T1 T2 T3 in
  let mem' := (call (H := build_without_fp16) fn_sub_saturate_U8_U8_U8
                 (Some 1) (Some 2) (Some 3) (block_window 0 0 1 2) mem).2 in
  ∃ l3 T3' T3'',
    Some 3%nat = Some l3 ∧ mem !! l3 = Some T3' ∧ mem' !! l3 = Some T3''
    ∧ info T3'' = info T3' ∧ length (buffer T3'') = length (buffer T3')
    ∧ ∀ l, l ≠ l3 → mem' !! l = mem !! l.
Proof.
  intros T1 T2 T3 mem mem'.
  apply (@compute_function_frame build_without_fp16 fn_sub_saturate_U8_U8_U8
           (Some 1) (Some 2) (Some 3) (block_window 0 0 1 2) mem mem').
  vm_compute. reflexivity.
Defined.

(** A run of the example kernel over its configured window. *)
Lemma run_frame_witness :
  let s := (configure (Some 1) (Some 2) (Some 3) SATURATE
              (example_state U8 (replicate 16 7%Z))).2 in
  let res := run (H := build_without_fp16) window_16 s in
  kernel res.2 = kernel s
  ∧ (res.1 = Err NotConfigured ∨ res.1 = Err InvalidSubwindow ∨ res.1 = Err AssertionFailed
     → res.2 = s)
  ∧ (res.1 = Ok tt →
     ∃ l3 T3 T3',
       _output (kernel s) = Some l3 ∧ mem s !! l3 = Some T3 ∧ mem res.2 !! l3 = Some T3'
       ∧ info T3' = info T3 ∧ length (buffer T3') = length (buffer T3)
       ∧ ∀ l, l ≠ l3 → mem res.2 !! l = mem s !! l).
Proof.
  intros s res.
  apply (@run_frame build_without_fp16 window_16 s res.2 res.1).
  vm_compute. reflexivity.
Defined.

(** ** The conditions [configure] raises *)

Section ConfigureErrors.
Implicit Types (s : State).

Lemma validation_error_cases (i1 i2 io : TensorInfo) (e : Error) :
  validation_error i1 i2 io = Some e → check_error e.
Proof.
  unfold validation_error, check_error. intros Hv.
  repeat (match type of Hv with
          | (if ?c then _ else _) = _ => destruct c
          end; try discriminate Hv);
    injection Hv as <-; tauto.
Qed.

(** X11.  The failures of [configure], on handles that are null or point to
    tensors.  With a null handle it fails with InvalidArgument, before it
    reads or writes anything.  Conversely a failure with InvalidArgument
    means a null handle; and every other failure is one of ShapeMismatch,
    UnsupportedType, InvalidTypeCombination and FixedPointMismatch, so
    [configure] never ends with a condition of [run] and, on such handles,
    never reaches an access through a bad handle. *)
Theorem configure_errors
    (input1 input2 output : ITensorPtr) (policy : ConvertPolicy) (s : State) :
  null_or_allocated input1 s → null_or_allocated input2 s → null_or_allocated output s →
  (input1 = None ∨ input2 = None ∨ output = None →
   configure input1 input2 output policy s = (Err InvalidArgument, s))
  ∧ (∀ e s', configure input1 input2 output policy s = (Err e, s') →
       (e = InvalidArgument → input1 = None ∨ input2 = None ∨ output = None)
       ∧ (e = InvalidArgument ∨ check_error e)).
Proof.
  intros V1 V2 V3. split.
  - intros Hn. unfold configure. apply bind_err. rewrite nullptr_check_spec.
    destruct Hn as [-> | [-> | ->]]; by repeat case_match.
  - intros e s' Hc.
    destruct (configure_failure_cases _ _ _ _ _ _ _ V1 V2 V3 Hc)
      as [(Hn & -> & ->)|[(l1 & l2 & l3 & T1 & T2 & T3 & _ & _ & _ & _ & _ & _ & EV & _)
                         |(_ & -> & _)]].
    + split; [done|by left].
    + pose proof (validation_error_cases _ _ _ _ EV) as He.
      split; [|by right]. intros ->. unfold check_error in He.
      by destruct He as [?|[?|[?|?]]].
    + split; [done|]. right. unfold check_error. tauto.
Qed.
End ConfigureErrors.

(** A null second input on the example state. *)
Lemma configure_errors_witness :
  let s := example_state U8 (replicate 16 7%Z) in
  (Some 1%nat = None ∨ (None : ITensorPtr) = None ∨ Some 3%nat = None →
   configure (Some 1) None (Some 3) WRAP s = (Err InvalidArgument, s))
  ∧ (∀ e s', configure (Some 1) None (Some 3) WRAP s = (Err e, s') →
       (e = InvalidArgument → Some 1%nat = None ∨ (None : ITensorPtr) = None ∨ Some 3%nat = None)
       ∧ (e = InvalidArgument ∨ check_error e)).
Proof.
  intros s.
  apply (configure_errors (Some 1) None (Some 3) WRAP s).
  - right. exists 1, (tensor_1d U8 (replicate 16 10%Z)). split; reflexivity.
  - left. reflexivity.
  - right. exists 3, (tensor_1d U8 (replicate 16 7%Z)). split; reflexivity.
Defined.

(** ** The shape check of [configure] *)

Section ShapeCheck.
Implicit Types (s : State) (T : ITensor).

Lemma tensor_shape_auto_init (i1 i2 io : TensorInfo) :
  tensor_shape (auto_init i1 i2 io)
  = if bool_decide (tensor_shape io = []) then tensor_shape i1 else tensor_shape io.
Proof.
  unfold auto_init.
  destruct (inferred_type _ _); repeat case_bool_decide; simpl in *; congruence.
Qed.

Lemma validation_shape_mismatch (i1 i2 io : TensorInfo) :
  validation_error i1 i2 io = Some ShapeMismatch
  ↔ tensor_shape i1 ≠ tensor_shape i2 ∨ tensor_shape i1 ≠ tensor_shape io.
Proof.
  unfold validation_error.
  destruct (bool_decide (tensor_shape i1 = tensor_shape i2)) eqn:E2;
    destruct (bool_decide (tensor_shape i1 = tensor_shape io)) eqn:E3;
    try apply bool_decide_eq_true_1 in E2; try apply bool_decide_eq_false_1 in E2;
    try apply bool_decide_eq_true_1 in E3; try apply bool_decide_eq_false_1 in E3;
    cbn [andb negb]; try tauto.
  split; [|tauto]. intros Hv. exfalso.
  repeat (match type of Hv with
          | (if ?c then _ else _) = _ => destruct c
          end; try discriminate Hv).
Qed.

(** X12.  [configure] fails with ShapeMismatch exactly when the two inputs differ
    in shape, or the output has a shape of its own that differs from the one
    of input1.  An output whose shape is unset takes the shape of input1
    first and so never fails this check on its own account; and the check
    comes before the ones on the element types, whatever these are. *)
Theorem shape_mismatch_iff
    (policy : ConvertPolicy) (s : State) (l1 l2 l3 : loc) (T1 T2 T3 : ITensor) :
  mem s !! l1 = Some T1 → mem s !! l2 = Some T2 → mem s !! l3 = Some T3 →
  l3 ≠ l1 → l3 ≠ l2 →
  (configure (Some l1) (Some l2) (Some l3) policy s).1 = Err ShapeMismatch
  ↔ tensor_shape (info T1) ≠ tensor_shape (info T2)
    ∨ (tensor_shape (info T3) ≠ [] ∧ tensor_shape (info T3) ≠ tensor_shape (info T1)).
Proof.
  intros M1 M2 M3 Hl1 Hl2.
  pose proof (configure_spec s l1 l2 l3 T1 T2 T3 policy M1 M2 M3 Hl1 Hl2) as Hspec.
  cbv zeta in Hspec.
  pose proof (validation_shape_mismatch (info T1) (info T2)
                (auto_init (info T1) (info T2) (info T3))) as Hv.
  rewrite tensor_shape_auto_init in Hv.
  assert (Hio : tensor_shape (info T1)
                ≠ (if bool_decide (tensor_shape (info T3) = [])
                   then tensor_shape (info T1) else tensor_shape (info T3))
                ↔ tensor_shape (info T3) ≠ [] ∧ tensor_shape (info T3) ≠ tensor_shape (info T1)).
  { case_bool_decide as E.
    - split; [by intros ?|by intros [? _]].
    - split; [intros ?; split; [done|congruence]|intros [_ ?]; congruence]. }
  rewrite <- Hio, <- Hv.
  destruct (validation_error _ _ _) as [e|].
  - rewrite Hspec. simpl. split; congruence.
  - destruct (map_function !! _).
    + destruct Hspec as (s' & -> & _). simpl. split; congruence.
    + rewrite Hspec. simpl. split; congruence.
Qed.
End ShapeCheck.

(** The example tensors with an output of eight elements. *)
Lemma shape_mismatch_iff_witness :
  let s := example_state U8 (replicate 8 0%Z) in
  (configure (Some 1) (Some 2) (Some 3) WRAP s).1 = Err ShapeMismatch
  ↔ [16%Z] ≠ [16%Z] ∨ ([8%Z] ≠ [] ∧ [8%Z] ≠ [16%Z]).
Proof.
  intros s.
  refine (shape_mismatch_iff WRAP s 1 2 3
            (tensor_1d U8 (replicate 16 10%Z)) (tensor_1d U8 (replicate 16 250%Z))
            (tensor_1d U8 (replicate 8 0%Z)) _ _ _ _ _); concrete.
Defined.

(** ** [configure] followed by [run] *)

Section ConfigureThenRun.
Context `{Build}.
Implicit Types (s : State) (T : ITensor).
Local Arguments Nat.mul : simpl never.
Local Arguments Z.of_nat : simpl never.
Local Arguments Z.mul : simpl never.

Lemma ceil_to_multiple_16 (n : nat) :
  ceil_to_multiple (16 * Z.of_nat n) 16 = (16 * Z.of_nat n)%Z.
Proof.
  unfold ceil_to_multiple.
  replace (16 * Z.of_nat n + 16 - 1)%Z with (15 + Z.of_nat n * 16)%Z by lia.
  rewrite Z.div_add by lia. change (15 / 16)%Z with 0%Z. lia.
Qed.

Lemma max_window_row (ti : TensorInfo) (n : nat) :
  tensor_shape ti = [(16 * Z.of_nat n)%Z] →
  calculate_max_window ti num_elems_processed_per_iteration = row_window 0 n.
Proof.
  intros Hs. unfold calculate_max_window, num_elems_processed_per_iteration, row_window.
  rewrite Hs. simpl. by rewrite ceil_to_multiple_16.
Qed.

Lemma dimension_is_sub_refl (d : Dimension) : dimension_is_sub d d = true.
Proof.
  unfold dimension_is_sub. rewrite Z.sub_diag, Zmod_0_l.
  rewrite !bool_decide_eq_true_2; [done..|lia|lia].
Qed.

(** A window is a valid sub-window of itself. *)
Lemma is_valid_subwindow_refl (w : Window) : is_valid_subwindow w w = true.
Proof.
  unfold is_valid_subwindow. rewrite bool_decide_eq_true_2 by done. simpl.
  induction w as [|d w IH]; [done|]. simpl. by rewrite dimension_is_sub_refl.
Qed.

Lemma covers_row_steady T T' (s : Z) (len : nat) :
  tensor_steady T T' → covers_row T s len → covers_row T' s len.
Proof.
  intros (Hb & Hs & Ho & _) (C1 & C2 & C3). unfold covers_row.
  by rewrite Hb, Hs, Ho.
Qed.

Lemma elementwise_row_steady f T1 T2 T3 T1' T2' T3' (s : Z) (len : nat) :
  tensor_steady T1 T1' → tensor_steady T2 T2' → tensor_steady T3 T3' →
  buffer (elementwise_row f T1' T2' T3' s len) = buffer (elementwise_row f T1 T2 T3 s len).
Proof.
  intros (B1 & _ & O1 & _) (B2 & _ & O2 & _) (B3 & _ & O3 & _).
  unfold elementwise_row. cbn [buffer with_buffer]. by rewrite B1, B2, B3, O1, O2, O3.
Qed.

Lemma f16_entry policy dt1 dt2 dt3 :
  map_function !! function_to_call policy dt1 dt2 dt3 = Some fn_sub_F16_F16_F16 →
  dt1 = F16.
Proof. destruct policy, dt1, dt2, dt3; vm_compute; congruence. Qed.

Lemma auto_init_steady (i1 i2 : TensorInfo) T :
  tensor_steady T (with_info T (auto_init i1 i2 (info T))).
Proof.
  unfold auto_init, tensor_steady. cbn [buffer info with_info].
  destruct (inferred_type _ _); repeat case_bool_decide; simpl in *;
    repeat split; try done; intros; congruence.
Qed.

(** A successful [configure] on tensors of one row of [16 * n] elements,
    followed by [run] over the configured window. *)
Lemma configure_run_row policy s s' l1 l2 l3 T1 T2 T3 (n : nat) :
  mem s !! l1 = Some T1 → mem s !! l2 = Some T2 → mem s !! l3 = Some T3 →
  l3 ≠ l1 → l3 ≠ l2 →
  tensor_shape (info T1) = [(16 * Z.of_nat n)%Z] →
  covers_row T1 0 (16 * n) → covers_row T2 0 (16 * n) → covers_row T3 0 (16 * n) →
  (data_type (info T1) = F16 → ARM_COMPUTE_ENABLE_FP16 = true) →
  configure (Some l1) (Some l2) (Some l3) policy s = (Ok tt, s') →
  ∃ f T3',
    map_function !! function_to_call policy (data_type (info T1)) (data_type (info T2))
                      (data_type (auto_init (info T1) (info T2) (info T3))) = Some f
    ∧ validation_error (info T1) (info T2) (auto_init (info T1) (info T2) (info T3)) = None
    ∧ _func (kernel s') = Some f
    ∧ _window (kernel s') = row_window 0 n
    ∧ mem s' !! l3 = Some T3'
    ∧ run (_window (kernel s')) s'
      = (Ok tt, {| kernel := kernel s';
                   mem := <[l3 := with_buffer T3'
                                    (buffer (elementwise_row (lane_op f) T1 T2 T3 0 (16 * n)))]>
                            (mem s') |}).
Proof.
  intros M1 M2 M3 Hl1 Hl2 Hshape C1 C2 C3 Hfp Hc.
  pose proof (configure_spec s l1 l2 l3 T1 T2 T3 policy M1 M2 M3 Hl1 Hl2) as Hspec.
  cbv zeta in Hspec.
  set (io := auto_init (info T1) (info T2) (info T3)) in *.
  destruct (validation_error (info T1) (info T2) io) eqn:HV; [congruence|].
  destruct (map_function !! _) as [f|] eqn:HF; [|congruence].
  destruct Hspec as (s0 & Hc0 & HK & HM). rewrite Hc in Hc0. injection Hc0 as <-.
  set (s2 := set_tensor_info s l3 T3 io) in *.
  assert (M1' : mem s2 !! l1 = Some T1) by by (subst s2; rewrite lookup_set_tensor_info_ne).
  assert (M2' : mem s2 !! l2 = Some T2) by by (subst s2; rewrite lookup_set_tensor_info_ne).
  assert (M3' : mem s2 !! l3 = Some (with_info T3 io)) by apply lookup_set_tensor_info.
  destruct (HM l1 T1 M1') as (T1' & N1 & St1).
  destruct (HM l2 T2 M2') as (T2' & N2 & St2).
  destruct (HM l3 _ M3') as (T3' & N3 & St3).
  assert (St3' : tensor_steady T3 T3').
  { eapply tensor_steady_trans; [apply (auto_init_steady (info T1) (info T2))|exact St3]. }
  exists f, T3'.
  rewrite (max_window_row _ _ Hshape) in HK.
  split; [done|]. split; [done|].
  split; [by rewrite HK|]. split; [by rewrite HK|]. split; [done|].
  rewrite run_unfold, HK. cbn [with_window set_func set_handles _is_window_configured _window
                                 _func _input1 _input2 _output negb].
  rewrite is_valid_subwindow_refl. cbn [negb]. unfold lift_mem.
  rewrite (call_row f (mem s') l1 l2 l3 T1' T2' T3' 0 n);
    [|intros ->; apply Hfp; by eapply f16_entry|done|done|done|done|done
     |by eapply covers_row_steady..].
  do 3 f_equal; [done|].
  rewrite <- (elementwise_row_steady (lane_op f) T1 T2 T3 T1' T2' T3' 0 (16 * n) St1 St2 St3').
  reflexivity.
Qed.
End ConfigureThenRun.

Section ConfiguredRun.
Context `{Build}.
Implicit Types (s : State) (T : ITensor).
Local Arguments Nat.mul : simpl never.
Local Arguments Z.of_nat : simpl never.
Local Arguments Z.mul : simpl never.

(** X13.  The life of a kernel on one row.  After a successful [configure] on
    three tensors of [16 * n] elements, the output not being one of the
    inputs, [run] over the configured window returns normally, leaves the
    kernel and every tensor but the output as [configure] left them, and the
    buffer of the output is the one it had before [configure] with the row
    replaced, position by position, by the lane operation of the resolved
    function on the two input rows. *)
Theorem configure_then_run
    (policy : ConvertPolicy) (s s' : State) (l1 l2 l3 : loc) (T1 T2 T3 : ITensor) (n : nat) :
  mem s !! l1 = Some T1 → mem s !! l2 = Some T2 → mem s !! l3 = Some T3 →
  l3 ≠ l1 → l3 ≠ l2 →
  tensor_shape (info T1) = [(16 * Z.of_nat n)%Z] →
  covers_row T1 0 (16 * n) → covers_row T2 0 (16 * n) → covers_row T3 0 (16 * n) →
  (data_type (info T1) = F16 → ARM_COMPUTE_ENABLE_FP16 = true) →
  configure (Some l1) (Some l2) (Some l3) policy s = (Ok tt, s') →
  let p1 := Z.to_nat (offset_first_element (info T1) + 0) in
  let p2 := Z.to_nat (offset_first_element (info T2) + 0) in
  let p3 := Z.to_nat (offset_first_element (info T3) + 0) in
  ∃ f s'',
    _func (kernel s') = Some f
    ∧ run (_window (kernel s')) s' = (Ok tt, s'')
    ∧ kernel s'' = kernel s'
    ∧ (∀ l, l ≠ l3 → mem s'' !! l = mem s' !! l)
    ∧ output_buffer (Ok tt, s'') l3
      = Some (take p3 (buffer T3)
              ++ zip_with (lane_op f) (take (16 * n) (drop p1 (buffer T1)))
                                      (take (16 * n) (drop p2 (buffer T2)))
              ++ drop (p3 + 16 * n) (buffer T3)).
Proof.
  intros M1 M2 M3 Hl1 Hl2 Hshape C1 C2 C3 Hfp Hc p1 p2 p3.
  destruct (configure_run_row policy s s' l1 l2 l3 T1 T2 T3 n
              M1 M2 M3 Hl1 Hl2 Hshape C1 C2 C3 Hfp Hc)
    as (f & T3' & _ & _ & Hf & _ & N3 & Hrun).
  exists f. eexists. split; [done|]. split; [exact Hrun|]. split; [done|].
  split; [intros l Hl; simpl; by rewrite lookup_insert_ne|].
  unfold output_buffer. cbn [mem]. rewrite lookup_insert_eq.
  cbn [fmap option_fmap option_map buffer with_buffer].
  unfold elementwise_row, splice. cbn [buffer with_buffer]. fold p1 p2 p3.
  do 4 f_equal.
  destruct C1 as (_ & ? & ?), C2 as (_ & ? & ?).
  rewrite length_zip_with_l_eq; rewrite !length_take, !length_drop; subst p1 p2; lia.
Qed.

(** X14.  On the integer element types the configured kernel subtracts.  After a
    successful [configure] on one row of [16 * n] elements and a [run] over
    the configured window, the output holds at every position of the row
    the exact difference of the two operands found there, wrapped (WRAP) or
    clamped (SATURATE) to the range of the element type of the output,
    provided the operands are values of the element types of the inputs. *)
Theorem configured_subtraction
    (policy : ConvertPolicy) (s s' : State) (l1 l2 l3 : loc) (T1 T2 T3 : ITensor)
    (n i : nat) (a b : Z) :
  mem s !! l1 = Some T1 → mem s !! l2 = Some T2 → mem s !! l3 = Some T3 →
  l3 ≠ l1 → l3 ≠ l2 →
  tensor_shape (info T1) = [(16 * Z.of_nat n)%Z] →
  covers_row T1 0 (16 * n) → covers_row T2 0 (16 * n) → covers_row T3 0 (16 * n) →
  data_type (auto_init (info T1) (info T2) (info T3)) ∈ integer_types →
  configure (Some l1) (Some l2) (Some l3) policy s = (Ok tt, s') →
  (i < 16 * n)%nat →
  buffer T1 !! (Z.to_nat (offset_first_element (info T1) + 0) + i)%nat = Some a →
  buffer T2 !! (Z.to_nat (offset_first_element (info T2) + 0) + i)%nat = Some b →
  representable (data_type (info T1)) a → representable (data_type (info T2)) b →
  ∃ out,
    output_buffer (run (_window (kernel s')) s') l3 = Some out
    ∧ out !! (Z.to_nat (offset_first_element (info T3) + 0) + i)%nat
      = Some (match policy with
              | WRAP =>
                  wrap_to (data_type (auto_init (info T1) (info T2) (info T3))) (a - b)
              | SATURATE =>
                  clamp_to (data_type (auto_init (info T1) (info T2) (info T3))) (a - b)
              end).
Proof.
  intros M1 M2 M3 Hl1 Hl2 Hshape C1 C2 C3 Hdt Hc Hi Ha Hb Ra Rb.
  assert (Hfp : data_type (info T1) = F16 → ARM_COMPUTE_ENABLE_FP16 = true).
  { intros E. exfalso.
    pose proof (configure_run_row policy s s' l1 l2 l3 T1 T2 T3 n) as Hrow.
    pose proof (configure_spec s l1 l2 l3 T1 T2 T3 policy M1 M2 M3 Hl1 Hl2) as Hspec.
    cbv zeta in Hspec.
    destruct (validation_error _ _ _); [congruence|].
    destruct (map_function !! _) as [f|] eqn:HF; [|congruence].
    rewrite E in HF. revert Hdt HF. clear.
    unfold integer_types. intros Hdt.
    repeat (apply elem_of_cons in Hdt as [->|Hdt]); [..|by apply elem_of_nil in Hdt];
      destruct policy, (data_type (info T2)); vm_compute; discriminate. }
  destruct (configure_run_row policy s s' l1 l2 l3 T1 T2 T3 n
              M1 M2 M3 Hl1 Hl2 Hshape C1 C2 C3 Hfp Hc)
    as (f & T3' & HF & _ & Hf & _ & N3 & Hrun).
  rewrite Hrun. eexists. split.
  { unfold output_buffer. cbn [mem]. rewrite lookup_insert_eq. reflexivity. }
  cbn [buffer with_buffer]. unfold elementwise_row. cbn [buffer with_buffer].
  destruct C1 as (_ & ? & ?), C2 as (_ & ? & ?), C3 as (_ & ? & ?).
  assert (Hlen : length (zip_with (lane_op f)
            (take (16 * n) (drop (Z.to_nat (offset_first_element (info T1) + 0)) (buffer T1)))
            (take (16 * n) (drop (Z.to_nat (offset_first_element (info T2) + 0)) (buffer T2))))
          = 16 * n).
  { rewrite length_zip_with_l_eq; rewrite !length_take, !length_drop; lia. }
  rewrite lookup_splice_in by (rewrite ?Hlen; lia).
  rewrite lookup_zip_with, !lookup_take_lt, !lookup_drop by done.
  rewrite Ha, Hb. cbn. f_equal.
  exact (table_lane_semantics policy _ _ _ f a b HF Hdt Ra Rb).
Qed.
End ConfiguredRun.

(** The example: 10 - 250 on unsigned 8-bit inputs with a signed 16-bit
    output. *)
Lemma configure_then_run_witness :
  let s := example_state S16 (replicate 16 0%Z) in
  let s' := (configure (Some 1) (Some 2) (Some 3) WRAP s).2 in
  ∃ f s'',
    _func (kernel s') = Some f
    ∧ run (H := build_without_fp16) (_window (kernel s')) s' = (Ok tt, s'')
    ∧ kernel s'' = kernel s'
    ∧ (∀ l, l ≠ 3 → mem s'' !! l = mem s' !! l)
    ∧ output_buffer (Ok tt, s'') 3
      = Some (take 0 (replicate 16 0%Z)
              ++ zip_with (lane_op (H := build_without_fp16) f)
                   (take (16 * 1) (drop 0 (replicate 16 10%Z)))
                   (take (16 * 1) (drop 0 (replicate 16 250%Z)))
              ++ drop (0 + 16 * 1) (replicate 16 0%Z)).
Proof.
  intros s s'.
  refine (@configure_then_run build_without_fp16 WRAP s s' 1 2 3
            (tensor_1d U8 (replicate 16 10%Z)) (tensor_1d U8 (replicate 16 250%Z))
            (tensor_1d S16 (replicate 16 0%Z)) 1 _ _ _ _ _ _ _ _ _ _ _); concrete.
Defined.

(** The same example under SATURATE, read at the first element: -240. *)
Lemma configured_subtraction_witness :
  let s := example_state S16 (replicate 16 0%Z) in
  let s' := (configure (Some 1) (Some 2) (Some 3) SATURATE s).2 in
  ∃ out,
    output_buffer (run (H := build_without_fp16) (_window (kernel s')) s') 3 = Some out
    ∧ out !! (Z.to_nat (0 + 0) + 0)%nat = Some (clamp_to S16 (10 - 250)).
Proof.
  intros s s'.
  refine (@configured_subtraction build_without_fp16 SATURATE s s' 1 2 3
            (tensor_1d U8 (replicate 16 10%Z)) (tensor_1d U8 (replicate 16 250%Z))
            (tensor_1d S16 (replicate 16 0%Z)) 1 0 10%Z 250%Z
            _ _ _ _ _ _ _ _ _ _ _ _ _ _ _ _); concrete.
Defined.

(** ** [configure] followed by [run], on images *)

Section ConfigureThenRunBlock.
Context `{Build}.
Implicit Types (s : State) (T : ITensor).
Local Arguments Nat.mul : simpl never.
Local Arguments Z.of_nat : simpl never.
Local Arguments Z.mul : simpl never.

Lemma max_window_block (ti : TensorInfo) (n h : nat) :
  tensor_shape ti = [(16 * Z.of_nat n)%Z; Z.of_nat h] →
  calculate_max_window ti num_elems_processed_per_iteration = block_window 0 0 n h.
Proof.
  intros Hs. unfold calculate_max_window, num_elems_processed_per_iteration, block_window.
  rewrite Hs. simpl. by rewrite ceil_to_multiple_16.
Qed.

Lemma covers_block_steady T T' (sx sy : Z) (len h q w : nat) :
  tensor_steady T T' → covers_block T sx sy len h q w → covers_block T' sx sy len h q w.
Proof.
  intros (Hb & Hs & Ho & _) (C1 & C2 & C3). unfold covers_block.
  by rewrite Hb, Hs, Ho.
Qed.

(** X15.  The life of a kernel on an image.  After a successful [configure] on
    three tensors of [h] rows of [16 * n] elements, the output not being one
    of the inputs and its rows not overlapping, [run] over the configured
    window returns normally and leaves the kernel and every tensor but the
    output as [configure] left them; in the output, element [i] of row [j]
    is the lane operation of the resolved function on the elements at the
    same position of the inputs, and every element of its buffer outside the
    rows is the one it held before [configure]. *)
Theorem configure_then_run_block
    (policy : ConvertPolicy) (s s' : State) (l1 l2 l3 : loc) (T1 T2 T3 : ITensor)
    (n h q1 w1 q2 w2 q3 w3 : nat) :
  mem s !! l1 = Some T1 → mem s !! l2 = Some T2 → mem s !! l3 = Some T3 →
  l3 ≠ l1 → l3 ≠ l2 →
  tensor_shape (info T1) = [(16 * Z.of_nat n)%Z; Z.of_nat h] →
  covers_block T1 0 0 (16 * n) h q1 w1 → covers_block T2 0 0 (16 * n) h q2 w2 →
  covers_block T3 0 0 (16 * n) h q3 w3 →
  16 * n ≤ w3 →
  (data_type (info T1) = F16 → ARM_COMPUTE_ENABLE_FP16 = true) →
  configure (Some l1) (Some l2) (Some l3) policy s = (Ok tt, s') →
  ∃ f s'' out,
    _func (kernel s') = Some f
    ∧ run (_window (kernel s')) s' = (Ok tt, s'')
    ∧ kernel s'' = kernel s'
    ∧ (∀ l, l ≠ l3 → mem s'' !! l = mem s' !! l)
    ∧ output_buffer (Ok tt, s'') l3 = Some out
    ∧ length out = length (buffer T3)
    ∧ (∀ j i a b, j < h → i < 16 * n →
         buffer T1 !! (q1 + j * w1 + i) = Some a →
         buffer T2 !! (q2 + j * w2 + i) = Some b →
         out !! (q3 + j * w3 + i) = Some (lane_op f a b))
    ∧ (∀ idx, (∀ j, j < h → ¬ (q3 + j * w3 ≤ idx < q3 + j * w3 + 16 * n)) →
         out !! idx = buffer T3 !! idx).
Proof.
  intros M1 M2 M3 Hl1 Hl2 Hshape C1 C2 C3 Hw Hfp Hc.
  pose proof (configure_spec s l1 l2 l3 T1 T2 T3 policy M1 M2 M3 Hl1 Hl2) as Hspec.
  cbv zeta in Hspec.
  set (io := auto_init (info T1) (info T2) (info T3)) in *.
  destruct (validation_error (info T1) (info T2) io) eqn:HV; [congruence|].
  destruct (map_function !! _) as [f|] eqn:HF; [|congruence].
  destruct Hspec as (s0 & Hc0 & HK & HM). rewrite Hc in Hc0. injection Hc0 as <-.
  set (s2 := set_tensor_info s l3 T3 io) in *.
  assert (M1' : mem s2 !! l1 = Some T1) by by (subst s2; rewrite lookup_set_tensor_info_ne).
  assert (M2' : mem s2 !! l2 = Some T2) by by (subst s2; rewrite lookup_set_tensor_info_ne).
  assert (M3' : mem s2 !! l3 = Some (with_info T3 io)) by apply lookup_set_tensor_info.
  destruct (HM l1 T1 M1') as (T1' & N1 & St1).
  destruct (HM l2 T2 M2') as (T2' & N2 & St2).
  destruct (HM l3 _ M3') as (T3' & N3 & St3).
  assert (St3' : tensor_steady T3 T3').
  { eapply tensor_steady_trans; [apply (auto_init_steady (info T1) (info T2))|exact St3]. }
  rewrite (max_window_block _ _ _ Hshape) in HK.
  pose proof (call_block f (mem s') l1 l2 l3 T1' T2' T3' 0 0 n h q1 w1 q2 w2 q3 w3) as Hcall.
  rewrite (proj1 St1), (proj1 St2), (proj1 St3') in Hcall.
  exists f. eexists. eexists. split; [by rewrite HK|]. split.
  { rewrite run_unfold, HK.
    cbn [with_window set_func set_handles _is_window_configured _window
         _func _input1 _input2 _output negb].
    rewrite is_valid_subwindow_refl. cbn [negb]. unfold lift_mem.
    rewrite Hcall; [reflexivity|intros ->; apply Hfp; by eapply f16_entry|done..
                   |by eapply covers_block_steady|by eapply covers_block_steady
                   |by eapply covers_block_steady]. }
  destruct C1 as (_ & _ & B1), C2 as (_ & _ & B2), C3 as (_ & _ & B3).
  assert (Hjs : ∀ j, j ∈ seq 0 h → j < h ∧ q3 + j * w3 + 16 * n ≤ length (buffer T3)).
  { intros j Hj. apply elem_of_seq in Hj. split; [lia|]. apply B3. lia. }
  split; [by rewrite HK|]. split; [intros l Hl; simpl; by rewrite lookup_insert_ne|].
  split; [unfold output_buffer; cbn [mem]; by rewrite lookup_insert_eq|].
  cbn [buffer with_buffer]. split; [|split].
  - by apply (length_write_rows _ _ _ _ _ _ _ _ _ _ h).
  - intros j i a b Hj Hi Ha Hb.
    apply (lookup_write_rows_in _ _ _ _ _ _ _ _ _ _ h); try done.
    + apply NoDup_seq.
    + apply elem_of_seq. lia.
  - intros idx Hout.
    apply (lookup_write_rows_out _ _ _ _ _ _ _ _ _ _ h); try done.
    intros j Hj. apply Hout. apply elem_of_seq in Hj. lia.
Qed.
End ConfigureThenRunBlock.

(** Two rows of sixteen elements: unsigned 8-bit inputs, signed 16-bit
    output. *)
Lemma configure_then_run_block_witness :
  let T1 := tensor_2d U8 16 2 (replicate 32 10%Z) in
  let T2 := tensor_2d U8 16 2 (replicate 32 250%Z) in
  let T3 := tensor_2d S16 16 2 (replicate 32 0%Z) in
  let s := fresh_state T1 T2 T3 in
  let s' := (configure (Some 1) (Some 2) (Some 3) SATURATE s).2 in
  ∃ f s'' out,
    _func (kernel s') = Some f
    ∧ run (H := build_without_fp16) (_window (kernel s')) s' = (Ok tt, s'')
    ∧ kernel s'' = kernel s'
    ∧ (∀ l, l ≠ 3 → mem s'' !! l = mem s' !! l)
    ∧ output_buffer (Ok tt, s'') 3 = Some out
    ∧ length out = length (buffer T3)
    ∧ (∀ j i a b, j < 2 → i < 16 * 1 →
         buffer T1 !! (0 + j * 16 + i) = Some a →
         buffer T2 !! (0 + j * 16 + i) = Some b →
         out !! (0 + j * 16 + i) = Some (lane_op (H := build_without_fp16) f a b))
    ∧ (∀ idx, (∀ j, j < 2 → ¬ (0 + j * 16 ≤ idx < 0 + j * 16 + 16 * 1)) →
         out !! idx = buffer T3 !! idx).
Proof.
  intros T1 T2 T3 s s'.
  refine (@configure_then_run_block build_without_fp16 SATURATE s s' 1 2 3 T1 T2 T3
            1 2 0 16 0 16 0 16 _ _ _ _ _ _ _ _ _ _ _ _);
    try concrete;
    (split; [reflexivity|split; [reflexivity|]]; intros j Hj; simpl; lia).
Defined.

(** ** The state [configure] leaves *)

Section ConfigureExact.
Implicit Types (s : State) (T : ITensor).

Lemma update_padding_exact (win : Window) s l T :
  mem s !! l = Some T →
  (ti ← get_info (Some l); set_info (Some l) (with_padding_right ti (required_padding win ti))) s
  = (Ok tt, set_tensor_info s l T (padded win (info T))).
Proof.
  intros Hl. rewrite (bind_ok _ _ _ _ _ (get_info_ok _ _ _ Hl)).
  by rewrite (set_info_ok _ _ _ _ Hl).
Qed.

(** [configure] on three distinct tensors that pass the checks and have an
    entry in the table. *)
Lemma configure_exact s l1 l2 l3 T1 T2 T3 policy f :
  mem s !! l1 = Some T1 → mem s !! l2 = Some T2 → mem s !! l3 = Some T3 →
  l1 ≠ l2 → l3 ≠ l1 → l3 ≠ l2 →
  validation_error (info T1) (info T2) (auto_init (info T1) (info T2) (info T3)) = None →
  map_function !! function_to_call policy (data_type (info T1)) (data_type (info T2))
                    (data_type (auto_init (info T1) (info T2) (info T3))) = Some f →
  configure (Some l1) (Some l2) (Some l3) policy s
  = (Ok tt,
     {| kernel := with_window
                    (calculate_max_window (info T1) num_elems_processed_per_iteration)
                    (set_func f (set_handles (Some l1) (Some l2) (Some l3) (kernel s)));
        mem := configured_memory (mem s) l1 l2 l3 T1 T2 T3 |}).
Proof.
  intros M1 M2 M3 H12 H31 H32 HV HF. unfold configure.
  rewrite (bind_ok _ _ _ _ _
             (nullptr_check_spec (Some l1) (Some l2) (Some l3) s : _ = (Ok tt, s))).
  rewrite (bind_ok _ _ _ _ _ (auto_initialize_output_spec s l1 l2 l3 T1 T2 T3 M1 M2 M3 H31 H32)).
  set (io := auto_init (info T1) (info T2) (info T3)) in *.
  set (s2 := set_tensor_info s l3 T3 io).
  assert (M1' : mem s2 !! l1 = Some T1) by by (subst s2; rewrite lookup_set_tensor_info_ne).
  assert (M2' : mem s2 !! l2 = Some T2) by by (subst s2; rewrite lookup_set_tensor_info_ne).
  assert (M3' : mem s2 !! l3 = Some (with_info T3 io)) by apply lookup_set_tensor_info.
  pose proof (validate_arguments_spec s2 l1 l2 l3 _ _ _ M1' M2' M3') as HV'.
  pose proof (resolve_function_spec s2 l1 l2 l3 _ _ _ policy M1' M2' M3') as HR.
  cbn [info with_info] in HV', HR. rewrite HV in HV'. rewrite HF in HR.
  rewrite (bind_ok _ _ _ _ _ HV'), (bind_ok _ _ _ _ _ HR).
  set (s4 := {| kernel := set_func f (set_handles (Some l1) (Some l2) (Some l3) (kernel s2));
                mem := mem s2 |}).
  unfold configure_window.
  rewrite (bind_ok _ _ _ _ _ (get_info_ok s4 l1 T1 M1')).
  set (win := calculate_max_window (info T1) num_elems_processed_per_iteration).
  unfold update_window_and_padding. cbn [for_each].
  set (s5 := set_tensor_info s4 l1 T1 (padded win (info T1))).
  assert (N2 : mem s5 !! l2 = Some T2) by by (subst s5; rewrite lookup_set_tensor_info_ne).
  set (s6 := set_tensor_info s5 l2 T2 (padded win (info T2))).
  assert (N3 : mem s6 !! l3 = Some (with_info T3 io)).
  { subst s6 s5. by rewrite !lookup_set_tensor_info_ne. }
  set (s7 := set_tensor_info s6 l3 (with_info T3 io) (padded win io)).
  erewrite bind_ok; last first.
  { erewrite bind_ok; [|exact (update_padding_exact win s4 l1 T1 M1')].
    erewrite bind_ok; [|exact (update_padding_exact win s5 l2 T2 N2)].
    erewrite bind_ok; [|exact (update_padding_exact win s6 l3 _ N3)].
    reflexivity. }
  assert (Q1 : mem s7 !! l1 = Some (with_info T1 (padded win (info T1)))).
  { subst s7 s6. rewrite !lookup_set_tensor_info_ne by done. apply lookup_set_tensor_info. }
  assert (Q2 : mem s7 !! l2 = Some (with_info T2 (padded win (info T2)))).
  { subst s7. rewrite lookup_set_tensor_info_ne by done. apply lookup_set_tensor_info. }
  assert (Q3 : mem s7 !! l3 = Some (with_info (with_info T3 io) (padded win io)))
    by apply lookup_set_tensor_info.
  rewrite (bind_ok _ _ _ _ _ (get_info_ok s7 _ _ Q1)).
  rewrite (bind_ok _ _ _ _ _ (get_info_ok s7 _ _ Q2)).
  rewrite (bind_ok _ _ _ _ _ (get_info_ok s7 _ _ Q3)).
  rewrite (bind_ok _ _ _ _ _ (set_info_ok s7 _ _ _ Q3)).
  unfold INEKernel_configure, modify_kernel. f_equal.
  unfold configured_memory. fold io win. cbn.
  f_equal. apply map_eq. intros l.
  destruct (decide (l = l3)) as [->|N3'].
  { by rewrite !lookup_insert_eq. }
  rewrite !(lookup_insert_ne _ l3 l) by done.
  destruct (decide (l = l2)) as [->|N2'].
  { by rewrite !lookup_insert_eq. }
  rewrite !(lookup_insert_ne _ l2 l) by done.
  destruct (decide (l = l1)) as [->|N1'].
  { by rewrite !lookup_insert_eq. }
  rewrite !(lookup_insert_ne _ l1 l) by done.
  by rewrite !(lookup_insert_ne _ l3 l) by done.
Qed.

Lemma configure_ok_inv s s' l1 l2 l3 T1 T2 T3 policy :
  mem s !! l1 = Some T1 → mem s !! l2 = Some T2 → mem s !! l3 = Some T3 →
  l3 ≠ l1 → l3 ≠ l2 →
  configure (Some l1) (Some l2) (Some l3) policy s = (Ok tt, s') →
  validation_error (info T1) (info T2) (auto_init (info T1) (info T2) (info T3)) = None
  ∧ ∃ f, map_function !! function_to_call policy (data_type (info T1)) (data_type (info T2))
                           (data_type (auto_init (info T1) (info T2) (info T3))) = Some f.
Proof.
  intros M1 M2 M3 H31 H32 Hc.
  pose proof (configure_spec s l1 l2 l3 T1 T2 T3 policy M1 M2 M3 H31 H32) as Hspec.
  cbv zeta in Hspec.
  destruct (validation_error _ _ _); [congruence|]. split; [done|].
  destruct (map_function !! _) as [f|]; [by exists f|congruence].
Qed.
End ConfigureExact.

Section ConfigureEffect.
Implicit Types (s : State) (T : ITensor).
Local Open Scope Z_scope.


Lemma required_padding_padded (win : Window) (ti : TensorInfo) :
  required_padding win (padded win ti) = required_padding win ti.
Proof.
  unfold padded, required_padding. cbn [tensor_shape with_padding_right padding_right].
  destruct win as [|d ?]; [done|]. destruct (tensor_shape ti) as [|x ?]; [done|]. lia.
Qed.

Lemma padded_padded (win : Window) (ti : TensorInfo) :
  padded win (padded win ti) = padded win ti.
Proof.
  unfold padded at 1. rewrite required_padding_padded. by destruct ti.
Qed.

Lemma padded_with_valid_region (win : Window) (ti : TensorInfo) (r : ValidRegion) :
  padded win (with_valid_region (padded win ti) r) = with_valid_region (padded win ti) r.
Proof.
  unfold padded at 1.
  assert (E : required_padding win (with_valid_region (padded win ti) r)
              = required_padding win ti).
  { rewrite <- (required_padding_padded win ti). by destruct ti. }
  rewrite E. by destruct ti.
Qed.

Lemma max_window_shape (i j : TensorInfo) (steps : Z) :
  tensor_shape i = tensor_shape j → calculate_max_window i steps = calculate_max_window j steps.
Proof. unfold calculate_max_window. by intros ->. Qed.

Lemma validation_error_ext (i1 i2 io j1 j2 jo : TensorInfo) :
  tensor_shape j1 = tensor_shape i1 → tensor_shape j2 = tensor_shape i2 →
  tensor_shape jo = tensor_shape io →
  data_type j1 = data_type i1 → data_type j2 = data_type i2 → data_type jo = data_type io →
  num_channels j1 = num_channels i1 → num_channels j2 = num_channels i2 →
  num_channels jo = num_channels io →
  fixed_point_position j1 = fixed_point_position i1 →
  fixed_point_position j2 = fixed_point_position i2 →
  fixed_point_position jo = fixed_point_position io →
  validation_error j1 j2 jo = validation_error i1 i2 io.
Proof. unfold validation_error. by intros -> -> -> -> -> -> -> -> -> -> -> ->. Qed.

Lemma with_shape_id (ti : TensorInfo) : with_shape ti (tensor_shape ti) = ti.
Proof. by destruct ti. Qed.

(** Auto-initialisation changes nothing on an output that went through it
    and passed the checks. *)
Lemma auto_init_again (i1 i2 io j1 j2 jo : TensorInfo) :
  validation_error i1 i2 (auto_init i1 i2 io) = None →
  tensor_shape j1 = tensor_shape i1 →
  data_type j1 = data_type i1 → data_type j2 = data_type i2 →
  tensor_shape jo = tensor_shape (auto_init i1 i2 io) →
  data_type jo = data_type (auto_init i1 i2 io) →
  auto_init j1 j2 jo = jo.
Proof.
  intros HV S1 D1 D2 So Do.
  pose proof (validation_passed_types _ _ _ HV) as (_ & _ & Hdt).
  assert (Hsh : tensor_shape i1 = tensor_shape (auto_init i1 i2 io)).
  { unfold validation_error in HV.
    destruct (bool_decide (tensor_shape i1 = tensor_shape i2)) eqn:E2; [|done].
    destruct (bool_decide (tensor_shape i1 = tensor_shape (auto_init i1 i2 io))) eqn:E3;
      [|done].
    by apply bool_decide_eq_true_1 in E3. }
  unfold auto_init at 1. rewrite <- Do in Hdt.
  assert (E : (if bool_decide (tensor_shape jo = []) then with_shape jo (tensor_shape j1) else jo)
              = jo).
  { case_bool_decide as E; [|done].
    rewrite S1, Hsh, <- So. apply with_shape_id. }
  rewrite E.
  destruct (inferred_type _ _); [|done]. by rewrite bool_decide_eq_false_2.
Qed.

(** X17.  Configuring again, with the same arguments, a kernel that was
    configured successfully succeeds and changes nothing: neither the kernel
    nor the metadata of any tensor. *)
Theorem configure_idempotent
    (policy : ConvertPolicy) (s s' : State) (l1 l2 l3 : loc) (T1 T2 T3 : ITensor) :
  mem s !! l1 = Some T1 → mem s !! l2 = Some T2 → mem s !! l3 = Some T3 →
  l1 ≠ l2 → l3 ≠ l1 → l3 ≠ l2 →
  configure (Some l1) (Some l2) (Some l3) policy s = (Ok tt, s') →
  configure (Some l1) (Some l2) (Some l3) policy s' = (Ok tt, s').
Proof.
  intros M1 M2 M3 H12 H31 H32 Hc.
  destruct (configure_ok_inv s s' l1 l2 l3 T1 T2 T3 policy M1 M2 M3 H31 H32 Hc)
    as (HV & f & HF).
  rewrite (configure_exact s l1 l2 l3 T1 T2 T3 policy f M1 M2 M3 H12 H31 H32 HV HF) in Hc.
  injection Hc as <-.
  set (win := calculate_max_window (info T1) num_elems_processed_per_iteration).
  set (io := auto_init (info T1) (info T2) (info T3)) in *.
  set (vr := intersect_valid_regions (valid_region (info T1)) (valid_region (info T2))).
  set (T1' := with_info T1 (padded win (info T1))).
  set (T2' := with_info T2 (padded win (info T2))).
  set (T3' := with_info T3 (with_valid_region (padded win io) vr)).
  set (k' := with_window win (set_func f (set_handles (Some l1) (Some l2) (Some l3) (kernel s)))).
  set (m' := configured_memory (mem s) l1 l2 l3 T1 T2 T3).
  assert (Q1 : m' !! l1 = Some T1').
  { subst m'. unfold configured_memory. rewrite !lookup_insert_ne by done.
    apply lookup_insert_eq. }
  assert (Q2 : m' !! l2 = Some T2').
  { subst m'. unfold configured_memory. rewrite lookup_insert_ne by done.
    apply lookup_insert_eq. }
  assert (Q3 : m' !! l3 = Some T3').
  { subst m'. unfold configured_memory. apply lookup_insert_eq. }
  assert (HA : auto_init (info T1') (info T2') (info T3') = info T3').
  { by apply (auto_init_again (info T1) (info T2) (info T3)). }
  rewrite (configure_exact {| kernel := k'; mem := m' |} l1 l2 l3 T1' T2' T3' policy f
             Q1 Q2 Q3 H12 H31 H32).
  - assert (EK : with_window
                     (calculate_max_window (info T1') num_elems_processed_per_iteration)
                     (set_func f (set_handles (Some l1) (Some l2) (Some l3) k')) = k')
      by reflexivity.
    cbn [kernel mem]. rewrite EK. do 2 f_equal.
    unfold configured_memory. rewrite HA.
    change (calculate_max_window (info T1') num_elems_processed_per_iteration) with win.
    assert (E1 : with_info T1' (padded win (info T1')) = T1').
    { subst T1'. cbn [info with_info buffer]. by rewrite padded_padded. }
    assert (E2 : with_info T2' (padded win (info T2')) = T2').
    { subst T2'. cbn [info with_info buffer]. by rewrite padded_padded. }
    assert (E3 : with_info T3'
                   (with_valid_region (padded win (info T3'))
                      (intersect_valid_regions (valid_region (info T1'))
                                               (valid_region (info T2')))) = T3').
    { subst T3'. cbn [info with_info buffer]. rewrite padded_with_valid_region.
      change (intersect_valid_regions _ _) with vr. by destruct io. }
    rewrite E1, E2, E3.
    rewrite (insert_id m' l1 T1' Q1), (insert_id m' l2 T2' Q2).
    apply (insert_id m' l3 T3' Q3).
  - rewrite HA. rewrite <- HV. by apply validation_error_ext.
  - rewrite HA. exact HF.
Qed.
End ConfigureEffect.


(** Configuring the example kernel twice. *)
Lemma configure_idempotent_witness :
  let s := example_state S16 (replicate 16 0%Z) in
  let s' := (configure (Some 1) (Some 2) (Some 3) SATURATE s).2 in
  configure (Some 1) (Some 2) (Some 3) SATURATE s' = (Ok tt, s').
Proof.
  intros s s'.
  refine (configure_idempotent SATURATE s s' 1 2 3
            (tensor_1d U8 (replicate 16 10%Z)) (tensor_1d U8 (replicate 16 250%Z))
            (tensor_1d S16 (replicate 16 0%Z)) _ _ _ _ _ _ _); concrete.
Defined.

(** ** Runs over sub-windows *)

Section RunSplit.
Context `{Build}.
Implicit Types (s : State) (T : ITensor).
Local Arguments Nat.mul : simpl never.
Local Arguments Z.of_nat : simpl never.
Local Arguments Z.mul : simpl never.

Lemma row_window_sub (s0 : Z) (n k m : nat) :
  k + m ≤ n →
  is_valid_subwindow (row_window s0 n) (row_window (s0 + 16 * Z.of_nat k) m) = true.
Proof.
  intros Hk. unfold is_valid_subwindow, row_window, dimension_is_sub.
  cbn [length zip zip_with forallb d_start d_end d_step].
  replace (s0 + 16 * Z.of_nat k - s0)%Z with (Z.of_nat k * 16)%Z by lia.
  rewrite Z.mod_mul by lia.
  rewrite !bool_decide_eq_true_2; [done..|lia|lia|done].
Qed.

(** X18.  A configured kernel run over the two halves of its window, one after
    the other, as a scheduler that splits the window does: both sub-windows
    pass the check of [run], and the state reached is the one a single run
    over the whole window reaches. *)
Theorem run_split (st : State) (f : SubFunction)
    (l1 l2 l3 : loc) (T1 T2 T3 : ITensor) (s0 : Z) (n m : nat) :
  _is_window_configured (kernel st) = true →
  _window (kernel st) = row_window s0 (n + m) →
  _func (kernel st) = Some f →
  _input1 (kernel st) = Some l1 → _input2 (kernel st) = Some l2 →
  _output (kernel st) = Some l3 →
  (f = fn_sub_F16_F16_F16 → ARM_COMPUTE_ENABLE_FP16 = true) →
  mem st !! l1 = Some T1 → mem st !! l2 = Some T2 → mem st !! l3 = Some T3 →
  l3 ≠ l1 → l3 ≠ l2 →
  covers_row T1 s0 (16 * (n + m)) → covers_row T2 s0 (16 * (n + m)) →
  covers_row T3 s0 (16 * (n + m)) →
  (run (row_window s0 n);; run (row_window (s0 + 16 * Z.of_nat n) m)) st
  = run (row_window s0 (n + m)) st
  ∧ ∃ st', run (row_window s0 (n + m)) st = (Ok tt, st').
Proof.
  intros Hcfg Hwin Hf H1 H2 H3 Hfp M1 M2 M3 Hl1 Hl2 C1 C2 C3.
  assert (V0 : is_valid_subwindow (row_window s0 (n + m)) (row_window s0 (n + m)) = true).
  { apply is_valid_subwindow_refl. }
  assert (V1 : is_valid_subwindow (row_window s0 (n + m)) (row_window s0 n) = true).
  { pose proof (row_window_sub s0 (n + m) 0 n ltac:(lia)) as V.
    by replace (s0 + 16 * Z.of_nat 0)%Z with s0 in V by lia. }
  assert (V2 : is_valid_subwindow (row_window s0 (n + m))
                                  (row_window (s0 + 16 * Z.of_nat n) m) = true).
  { apply row_window_sub. lia. }
  pose proof (call_row f (mem st) l1 l2 l3 T1 T2 T3 s0 (n + m)
                Hfp M1 M2 M3 Hl1 Hl2 C1 C2 C3) as Hall.
  pose proof (call_row f (mem st) l1 l2 l3 T1 T2 T3 s0 n Hfp M1 M2 M3 Hl1 Hl2
                (covers_row_prefix _ _ _ _ C1) (covers_row_prefix _ _ _ _ C2)
                (covers_row_prefix _ _ _ _ C3)) as Hfst.
  assert (R0 : run (row_window s0 (n + m)) st
               = (Ok tt, {| kernel := kernel st;
                            mem := <[l3 := elementwise_row (lane_op f) T1 T2 T3 s0
                                             (16 * (n + m))]> (mem st) |})).
  { rewrite run_unfold, Hcfg, Hwin, V0, Hf, H1, H2, H3. cbn [negb].
    unfold lift_mem. by rewrite Hall. }
  assert (R1 : run (row_window s0 n) st
               = (Ok tt, {| kernel := kernel st;
                            mem := <[l3 := elementwise_row (lane_op f) T1 T2 T3 s0 (16 * n)]>
                                     (mem st) |})).
  { rewrite run_unfold, Hcfg, Hwin, V1, Hf, H1, H2, H3. cbn [negb].
    unfold lift_mem. by rewrite Hfst. }
  split; [|by eexists].
  rewrite R0, (bind_ok _ _ _ _ _ R1).
  rewrite run_unfold. cbn [kernel mem]. rewrite Hcfg, Hwin, V2, Hf, H1, H2, H3. cbn [negb].
  unfold lift_mem. cbn [kernel mem].
  set (T3' := elementwise_row (lane_op f) T1 T2 T3 s0 (16 * n)).
  assert (C3' : covers_row T3' (s0 + 16 * Z.of_nat n) (16 * m)).
  { destruct C3 as (S3 & P3 & B3), C1 as (_ & P1 & B1), C2 as (_ & P2 & B2).
    subst T3'. unfold covers_row, elementwise_row. cbn [info buffer with_buffer].
    rewrite length_splice; [repeat split; [done|lia|lia]|].
    rewrite length_zip_with_l_eq; rewrite !length_take, !length_drop; lia. }
  rewrite (call_row f _ l1 l2 l3 T1 T2 T3' (s0 + 16 * Z.of_nat n) m Hfp);
    [|by rewrite lookup_insert_ne|by rewrite lookup_insert_ne|apply lookup_insert_eq
     |done|done|by eapply covers_row_suffix|by eapply covers_row_suffix|done].
  rewrite insert_insert_eq. subst T3'. by rewrite elementwise_row_append.
Qed.
End RunSplit.

(** The example kernel on thirty-two elements, run in two halves. *)
Lemma run_split_witness :
  let T1 := tensor_1d U8 (replicate 32 9%Z) in
  let T2 := tensor_1d U8 (replicate 32 4%Z) in
  let T3 := tensor_1d U8 (replicate 32 0%Z) in
  let st := (configure (Some 1) (Some 2) (Some 3) WRAP (fresh_state T1 T2 T3)).2 in
  (run (H := build_without_fp16) (row_window 0 1);;
   run (H := build_without_fp16) (row_window (0 + 16 * Z.of_nat 1) 1)) st
  = run (H := build_without_fp16) (row_window 0 (1 + 1)) st
  ∧ ∃ st', run (H := build_without_fp16) (row_window 0 (1 + 1)) st = (Ok tt, st').
Proof.
  intros T1 T2 T3 st.
  refine (@run_split build_without_fp16 st fn_sub_wrap_U8_U8_U8 1 2 3
            (with_info T1 (padded (row_window 0 2) (info T1)))
            (with_info T2 (padded (row_window 0 2) (info T2)))
            (with_info T3 (with_valid_region (padded (row_window 0 2) (info T3))
                             {| anchor := [0%Z]; shape := [32%Z] |}))
            0%Z 1 1 _ _ _ _ _ _ _ _ _ _ _ _ _ _ _); concrete.
Defined.

(** ** [configure] and the buffers *)

Section ConfigureBuffers.
Implicit Types (s : State) (T : ITensor).

End ConfigureBuffers.

